(** * ezdxf.table: symbol tables of a DXF drawing

    A shallow embedding of [ezdxf/table.py] (classes [Table] and
    [ViewportTable]) together with the collaborators it talks to: the tag
    layer ([DXFTag], [Tags], [TagGroups], [ExtendedTags]), the handle
    generator, the entity database and the entity factory of the drawing.

    Python objects are mutable and exceptions leave earlier mutations in
    place, so the methods are written in a state-and-exception monad whose
    state survives a raised exception. *)

From Stdlib Require Import ZArith NArith String Ascii List Lia.
From stdpp Require Import base option list gmap strings pretty.

Local Open Scope Z_scope.

(* ================================================================= *)
(** ** Exceptions *)

(** The Python exceptions the code can raise.  [ValueError] carries its
    message, [KeyError] the printed key.  [FieldNotFound] and
    [FactoryError] stand for the failures of the tag layer and of the
    entity factory, which are not part of [table.py]. *)
Inductive exn : Type :=
| ValueError (msg : string)
| KeyError (key : string)
| IndexError
| AssertionError
| AttributeError
| FieldNotFound (c : Z)
| FactoryError (msg : string).

Definition is_ValueError (e : exn) : bool :=
  match e with ValueError _ => true | _ => false end.

(* ================================================================= *)
(** ** Tag model *)

(** A tag value is an opaque typed payload with equality; strings and
    integers are the two kinds [table.py] itself produces. *)
Inductive TagValue : Type :=
| VStr (s : string)
| VInt (n : Z).

Record DXFTag : Type := mkTag { code : Z; value : TagValue }.

Definition Tags : Type := list DXFTag.

#[global] Instance TagValue_eq_dec : EqDecision TagValue.
Proof. solve_decision. Defined.

#[global] Instance DXFTag_eq_dec : EqDecision DXFTag.
Proof. solve_decision. Defined.

Definition nl : string := String (ascii_of_nat 10) EmptyString.

(** [str(value)] *)
Definition value_str (v : TagValue) : string :=
  match v with
  | VStr s => s
  | VInt n => pretty n
  end.

(** ['%3d' % code]: right-justified in a field of three characters. *)
Definition pad3 (s : string) : string :=
  match String.length s with
  | O => "   " +:+ s
  | 1%nat => "  " +:+ s
  | 2%nat => " " +:+ s
  | _ => s
  end.

(** Modelled from the spec: the text of one tag, which is produced in
    [tags.py].  Each tag is two lines, the group code and then the value;
    the code is padded as in the literals ['  0\nTABLE\n'] and
    ['  0\nENDTAB\n'] of [Table.write]. *)
Definition dxfstr (t : DXFTag) : string :=
  pad3 (pretty (code t)) +:+ nl +:+ value_str (value t) +:+ nl.

Fixpoint Tags_text (ts : Tags) : string :=
  match ts with
  | [] => ""
  | t :: r => dxfstr t +:+ Tags_text r
  end.

(** Python indexing [l[i]] with a possibly negative index. *)
Definition py_index {A : Type} (l : list A) (i : Z) : option A :=
  if i <? 0
  then (if 0 <=? Z.of_nat (length l) + i
        then l !! Z.to_nat (Z.of_nat (length l) + i) else None)
  else l !! Z.to_nat i.

(** Python slices [l[1:]] and [l[1:-1]]. *)
Definition slice_from_1 {A : Type} (l : list A) : list A := drop 1 l.
Definition slice_1_to_last {A : Type} (l : list A) : list A :=
  drop 1 (take (length l - 1)%nat l).

(** [Tags.update(code, value)].
    Modelled from the spec: the mutation contract of the tag layer.  The
    first field with the given code has its value replaced in place,
    keeping its position; an absent field is an error and nothing is
    created. *)
Fixpoint Tags_update (c : Z) (v : TagValue) (ts : Tags) : exn + Tags :=
  match ts with
  | [] => inl (FieldNotFound c)
  | t :: r =>
      if code t =? c then inr (mkTag c v :: r)
      else match Tags_update c v r with
           | inl e => inl e
           | inr r' => inr (t :: r')
           end
  end.

(** The value of the first field with the given code. *)
Fixpoint Tags_getvalue (c : Z) (ts : Tags) : option TagValue :=
  match ts with
  | [] => None
  | t :: r => if code t =? c then Some (value t) else Tags_getvalue c r
  end.

(* ----------------------------------------------------------------- *)
(** *** Tag grouper *)

(** Modelled from the spec: [TagGroups] of [tags.py].  One pass from left
    to right; a tag with code 0 starts a new group, every other tag goes
    to the group that is open.  [cur] is the open group, if any; tags seen
    while no group is open belong to none. *)
Fixpoint TagGroups_scan (cur : option Tags) (tags : Tags) : list Tags :=
  match tags with
  | [] => match cur with Some g => [g] | None => [] end
  | t :: rest =>
      if code t =? 0
      then match cur with
           | Some g => g :: TagGroups_scan (Some [t]) rest
           | None => TagGroups_scan (Some [t]) rest
           end
      else TagGroups_scan (option_map (fun g => g ++ [t]) cur) rest
  end.

Definition TagGroups (tags : Tags) : list Tags := TagGroups_scan None tags.

(** [groups.getname(index)]: the value of the marker tag that opens the
    group at [index]. *)
Definition getname (groups : list Tags) (index : Z) : exn + TagValue :=
  match py_index groups index with
  | None => inl IndexError
  | Some g => match g !! 0%nat with
              | None => inl IndexError
              | Some t => inr (value t)
              end
  end.

(* ----------------------------------------------------------------- *)
(** *** Extended tags *)

(** Modelled from the spec: [ExtendedTags] of [tags.py].  A common part
    and the named subclass sections in order of first appearance. *)
Record ExtendedTags : Type :=
  mkExt { common : Tags; subclasses : list (string * Tags) }.

#[global] Instance ExtendedTags_eq_dec : EqDecision ExtendedTags.
Proof. solve_decision. Defined.

(** Modelled from the spec: the designated group code of a subclass
    marker (100 in DXF). *)
Definition SUBCLASS_MARKER : Z := 100.

(** Append [t] to the section named [name], opening it at the end when it
    is new. *)
Fixpoint subclass_append (name : string) (ts : Tags)
    (subs : list (string * Tags)) : list (string * Tags) :=
  match subs with
  | [] => [(name, ts)]
  | (n, old) :: r =>
      if String.eqb n name then (n, old ++ ts) :: r
      else (n, old) :: subclass_append name ts r
  end.

(** Modelled from the spec (4.2): tags before the first subclass marker
    are common; a marker opens the section it names; the tags that follow
    belong to that section. *)
Fixpoint ExtendedTags_scan (cur : option string) (acc : ExtendedTags)
    (tags : Tags) : ExtendedTags :=
  match tags with
  | [] => acc
  | t :: rest =>
      if code t =? SUBCLASS_MARKER
      then let name := value_str (value t) in
           ExtendedTags_scan (Some name)
             (mkExt (common acc) (subclass_append name [] (subclasses acc)))
             rest
      else match cur with
           | None =>
               ExtendedTags_scan cur
                 (mkExt (common acc ++ [t]) (subclasses acc)) rest
           | Some name =>
               ExtendedTags_scan cur
                 (mkExt (common acc)
                    (subclass_append name [t] (subclasses acc))) rest
           end
  end.

Definition ExtendedTags_new (tags : Tags) : ExtendedTags :=
  ExtendedTags_scan None (mkExt [] []) tags.

(** [xtags.subclass[name]] *)
Fixpoint subclass_lookup (name : string) (subs : list (string * Tags))
    : option Tags :=
  match subs with
  | [] => None
  | (n, ts) :: r => if String.eqb n name then Some ts else subclass_lookup name r
  end.

(** [xtags.subclass[name].update(code, value)]: the section is mutated in
    place. *)
Fixpoint subclass_update (name : string) (c : Z) (v : TagValue)
    (subs : list (string * Tags)) : exn + list (string * Tags) :=
  match subs with
  | [] => inl (KeyError name)
  | (n, ts) :: r =>
      if String.eqb n name
      then match Tags_update c v ts with
           | inl e => inl e
           | inr ts' => inr ((n, ts') :: r)
           end
      else match subclass_update name c v r with
           | inl e => inl e
           | inr r' => inr ((n, ts) :: r')
           end
  end.

(** [xtags.update(code, value)]: a field at the top level of the record. *)
Definition ExtendedTags_update (c : Z) (v : TagValue) (x : ExtendedTags)
    : exn + ExtendedTags :=
  match Tags_update c v (common x) with
  | inl e => inl e
  | inr ts => inr (mkExt ts (subclasses x))
  end.

Definition ExtendedTags_update_subclass (name : string) (c : Z)
    (v : TagValue) (x : ExtendedTags) : exn + ExtendedTags :=
  match subclass_update name c v (subclasses x) with
  | inl e => inl e
  | inr subs => inr (mkExt (common x) subs)
  end.

(** The tags of a record as they are written: the common part, then every
    section behind its regenerated marker. *)
Fixpoint subclasses_tags (subs : list (string * Tags)) : Tags :=
  match subs with
  | [] => []
  | (n, ts) :: r => mkTag SUBCLASS_MARKER (VStr n) :: ts ++ subclasses_tags r
  end.

Definition ExtendedTags_tags (x : ExtendedTags) : Tags :=
  common x ++ subclasses_tags (subclasses x).

(** The text [xtags.write(stream)] appends to the stream. *)
Definition ExtendedTags_text (x : ExtendedTags) : string :=
  Tags_text (ExtendedTags_tags x).

(* ================================================================= *)
(** ** The drawing and its collaborators *)

(** A handle is an opaque identifier.  DXF prints handles as hexadecimal
    strings; the model keeps the number. *)
Definition Handle : Type := N.

(** Modelled from the spec: the handle allocator of the drawing
    ([drawing.handles]).  [next] hands out a handle and never hands it out
    again: issuance is monotonic. *)
Definition HandleGenerator : Type := N.

Definition HandleGenerator_next (g : HandleGenerator)
    : Handle * HandleGenerator := (g, N.succ g).

(** A dictionary of DXF attributes, as passed to [create] and
    [new_entry]. *)
Definition Attribs : Type := gmap string TagValue.

(** Python dictionaries are objects with identity: the caller and the
    callee see the same one.  [Ref] names a dictionary in the store. *)
Definition Ref : Type := positive.

(** The entity factory of the drawing ([drawing.dxffactory]) and the
    wrapper objects it makes.  Its code is not part of [table.py]; the
    table uses exactly these operations. *)
Class EntityFactory : Type := {
  Entry : Type;
  (** [dxffactory.new_entity(dxfname, handle, attribs)] *)
  new_entity : TagValue -> Handle -> Attribs -> exn + Entry;
  (** [dxffactory.wrap_entity(tags)] *)
  wrap_entity : ExtendedTags -> exn + Entry;
  (** [entry.tags], [entry.handle], [entry.name] *)
  entry_tags : Entry -> ExtendedTags;
  entry_handle : Entry -> Handle;
  entry_name : Entry -> string;
  (** [tags.gethandle(handles)] of the tag layer: the handle of a record
      read from a file.  It may draw a new handle and may store it in the
      record. *)
  gethandle : ExtendedTags -> HandleGenerator
              -> exn + (Handle * ExtendedTags * HandleGenerator);
}.

(** What a table relies on when it hands a new entity to the database and
    later reads it back: the entity carries the handle and the name it was
    made with. *)
Class FactoryLaws (F : EntityFactory) : Prop := {
  new_entity_handle :
    forall kind h (a : Attribs) e,
      new_entity kind h a = inr e -> entry_handle e = h;
  new_entity_wrap :
    forall kind h (a : Attribs) e,
      new_entity kind h a = inr e ->
      exists e', wrap_entity (entry_tags e) = inr e' /\
                 entry_handle e' = h /\
                 forall n, a !! "name" = Some (VStr n) -> entry_name e' = n;
}.

Record Drawing : Type := mkDrawing {
  entitydb : gmap Handle ExtendedTags;
  handles : HandleGenerator;
  dxfversion : string;
}.

Record Table : Type := mkTable {
  _dxfname : TagValue;
  _drawing : Drawing;
  _table_entries : list Handle;
  _table_header : option ExtendedTags;
}.

(** Everything a method of the table can touch: the table (with the
    drawing it points to), the dictionaries of the caller, and the text
    written to the output stream so far. *)
Record World : Type := mkWorld {
  self : Table;
  dicts : gmap Ref Attribs;
  stream : string;
}.

Definition set_entitydb (db : gmap Handle ExtendedTags) (w : World) : World :=
  let t := self w in
  let d := _drawing t in
  mkWorld (mkTable (_dxfname t) (mkDrawing db (handles d) (dxfversion d))
             (_table_entries t) (_table_header t))
          (dicts w) (stream w).

Definition set_handles (g : HandleGenerator) (w : World) : World :=
  let t := self w in
  let d := _drawing t in
  mkWorld (mkTable (_dxfname t) (mkDrawing (entitydb d) g (dxfversion d))
             (_table_entries t) (_table_header t))
          (dicts w) (stream w).

Definition set_table_entries (l : list Handle) (w : World) : World :=
  let t := self w in
  mkWorld (mkTable (_dxfname t) (_drawing t) l (_table_header t))
          (dicts w) (stream w).

Definition set_table_header (h : option ExtendedTags) (w : World) : World :=
  let t := self w in
  mkWorld (mkTable (_dxfname t) (_drawing t) (_table_entries t) h)
          (dicts w) (stream w).

Definition set_dicts (ds : gmap Ref Attribs) (w : World) : World :=
  mkWorld (self w) ds (stream w).

Definition set_stream (s : string) (w : World) : World :=
  mkWorld (self w) (dicts w) s.

(** Short names for what the properties [Table.entitydb] and
    [Table.handles] return. *)
Definition db_of (w : World) : gmap Handle ExtendedTags :=
  entitydb (_drawing (self w)).
Definition members (w : World) : list Handle := _table_entries (self w).

(* ================================================================= *)
(** ** The monad of methods *)

Definition M (A : Type) : Type := World -> World * (exn + A).

Definition ret {A : Type} (a : A) : M A := fun w => (w, inr a).

Definition raise {A : Type} (e : exn) : M A := fun w => (w, inl e).

Definition bind {A B : Type} (m : M A) (k : A -> M B) : M B :=
  fun w => match m w with
           | (w', inl e) => (w', inl e)
           | (w', inr a) => k a w'
           end.

Definition gets {A : Type} (f : World -> A) : M A := fun w => (w, inr (f w)).

Definition modify (f : World -> World) : M unit := fun w => (f w, inr tt).

Definition lift {A : Type} (r : exn + A) : M A := fun w => (w, r).

Notation "'do' x <- c1 ; c2" := (bind c1 (fun x => c2))
  (at level 10, x name, c1 at level 100, c2 at level 200, only parsing).

Notation "'run' c1 ; c2" := (bind c1 (fun _ => c2))
  (at level 10, c1 at level 100, c2 at level 200, only parsing).

(** [list.remove(x)]: drops the first occurrence, [None] when there is
    none (Python raises ValueError). *)
Fixpoint list_remove_first (x : Handle) (l : list Handle)
    : option (list Handle) :=
  match l with
  | [] => None
  | y :: r =>
      if decide (y = x) then Some r
      else match list_remove_first x r with
           | None => None
           | Some r' => Some (y :: r')
           end
  end.

(** [stream.write(text)] *)
Definition stream_write (text : string) : M unit :=
  modify (fun w => set_stream (stream w +:+ text) w).

(** [{}]: a new dictionary, distinct from every live one. *)
Definition dict_new : M Ref :=
  fun w => let r := fresh (dom (dicts w)) in
           (set_dicts (<[r := ∅]> (dicts w)) w, inr r).

(** The contents of the dictionary behind a reference. *)
Definition dict_read (r : Ref) : M Attribs :=
  gets (fun w => default ∅ (dicts w !! r)).

(** [d[key] = v] *)
Definition dict_setitem (r : Ref) (key : string) (v : TagValue) : M unit :=
  modify (fun w =>
    set_dicts (<[r := <[key := v]> (default ∅ (dicts w !! r))]> (dicts w)) w).

(* ================================================================= *)
(** ** class Table *)

Section Table.

Context {F : EntityFactory}.

(** What [_add_entry] receives: tags read from a file, or a wrapper made
    by the factory ([isinstance(entry, Tags)] tells them apart). *)
Inductive entry_arg : Type :=
| ArgTags (tags : ExtendedTags)
| ArgEntry (entry : Entry).

(** [Table.__len__] *)
Definition Table_len : M nat := gets (fun w => length (members w)).

(** [Table.get_table_entry_wrapper] *)
Definition get_table_entry_wrapper (handle : Handle) : M Entry :=
  fun w => match db_of w !! handle with
           | None => (w, inl (KeyError (pretty handle)))
           | Some tags => (w, wrap_entity tags)
           end.

(** The loop of [Table.get_entry] over [Table.__iter__]: the generator
    wraps one handle at a time, and the loop leaves at the first entry of
    the wanted name. *)
Fixpoint get_entry_loop (name : string) (hs : list Handle) : M Entry :=
  match hs with
  | [] => raise (ValueError name)
  | handle :: rest =>
      do entry <- get_table_entry_wrapper handle;
      if String.eqb (entry_name entry) name then ret entry
      else get_entry_loop name rest
  end.

(** [Table.get_entry] *)
Definition get_entry (name : string) : M Entry :=
  do hs <- gets members;
  get_entry_loop name hs.

(** [Table.entry_exists]: only a ValueError is caught. *)
Definition entry_exists (name : string) : M bool :=
  fun w => match get_entry name w with
           | (w', inr _) => (w', inr true)
           | (w', inl e) =>
               if is_ValueError e then (w', inr false) else (w', inl e)
           end.

(** [Table.__contains__] *)
Definition Table_contains (name : string) : M bool := entry_exists name.

(** [Table.get] *)
Definition Table_get (name : string) : M Entry := get_entry name.

(** [Table._add_entry] *)
Definition _add_entry (entry : entry_arg) : M unit :=
  do ht <- match entry with
           | ArgTags tags =>
               do g <- gets (fun w => handles (_drawing (self w)));
               do r <- lift (gethandle tags g);
               run modify (set_handles (snd r));
               ret (fst r)
           | ArgEntry e => ret (entry_handle e, entry_tags e)
           end;
  run modify (fun w => set_entitydb (<[fst ht := snd ht]> (db_of w)) w);
  modify (fun w => set_table_entries (members w ++ [fst ht]) w).

(** [Table.new_entry]; [attribs] is the dictionary the caller handed
    over. *)
Definition new_entry (attribs : Ref) : M Entry :=
  do handle <- (fun w =>
       let d := _drawing (self w) in
       let hg := HandleGenerator_next (handles d) in
       (set_handles (snd hg) w, inr (fst hg)));
  do kind <- gets (fun w => _dxfname (self w));
  do a <- dict_read attribs;
  do entry <- lift (new_entity kind handle a);
  run _add_entry (ArgEntry entry);
  ret entry.

(** [Table.create] *)
Definition Table_create (name : string) (attribs : option Ref) : M Entry :=
  do dup <- Table_contains name;
  if dup : bool then
    do kind <- gets (fun w => _dxfname (self w));
    raise (ValueError (value_str kind +:+ " " +:+ name +:+ " already exists!"))
  else
    do attribs <- match attribs with
                  | None => dict_new
                  | Some r => ret r
                  end;
    run dict_setitem attribs "name" (VStr name);
    new_entry attribs.

(** [ViewportTable.create] *)
Definition ViewportTable_create (name : string) (attribs : option Ref)
    : M Entry :=
  do attribs <- match attribs with
                | None => dict_new
                | Some r => ret r
                end;
  run dict_setitem attribs "name" (VStr name);
  new_entry attribs.

(** [Table.remove_entry] *)
Definition remove_entry (name : string) : M unit :=
  do entry <- get_entry name;
  let handle := entry_handle entry in
  do l <- gets members;
  run match list_remove_first handle l with
      | None => raise (ValueError "list.remove(x): x not in list")
      | Some l' => modify (set_table_entries l')
      end;
  do db <- gets db_of;
  match db !! handle with
  | None => raise (KeyError (pretty handle))
  | Some _ => modify (set_entitydb (delete handle db))
  end.

(** [Table.remove] *)
Definition Table_remove (name : string) : M unit := remove_entry name.

(** [Table._update_meta_data].  Strings compare as in Python, character
    by character. *)
Definition _update_meta_data : M unit :=
  do count <- Table_len;
  do version <- gets (fun w => dxfversion (_drawing (self w)));
  do header <- gets (fun w => _table_header (self w));
  match header with
  | None => raise AttributeError
  | Some h =>
      do h' <- lift (if String.ltb "AC1009" version
                     then ExtendedTags_update_subclass "AcDbSymbolTable" 70
                            (VInt (Z.of_nat count)) h
                     else ExtendedTags_update 70 (VInt (Z.of_nat count)) h);
      modify (set_table_header (Some h'))
  end.

(** The loop [content] of [Table.write] over
    [Table._iter_table_entries_as_tags]: the generator looks one handle up
    at a time, so what was written before a failed lookup stays
    written. *)
Fixpoint write_content (hs : list Handle) : M unit :=
  match hs with
  | [] => ret tt
  | handle :: rest =>
      do db <- gets db_of;
      match db !! handle with
      | None => raise (KeyError (pretty handle))
      | Some tags =>
          run stream_write (ExtendedTags_text tags);
          write_content rest
      end
  end.

(** [Table.write] *)
Definition Table_write : M unit :=
  (* prologue *)
  run stream_write ("  0" +:+ nl +:+ "TABLE" +:+ nl);
  run _update_meta_data;
  do header <- gets (fun w => _table_header (self w));
  run match header with
      | None => raise AttributeError
      | Some h => stream_write (ExtendedTags_text h)
      end;
  (* content *)
  do hs <- gets members;
  run write_content hs;
  (* epilogue *)
  stream_write ("  0" +:+ nl +:+ "ENDTAB" +:+ nl).

(** The loop of [Table._build_table_entries] over [groups[1:-1]]. *)
Fixpoint add_entries (groups : list Tags) : M unit :=
  match groups with
  | [] => ret tt
  | entrytags :: rest =>
      run _add_entry (ArgTags (ExtendedTags_new entrytags));
      add_entries rest
  end.

(** [Table._build_table_entries]; a failed [assert] raises
    AssertionError. *)
Definition _build_table_entries (tags : Tags) : M unit :=
  let groups := TagGroups tags in
  do first <- lift (getname groups 0);
  if negb (bool_decide (first = VStr "TABLE")) then raise AssertionError else
  do last <- lift (getname groups (-1));
  if negb (bool_decide (last = VStr "ENDTAB")) then raise AssertionError else
  run modify (set_table_header
                (Some (ExtendedTags_new
                         (slice_from_1 (default [] (groups !! 0%nat))))));
  add_entries (slice_1_to_last groups).

(** [Table.__init__].  The result is the drawing as the constructor leaves
    it and either the table or the exception that ended the
    construction. *)
Definition Table_init (tags : Tags) (drawing : Drawing)
    : Drawing * (exn + Table) :=
  match tags !! 1%nat with
  | None => (drawing, inl IndexError)
  | Some t1 =>
      let blank := mkTable (value t1) drawing [] None in
      match _build_table_entries tags (mkWorld blank ∅ "") with
      | (w, inl e) => (_drawing (self w), inl e)
      | (w, inr _) => (_drawing (self w), inr (self w))
      end
  end.

End Table.

(* ================================================================= *)
(** ** A small factory to run the table on *)

(** An entity factory in the style of DXF, used to evaluate the table on
    concrete drawings: a wrapper is the record itself, the name is the
    field with code 2 and the handle the field with code 5. *)
Module Sample.

Definition name_of (x : ExtendedTags) : string :=
  match Tags_getvalue 2 (common x) with
  | Some v => value_str v
  | None => ""
  end.

Definition handle_of (x : ExtendedTags) : Handle :=
  match Tags_getvalue 5 (common x) with
  | Some (VInt n) => Z.to_N n
  | _ => 0%N
  end.

Definition make (kind : TagValue) (h : Handle) (a : Attribs)
    : exn + ExtendedTags :=
  match a !! "name" with
  | Some (VStr n) =>
      inr (mkExt [mkTag 0 kind; mkTag 5 (VInt (Z.of_N h)); mkTag 2 (VStr n)] [])
  | _ => inl (FactoryError "name required")
  end.

Definition handle_from_tags (x : ExtendedTags) (g : HandleGenerator)
    : exn + (Handle * ExtendedTags * HandleGenerator) :=
  match Tags_getvalue 5 (common x) with
  | Some (VInt n) => inr (Z.to_N n, x, g)
  | _ => let hg := HandleGenerator_next g in
         inr (fst hg,
              mkExt (common x ++ [mkTag 5 (VInt (Z.of_N (fst hg)))])
                    (subclasses x),
              snd hg)
  end.

#[global] Instance factory : EntityFactory := {|
  Entry := ExtendedTags;
  new_entity := make;
  wrap_entity := fun x => inr x;
  entry_tags := fun x => x;
  entry_handle := handle_of;
  entry_name := name_of;
  gethandle := handle_from_tags;
|}.

(** The record of an entry of the given kind, handle and name. *)
Definition record (kind : string) (h : Z) (name : string) : ExtendedTags :=
  mkExt [mkTag 0 (VStr kind); mkTag 5 (VInt h); mkTag 2 (VStr name)] [].

Definition layer (h : Z) (name : string) : ExtendedTags :=
  record "LAYER" h name.

(** Table headers of the legacy and of the modern format. *)
Definition header_legacy (n : Z) : ExtendedTags :=
  mkExt [mkTag 2 (VStr "LAYER"); mkTag 70 (VInt n)] [].

Definition header_modern (n : Z) : ExtendedTags :=
  mkExt [mkTag 2 (VStr "LAYER"); mkTag 5 (VInt 2)]
        [("AcDbSymbolTable", [mkTag 70 (VInt n)])].

(** A drawing with the layers "0" and "1" and a table over both. *)
Definition drawing2 (version : string) : Drawing :=
  mkDrawing (<[1%N := layer 1 "0"]> (<[2%N := layer 2 "1"]> ∅)) 3%N version.

Definition table2 (version : string) (hdr : ExtendedTags) : Table :=
  mkTable (VStr "LAYER") (drawing2 version) [1%N; 2%N] (Some hdr).

Definition world2 : World :=
  mkWorld (table2 "AC1009" (header_legacy 7)) (<[1%positive := ∅]> ∅) "".

Definition world2_modern : World :=
  mkWorld (table2 "AC1015" (header_modern 7)) ∅ "".

(** A viewport table with two viewports of the same name. *)
Definition drawing_vports : Drawing :=
  mkDrawing (<[1%N := record "VPORT" 1 "*ACTIVE"]>
               (<[2%N := record "VPORT" 2 "*ACTIVE"]> ∅))
            3%N "AC1009".

Definition world_vports : World :=
  mkWorld (mkTable (VStr "VPORT") drawing_vports [1%N; 2%N]
             (Some (header_legacy 2)))
          ∅ "".

(** An empty table whose header claims seven entries. *)
Definition world0 : World :=
  mkWorld (mkTable (VStr "LAYER") (mkDrawing ∅ 1%N "AC1009") []
             (Some (header_legacy 7)))
          ∅ "".

(** The tag stream of a table section with the layer "0". *)
Definition section_tags : Tags :=
  [ mkTag 0 (VStr "TABLE"); mkTag 2 (VStr "LAYER"); mkTag 70 (VInt 1);
    mkTag 0 (VStr "LAYER"); mkTag 5 (VInt 16); mkTag 2 (VStr "0");
    mkTag 0 (VStr "ENDTAB") ].

End Sample.

(* ================================================================= *)
(** ** Properties of states *)

Section Predicates.

Context {F : EntityFactory}.

(** The wrapper of member [h], when the database has it and the factory
    can wrap it. *)
Definition entry_of (w : World) (h : Handle) : option Entry :=
  match db_of w !! h with
  | Some tags => match wrap_entity tags with
                 | inr e => Some e
                 | inl _ => None
                 end
  | None => None
  end.

(** Every handle of the table has a live record in the entity database. *)
Definition live (w : World) : Prop :=
  forall h, h ∈ members w -> is_Some (db_of w !! h).

(** The handles of the table are pairwise distinct. *)
Definition distinct_handles (w : World) : Prop := NoDup (members w).

(** The handles of the table are pairwise distinct and each is the key of
    a record that wraps to an entry carrying that same handle. *)
Definition coherent (w : World) : Prop :=
  NoDup (members w) /\
  forall h, h ∈ members w ->
    exists e, entry_of w h = Some e /\ entry_handle e = h.

(** The generator has not yet issued any handle of the table. *)
Definition unissued (w : World) : Prop :=
  forall h, h ∈ members w -> (h < handles (_drawing (self w)))%N.

(** The logical names of the members, in the order of the members. *)
Definition names (w : World) : list string :=
  omap (fun h => entry_name <$> entry_of w h) (members w).

(** Every handle in [hs] resolves to an entry that is not called
    [name]. *)
Definition no_member_named (name : string) (w : World) (hs : list Handle)
    : Prop :=
  forall h, h ∈ hs ->
    exists e, entry_of w h = Some e /\ entry_name e <> name.

(** The same as a test that can be run. *)
Definition no_member_namedb (name : string) (w : World) (hs : list Handle)
    : bool :=
  forallb (fun h => match entry_of w h with
                    | Some e => negb (String.eqb (entry_name e) name)
                    | None => false
                    end) hs.

(** Every handle in [hs] resolves to an entry carrying that handle. *)
Definition coherentb (w : World) (hs : list Handle) : bool :=
  forallb (fun h => match entry_of w h with
                    | Some e => bool_decide (entry_handle e = h)
                    | None => false
                    end) hs.

(** A caller that calls [create] again and again, catching what it
    raises: the state after the calls. *)
Definition run_creates (calls : list (string * option Ref)) (w : World)
    : World :=
  fold_left (fun w c => fst (Table_create (fst c) (snd c) w)) calls w.

(** The attributes [create(name, attribs)] hands to [new_entry]: those of
    the caller, or none, with the name set. *)
Definition create_attribs (name : string) (attribs : option Ref) (w : World)
    : Attribs :=
  <["name" := VStr name]>
    (match attribs with
     | Some r => default ∅ (dicts w !! r)
     | None => ∅
     end).

(** The state once [create] has stored the name in the dictionary [r] of
    the caller. *)
Definition with_name (r : Ref) (name : string) (w : World) : World :=
  set_dicts (<[r := <["name" := VStr name]> (default ∅ (dicts w !! r))]>
               (dicts w)) w.

(** [w'] differs from [w] at most in the generator, the dictionaries and
    the stream: the table and the database are as they were. *)
Definition same_table (w w' : World) : Prop :=
  members w' = members w /\ db_of w' = db_of w /\
  _dxfname (self w') = _dxfname (self w) /\
  _table_header (self w') = _table_header (self w) /\
  dxfversion (_drawing (self w')) = dxfversion (_drawing (self w)).

(** [w'] is [w] with the entry [e] added under the handle [h] at the end of
    the members. *)
Definition appended (h : Handle) (e : Entry) (w w' : World) : Prop :=
  members w' = members w ++ [h] /\
  db_of w' = <[h := entry_tags e]> (db_of w) /\
  _dxfname (self w') = _dxfname (self w) /\
  _table_header (self w') = _table_header (self w) /\
  dxfversion (_drawing (self w')) = dxfversion (_drawing (self w)).

End Predicates.

(** The entry-count field of a table header: at the top level of the
    record in the legacy format (not greater than AC1009), inside the
    subclass AcDbSymbolTable otherwise. *)
Definition count_field (version : string) (hdr : ExtendedTags)
    : option TagValue :=
  if String.ltb "AC1009" version
  then match subclass_lookup "AcDbSymbolTable" (subclasses hdr) with
       | Some ts => Tags_getvalue 70 ts
       | None => None
       end
  else Tags_getvalue 70 (common hdr).

(** The texts of several records, one after the other. *)
Fixpoint concat_text (l : list string) : string :=
  match l with
  | [] => ""
  | s :: r => s +:+ concat_text r
  end.

(** The spec's StructureError: the exceptions with which the constructor
    turns a malformed tag sequence down, a failed assertion on a marker
    name or an index out of range where a tag or a group is missing. *)
Definition StructureError (e : exn) : Prop :=
  e = AssertionError \/ e = IndexError.

(** The invariant of the members, on the table alone. *)
Definition live_table (t : Table) : Prop :=
  forall h, h ∈ _table_entries t -> is_Some (entitydb (_drawing t) !! h).

(* ================================================================= *)
(** ** The names of tables *)

(** What [str.lower()] does to the characters of ASCII: the letters A to
    Z become a to z, every other character stays. *)
Definition lower_char (c : ascii) : ascii :=
  let n := nat_of_ascii c in
  if ((65 <=? n) && (n <=? 90))%nat then ascii_of_nat (n + 32) else c.

Fixpoint ascii_lower (s : string) : string :=
  match s with
  | EmptyString => EmptyString
  | String c r => String (lower_char c) (ascii_lower r)
  end.

(** [str.isascii()]: every character is below 128. *)
Definition is_ascii_char (c : ascii) : bool := (nat_of_ascii c <? 128)%nat.

Fixpoint is_ascii (s : string) : bool :=
  match s with
  | EmptyString => true
  | String c r => is_ascii_char c && is_ascii r
  end.

(** [str.lower()].  Python folds every cased character of Unicode, by
    tables that belong to the interpreter and not to the repository, so
    the method is taken as an interface.  What is known of it here is
    what it does to a text of ASCII characters. *)
Class StrLower : Type := {
  lower : string -> string;
  lower_ascii : forall s, is_ascii s = true -> lower s = ascii_lower s;
}.

(** [TABLENAMES] *)
Definition TABLENAMES : gmap string string :=
  list_to_map
    [ ("layer", "layers");
      ("ltype", "linetypes");
      ("appid", "appids");
      ("dimstyle", "dimstyles");
      ("style", "styles");
      ("ucs", "ucs");
      ("view", "views");
      ("vport", "viewports");
      ("block_record", "block_records") ].

Section TableNames.

Context {P : StrLower}.

(** [tablename(dxfname)].  The argument is the value of a tag; a value
    that is not a string has no method [lower]. *)
Definition tablename (dxfname : TagValue) : exn + string :=
  match dxfname with
  | VStr s =>
      let name := lower s in
      inr (default (name +:+ "s") (TABLENAMES !! name))
  | VInt _ => inl AttributeError
  end.

(** [GenericTable.name], on the tags of the chunk. *)
Definition GenericTable_name (tags : Tags) : exn + string :=
  match tags !! 1%nat with
  | None => inl IndexError
  | Some t => tablename (value t)
  end.

(** [Table.name] *)
Definition Table_name : M string :=
  fun w => (w, tablename (_dxfname (self w))).

End TableNames.

Section Iteration.

Context {F : EntityFactory}.

(** [Table.__iter__], run to its end as by [list(table)]: one wrapper
    for each handle, in the order of the members. *)
Fixpoint iter_loop (hs : list Handle) : M (list Entry) :=
  match hs with
  | [] => ret []
  | handle :: rest =>
      do entry <- get_table_entry_wrapper handle;
      do entries <- iter_loop rest;
      ret (entry :: entries)
  end.

Definition Table_iter : M (list Entry) :=
  do hs <- gets members;
  iter_loop hs.

End Iteration.

Section Handles.

Context {F : EntityFactory}.

(** The handles [Table._build_table_entries] registers for the entry
    groups, in their order: what [gethandle] answers for the record of
    each group, the generator going from one group to the next.  The
    handles are taken as they come; none is compared with another. *)
Fixpoint group_handles (groups : list Tags) (g : HandleGenerator)
    : list Handle :=
  match groups with
  | [] => []
  | entrytags :: rest =>
      match gethandle (ExtendedTags_new entrytags) g with
      | inl _ => []
      | inr r => fst (fst r) :: group_handles rest (snd r)
      end
  end.

End Handles.

(** States for running the table where it fails. *)
Module Cases.

(** A [lower] for running the table on the ASCII names of DXF: it folds
    the letters A to Z and leaves every other character as it is. *)
Definition ascii_text : StrLower :=
  {| lower := ascii_lower; lower_ascii := fun _ _ => eq_refl |}.

(** The tag stream of a table section in which the layers "0" and "1"
    both carry the handle 16. *)
Definition tags_repeated_handle : Tags :=
  [ mkTag 0 (VStr "TABLE"); mkTag 2 (VStr "LAYER"); mkTag 70 (VInt 2);
    mkTag 0 (VStr "LAYER"); mkTag 5 (VInt 16); mkTag 2 (VStr "0");
    mkTag 0 (VStr "LAYER"); mkTag 5 (VInt 16); mkTag 2 (VStr "1");
    mkTag 0 (VStr "ENDTAB") ].

(** The member 2 has no record in the database. *)
Definition world_dangling : World :=
  mkWorld (mkTable (VStr "LAYER")
             (mkDrawing (<[1%N := Sample.layer 1 "0"]> ∅) 3%N "AC1009")
             [1%N; 2%N] (Some (Sample.header_legacy 2)))
          ∅ "".

(** The header has no field with code 70. *)
Definition world_no_count : World :=
  mkWorld (mkTable (VStr "LAYER") (Sample.drawing2 "AC1009") [1%N; 2%N]
             (Some (mkExt [mkTag 2 (VStr "LAYER")] [])))
          ∅ "".

(** The caller holds the dictionary 1, which lacks a name; the sample
    factory turns down attributes whose name is not a string. *)
Definition world_bad_attribs : World :=
  mkWorld (Sample.table2 "AC1009" (Sample.header_legacy 2))
          (<[1%positive := <["color" := VInt 7]> ∅]>
             (<[2%positive := <["name" := VInt 5]> ∅]> ∅))
          "".

(** A factory like the sample one that turns down the empty name. *)
Definition picky_make (kind : TagValue) (h : Handle) (a : Attribs)
    : exn + ExtendedTags :=
  match a !! "name" with
  | Some (VStr "") => inl (FactoryError "empty name")
  | _ => Sample.make kind h a
  end.

Definition picky : EntityFactory := {|
  Entry := ExtendedTags;
  new_entity := picky_make;
  wrap_entity := fun x => inr x;
  entry_tags := fun x => x;
  entry_handle := Sample.handle_of;
  entry_name := Sample.name_of;
  gethandle := Sample.handle_from_tags;
|}.

End Cases.

(* ================================================================= *)
(** ** Text tools ([ezdxf/tools/text.py]) *)

(** A Python string is a sequence of code points. *)
Definition text : Type := list Z.

(** [is_non_printable_char(char)], on the code point of the character. *)
Definition is_non_printable_char (c : Z) : bool :=
  (0 <=? c) && (c <? 32) && negb (c =? 9).

(** [replace_non_printable_characters(text, replacement)] *)
Definition replace_non_printable_characters (t replacement : text) : text :=
  flat_map (fun c => if is_non_printable_char c then replacement else [c]) t.

(** [str.replace(old, new)] for a pattern [old] of one character. *)
Definition replace_char (old : Z) (new : text) (t : text) : text :=
  flat_map (fun c => if c =? old then new else [c]) t.

(** [escape_dxf_line_endings(text)]: carriage return is 13, line feed 10,
    and the replacement is a backslash and a P. *)
Definition escape_dxf_line_endings (t : text) : text :=
  replace_char 10 [92; 80] (replace_char 13 [] t).

(** [caret_decode(text)].  [re.sub] walks the text from the left; the
    pattern is a caret (94) and one more character, which may be anything
    but a line feed; the two are replaced by [chr((c - 64) % 126)]. *)
Fixpoint caret_decode (t : text) : text :=
  match t with
  | [] => []
  | c :: rest =>
      if c =? 94
      then match rest with
           | [] => [c]
           | d :: rest' =>
               if d =? 10 then c :: caret_decode rest
               else ((d - 64) mod 126) :: caret_decode rest'
           end
      else c :: caret_decode rest
  end.

(** [split_mtext_string(s, size)], for a size that is not negative.  The
    loop [while True] runs on fuel: [None] is a loop that has not come to
    its [return] within the fuel. *)
Fixpoint split_mtext_loop (fuel : nat) (s : text) (size pos : nat)
    (chunks : list text) : option (list text) :=
  match fuel with
  | O => None
  | S fuel' =>
      let chunk := take size (drop pos s) in
      if (0 <? length chunk)%nat then
        if (length chunk <? size)%nat then Some (chunks ++ [chunk])
        else
          let pos1 := (pos + size)%nat in
          if bool_decide (last chunk = Some 94)
          then split_mtext_loop fuel' s size (pos1 - 1)%nat
                 (chunks ++ [take (length chunk - 1)%nat chunk])
          else split_mtext_loop fuel' s size pos1 (chunks ++ [chunk])
      else Some chunks
  end.

Definition split_mtext_string (fuel : nat) (s : text) (size : nat)
    : option (list text) :=
  split_mtext_loop fuel s size 0 [].

(** [ONE_CHAR_COMMANDS = "PLlOoKkX"] *)
Definition ONE_CHAR_COMMANDS : text := [80; 76; 108; 79; 111; 75; 107; 88].

(** The search for the semicolon (59) that ends a longer command of
    [plain_mtext]: the characters it appends on the way, which are those
    of a stacking command, and the text after the semicolon, or [None]
    when the text ends first (the IndexError of [pop]). *)
Fixpoint search_end (stacking : bool) (search : text) : text * option text :=
  match search with
  | [] => ([], None)
  | c :: r =>
      if c =? 59 then ([], Some r)
      else let res := search_end stacking r in
           (if stacking then c :: fst res else fst res, snd res)
  end.

Section MText.

(** [SPECIAL_CHARS_ENCODING.get(char, "")], a table of
    [ezdxf.lldxf.const]. *)
Variable special : Z -> text.

(** The loop of [plain_mtext(text)], without splitting into lines: [raw]
    is what [raw_chars] still holds, in the order of the text, [chars] is
    the output so far.  A backslash is 92, the braces are 123 and 125,
    the percent sign is 37, "P" is 80 and "S" is 83.  The loop runs on
    fuel. *)
Fixpoint plain_mtext_loop (fuel : nat) (raw chars : text) : option text :=
  match fuel with
  | O => None
  | S fuel' =>
      match raw with
      | [] => Some chars
      | c :: raw1 =>
          if c =? 92 then
            match raw1 with
            | [] => Some chars
            | c2 :: raw2 =>
                if bool_decide (c2 ∈ [92; 123; 125])
                then plain_mtext_loop fuel' raw2 (chars ++ [c2])
                else if bool_decide (c2 ∈ ONE_CHAR_COMMANDS)
                then plain_mtext_loop fuel' raw2
                       (if c2 =? 80 then chars ++ [10] else chars)
                else if c2 =? 59
                then plain_mtext_loop fuel' raw2 chars
                else
                  let found := search_end (c2 =? 83) raw2 in
                  match snd found with
                  | Some rest =>
                      plain_mtext_loop fuel' rest (chars ++ fst found)
                  | None =>
                      plain_mtext_loop fuel' raw2
                        (chars ++ fst found ++ [92; c2])
                  end
            end
          else if bool_decide (c ∈ [123; 125])
          then plain_mtext_loop fuel' raw1 chars
          else if c =? 37 then
            match raw1 with
            | c2 :: raw2 =>
                if c2 =? 37
                then match raw2 with
                     | [] => plain_mtext_loop fuel' raw2 chars
                     | sc :: raw3 =>
                         plain_mtext_loop fuel' raw3 (chars ++ special sc)
                     end
                else plain_mtext_loop fuel' raw1 (chars ++ [c])
            | [] => plain_mtext_loop fuel' raw1 (chars ++ [c])
            end
          else plain_mtext_loop fuel' raw1 (chars ++ [c])
      end
  end.

(** [plain_mtext(text)] *)
Definition plain_mtext (fuel : nat) (t : text) : option text :=
  plain_mtext_loop fuel t [].

End MText.

(** The alignment constants of the module. *)
Definition LEFT : Z := 0.
Definition CENTER : Z := 1.
Definition RIGHT : Z := 2.
Definition BASELINE : Z := 0.
Definition BOTTOM : Z := 1.
Definition MIDDLE : Z := 2.
Definition TOP : Z := 3.

(** [MTEXT_ALIGN_FLAGS] *)
Definition MTEXT_ALIGN_FLAGS : gmap Z (Z * Z) :=
  list_to_map
    [ (1, (LEFT, TOP)); (2, (CENTER, TOP)); (3, (RIGHT, TOP));
      (4, (LEFT, MIDDLE)); (5, (CENTER, MIDDLE)); (6, (RIGHT, MIDDLE));
      (7, (LEFT, BOTTOM)); (8, (CENTER, BOTTOM)); (9, (RIGHT, BOTTOM)) ].

(** What [unified_alignment] reads of an entity: [entity.dxftype()],
    [entity.dxf.halign], [entity.dxf.valign] and
    [entity.dxf.attachment_point]. *)
Record TextEntity : Type := mkTextEntity {
  dxftype : string;
  dxf_halign : Z;
  dxf_valign : Z;
  dxf_attachment_point : Z;
}.

(** The TypeError of [unified_alignment], with its message. *)
Inductive text_exn : Type :=
| TypeError (msg : string).

(** [unified_alignment(entity)] *)
Definition unified_alignment (entity : TextEntity) : text_exn + (Z * Z) :=
  let t := dxftype entity in
  if bool_decide (t ∈ ["TEXT"; "ATTRIB"; "ATTDEF"]) then
    let halign := dxf_halign entity in
    let valign := dxf_valign entity in
    let hv := if 2 <? halign then (CENTER, BASELINE) else (halign, valign) in
    let valign' := if fst hv =? 4 then MIDDLE else snd hv in
    inr (fst hv, valign')
  else if bool_decide (t = "MTEXT") then
    inr (default (LEFT, TOP) (MTEXT_ALIGN_FLAGS !! dxf_attachment_point entity))
  else inl (TypeError ("invalid DXF " +:+ t)).

(* ================================================================= *)
(** ** Looking entries up *)

Ltac unfold_monad :=
  unfold bind, ret, raise, gets, modify, lift in *.

Section Lookup.

Context {F : EntityFactory}.

Lemma wrapper_of_entry w h e :
  entry_of w h = Some e -> get_table_entry_wrapper h w = (w, inr e).
Proof.
  unfold entry_of, get_table_entry_wrapper.
  destruct (db_of w !! h) as [tags|]; [|discriminate].
  destruct (wrap_entity tags); congruence.
Qed.

Lemma wrapper_inv w h w' e :
  get_table_entry_wrapper h w = (w', inr e) -> w' = w /\ entry_of w h = Some e.
Proof.
  unfold entry_of, get_table_entry_wrapper.
  destruct (db_of w !! h) as [tags|]; [|intros [= _ ?]; discriminate].
  intros [= <- ->]. split; reflexivity.
Qed.

Lemma wrapper_frame w h : fst (get_table_entry_wrapper h w) = w.
Proof.
  unfold get_table_entry_wrapper. destruct (db_of w !! h); reflexivity.
Qed.

Lemma get_entry_loop_frame name hs w : fst (get_entry_loop name hs w) = w.
Proof.
  induction hs as [|h hs IH]; simpl; [reflexivity|].
  unfold_monad.
  pose proof (wrapper_frame w h) as Hw.
  destruct (get_table_entry_wrapper h w) as [w1 [e|entry]]; simpl in Hw; subst w1.
  - reflexivity.
  - destruct (String.eqb (entry_name entry) name); [reflexivity | apply IH].
Qed.

Lemma get_entry_loop_missing name hs w :
  no_member_named name w hs ->
  get_entry_loop name hs w = (w, inl (ValueError name)).
Proof.
  induction hs as [|h hs IH]; intros Hno; simpl; [reflexivity|].
  destruct (Hno h) as (e & He & Hne); [left|].
  unfold_monad. rewrite (wrapper_of_entry _ _ _ He).
  apply String.eqb_neq in Hne. rewrite Hne.
  apply IH. intros h' Hin. apply Hno. right. exact Hin.
Qed.

Lemma get_entry_loop_found name pre h post w e :
  no_member_named name w pre ->
  entry_of w h = Some e -> entry_name e = name ->
  get_entry_loop name (pre ++ h :: post) w = (w, inr e).
Proof.
  induction pre as [|p pre IH]; intros Hno He Hname; simpl.
  - unfold_monad. rewrite (wrapper_of_entry _ _ _ He).
    apply String.eqb_eq in Hname. rewrite Hname. reflexivity.
  - destruct (Hno p) as (e' & He' & Hne); [left|].
    unfold_monad. rewrite (wrapper_of_entry _ _ _ He').
    apply String.eqb_neq in Hne. rewrite Hne.
    apply IH; [|assumption..].
    intros h' Hin. apply Hno. right. exact Hin.
Qed.

Lemma get_entry_loop_inv name hs w w' e :
  get_entry_loop name hs w = (w', inr e) ->
  w' = w /\
  exists pre h post,
    hs = pre ++ h :: post /\ no_member_named name w pre /\
    entry_of w h = Some e /\ entry_name e = name.
Proof.
  revert w'. induction hs as [|h hs IH]; intros w' Hrun; simpl in Hrun.
  - discriminate.
  - unfold_monad.
    destruct (get_table_entry_wrapper h w) as [w1 [x|entry]] eqn:Hw;
      [discriminate|].
    apply wrapper_inv in Hw as [-> He].
    destruct (String.eqb (entry_name entry) name) eqn:Hn.
    + injection Hrun as <- <-. split; [reflexivity|].
      exists [], h, hs. apply String.eqb_eq in Hn.
      repeat split; try assumption.
      intros h' Hin. inversion Hin.
    + apply IH in Hrun as [-> (pre & h0 & post & -> & Hno & He0 & Hname)].
      split; [reflexivity|].
      exists (h :: pre), h0, post. repeat split; try assumption.
      intros h' Hin. apply elem_of_cons in Hin as [->|Hin].
      * exists entry. split; [assumption|]. by apply String.eqb_neq.
      * by apply Hno.
Qed.

(** The loop sees the state only through the records of the handles it
    visits. *)
Lemma entry_of_ext w1 w2 h :
  db_of w1 !! h = db_of w2 !! h -> entry_of w1 h = entry_of w2 h.
Proof. unfold entry_of. intros ->. reflexivity. Qed.

Lemma no_member_named_ext name w1 w2 hs :
  (forall h, h ∈ hs -> db_of w1 !! h = db_of w2 !! h) ->
  no_member_named name w1 hs -> no_member_named name w2 hs.
Proof.
  intros Hext Hno h Hin. destruct (Hno h Hin) as (e & He & Hne).
  exists e. split; [|assumption].
  rewrite <- (entry_of_ext w1 w2 h); auto.
Qed.

Lemma get_entry_unfold name w :
  get_entry name w = get_entry_loop name (members w) w.
Proof. reflexivity. Qed.

(** Under coherence the outcome of [entry_exists] is decided by the
    names. *)
Lemma coherent_resolves w :
  coherent w -> forall h, h ∈ members w -> exists e, entry_of w h = Some e.
Proof. intros [_ Hc] h Hin. destruct (Hc h Hin) as (e & He & _). eauto. Qed.

Lemma names_elem w name :
  name ∈ names w <->
  exists h e, h ∈ members w /\ entry_of w h = Some e /\ entry_name e = name.
Proof.
  unfold names. rewrite list_elem_of_omap. split.
  - intros (h & Hin & Hh). destruct (entry_of w h) as [e|] eqn:He; [|discriminate].
    simpl in Hh. injection Hh as <-. eauto.
  - intros (h & e & Hin & He & <-). exists h. rewrite He. auto.
Qed.

(** Splitting the members at the first one of a given name. *)
Lemma first_named name w hs :
  (forall h, h ∈ hs -> exists e, entry_of w h = Some e) ->
  no_member_named name w hs \/
  exists pre h post e,
    hs = pre ++ h :: post /\ no_member_named name w pre /\
    entry_of w h = Some e /\ entry_name e = name.
Proof.
  induction hs as [|h hs IH]; intros Hres.
  - left. intros h Hin. inversion Hin.
  - destruct (Hres h) as (e & He); [left|].
    destruct (decide (entry_name e = name)) as [Heq|Hne].
    + right. exists [], h, hs, e. repeat split; try assumption.
      intros h' Hin. inversion Hin.
    + destruct IH as [Hno|(pre & h0 & post & e0 & -> & Hno & He0 & Hn0)].
      * intros h' Hin. apply Hres. by right.
      * left. intros h' Hin. apply elem_of_cons in Hin as [->|Hin]; eauto.
      * right. exists (h :: pre), h0, post, e0. repeat split; try assumption.
        intros h' Hin. apply elem_of_cons in Hin as [->|Hin]; eauto.
Qed.

Lemma no_member_named_names name w :
  no_member_named name w (members w) -> name ∉ names w.
Proof.
  intros Hno Hin. apply names_elem in Hin as (h & e & Hh & He & Hname).
  destruct (Hno h Hh) as (e' & He' & Hne). congruence.
Qed.

Lemma entry_exists_false name w :
  no_member_named name w (members w) ->
  entry_exists name w = (w, inr false).
Proof.
  intros Hno. unfold entry_exists. rewrite get_entry_unfold.
  rewrite (get_entry_loop_missing _ _ _ Hno). reflexivity.
Qed.

Lemma entry_exists_true name w pre h post e :
  members w = pre ++ h :: post -> no_member_named name w pre ->
  entry_of w h = Some e -> entry_name e = name ->
  entry_exists name w = (w, inr true).
Proof.
  intros Hm Hno He Hname. unfold entry_exists. rewrite get_entry_unfold, Hm.
  rewrite (get_entry_loop_found _ _ _ _ _ _ Hno He Hname). reflexivity.
Qed.

End Lookup.

(** C5. [get(name)] walks the members in insertion order, resolving each
    handle through the entity database and the factory, and returns the
    first entry whose name is [name]: it returns [e] exactly when the
    members split into a prefix of resolved entries with other names and a
    member that resolves to [e] with that name, and it leaves the state
    alone.  When every member resolves and none has the name, it raises
    ValueError(name) and returns nothing. *)
Theorem get_first_match {F : EntityFactory} (w : World) (name : string) :
  (forall w' e,
     Table_get name w = (w', inr e) <->
     w' = w /\
     exists pre h post,
       members w = pre ++ h :: post /\ no_member_named name w pre /\
       entry_of w h = Some e /\ entry_name e = name) /\
  (no_member_named name w (members w) ->
   Table_get name w = (w, inl (ValueError name))).
Proof.
  split.
  - intros w' e. unfold Table_get. rewrite get_entry_unfold. split.
    + apply get_entry_loop_inv.
    + intros [-> (pre & h & post & -> & Hno & He & Hname)].
      by apply get_entry_loop_found.
  - intros Hno. unfold Table_get. rewrite get_entry_unfold.
    by apply get_entry_loop_missing.
Qed.

(* ================================================================= *)
(** ** Running the tests on concrete states *)

Section Tests.

Context {F : EntityFactory}.

Lemma no_member_namedb_correct name w hs :
  no_member_namedb name w hs = true -> no_member_named name w hs.
Proof.
  unfold no_member_namedb, no_member_named. rewrite forallb_forall.
  intros Hall h Hin. apply list_elem_of_In in Hin. specialize (Hall h Hin).
  destruct (entry_of w h) as [e|]; [|discriminate].
  exists e. split; [reflexivity|].
  apply String.eqb_neq. by apply negb_true_iff.
Qed.

Lemma coherentb_correct w :
  bool_decide (NoDup (members w)) = true ->
  coherentb w (members w) = true -> coherent w.
Proof.
  intros Hnd Hall. split; [by apply bool_decide_eq_true in Hnd|].
  unfold coherentb in Hall. rewrite forallb_forall in Hall.
  intros h Hin. apply list_elem_of_In in Hin. specialize (Hall h Hin).
  destruct (entry_of w h) as [e|]; [|discriminate].
  exists e. split; [reflexivity|]. by apply bool_decide_eq_true in Hall.
Qed.

End Tests.

#[global] Instance Sample_laws : FactoryLaws Sample.factory.
Proof.
  split.
  - intros kind h a e. simpl. unfold Sample.make.
    destruct (a !! "name") as [[n|n]|]; try discriminate.
    intros [= <-]. unfold Sample.handle_of. simpl. apply N2Z.id.
  - intros kind h a e. simpl. unfold Sample.make.
    destruct (a !! "name") as [[n|n]|] eqn:Ha; try discriminate.
    intros [= <-]. eexists. split; [reflexivity|]. split.
    + unfold Sample.handle_of. simpl. apply N2Z.id.
    + intros n' [= ->]. reflexivity.
Qed.

Lemma get_first_match_witness :
  Table_get "1" Sample.world2
    = (Sample.world2, inr (Sample.layer 2 "1" : @Entry Sample.factory)) /\
  Table_get "9" Sample.world2 = (Sample.world2, inl (ValueError "9")).
Proof.
  split.
  - apply (get_first_match Sample.world2 "1"). split; [reflexivity|].
    exists [1%N], 2%N, []. split; [reflexivity|]. split.
    + apply no_member_namedb_correct. vm_compute. reflexivity.
    + split; vm_compute; reflexivity.
  - apply (get_first_match Sample.world2 "9").
    apply no_member_namedb_correct. vm_compute. reflexivity.
Defined.

(* ================================================================= *)
(** ** Creating entries *)

Section Create.

Context {F : EntityFactory}.

Lemma same_table_refl w : same_table w w.
Proof. repeat split. Qed.

Lemma same_table_trans w1 w2 w3 :
  same_table w1 w2 -> same_table w2 w3 -> same_table w1 w3.
Proof.
  intros (? & ? & ? & ? & ?) (? & ? & ? & ? & ?).
  repeat split; congruence.
Qed.

Lemma same_table_entry_of w w' h :
  same_table w w' -> entry_of w' h = entry_of w h.
Proof. intros (_ & Hdb & _). apply entry_of_ext. by rewrite Hdb. Qed.

Lemma same_table_names w w' : same_table w w' -> names w' = names w.
Proof.
  intros Hs. unfold names. destruct Hs as (Hm & Hdb & Hrest). rewrite Hm.
  apply list_omap_ext. apply Forall2_same_length_lookup_2; [reflexivity|].
  intros i h h' Hh Hh'. assert (h = h') as -> by congruence.
  f_equal. apply entry_of_ext. by rewrite Hdb.
Qed.

Lemma same_table_coherent w w' : same_table w w' -> coherent w -> coherent w'.
Proof.
  intros Hs [Hnd Hc]. pose proof Hs as (Hm & _). split.
  - by rewrite Hm.
  - intros h Hin. rewrite Hm in Hin. destruct (Hc h Hin) as (e & He & Hh).
    exists e. split; [|assumption]. by rewrite (same_table_entry_of w w').
Qed.

Lemma same_table_live w w' : same_table w w' -> live w -> live w'.
Proof.
  intros (Hm & Hdb & _) Hl h Hin. rewrite Hm in Hin. rewrite Hdb. by apply Hl.
Qed.

Lemma same_table_no_member name w w' hs :
  same_table w w' -> no_member_named name w hs -> no_member_named name w' hs.
Proof.
  intros (_ & Hdb & _). apply no_member_named_ext. intros h _. by rewrite Hdb.
Qed.

(** [new_entry], step by step. *)
Lemma new_entry_run r w :
  let g := handles (_drawing (self w)) in
  exists w',
    match new_entity (_dxfname (self w)) g (default ∅ (dicts w !! r)) with
    | inl x => new_entry r w = (w', inl x) /\ same_table w w'
    | inr e =>
        new_entry r w = (w', inr e) /\ appended (entry_handle e) e w w'
    end /\
    handles (_drawing (self w')) = N.succ g /\
    dicts w' = dicts w /\ stream w' = stream w.
Proof.
  intros g. unfold new_entry, _add_entry, dict_read. unfold_monad. simpl.
  fold g.
  destruct (new_entity (_dxfname (self w)) g (default ∅ (dicts w !! r)))
    as [x|e]; simpl;
    (eexists; split; [split; [reflexivity|]|]; repeat split).
Qed.

(** Where [create] hands over to [new_entry]: the dictionary [r] carries
    the name, the table is untouched so far. *)
Lemma create_delegates name attribs w :
  exists r w0,
    ViewportTable_create name attribs w = new_entry r w0 /\
    (entry_exists name w = (w, inr false) ->
     Table_create name attribs w = new_entry r w0) /\
    same_table w w0 /\
    handles (_drawing (self w0)) = handles (_drawing (self w)) /\
    stream w0 = stream w /\
    default ∅ (dicts w0 !! r) = create_attribs name attribs w /\
    (forall r', attribs = Some r' -> r = r' /\ w0 = with_name r name w).
Proof.
  destruct attribs as [r|].
  - exists r, (with_name r name w).
    split; [reflexivity|]. split.
    { unfold Table_create, Table_contains. unfold_monad.
      intros ->. reflexivity. }
    split; [repeat split|]. split; [reflexivity|]. split; [reflexivity|].
    split.
    + unfold with_name, create_attribs. simpl.
      by rewrite lookup_insert_eq.
    + intros r' [= <-]. split; reflexivity.
  - set (r := fresh (dom (dicts w))).
    exists r, (with_name r name (set_dicts (<[r := ∅]> (dicts w)) w)).
    split; [reflexivity|]. split.
    { unfold Table_create, Table_contains. unfold_monad.
      intros ->. reflexivity. }
    split; [repeat split|]. split; [reflexivity|]. split; [reflexivity|].
    split.
    + unfold with_name, create_attribs. simpl.
      by rewrite !lookup_insert_eq.
    + discriminate.
Qed.

(** A duplicate is turned down before anything is touched. *)
Lemma create_duplicate name attribs w :
  entry_exists name w = (w, inr true) ->
  Table_create name attribs w =
    (w, inl (ValueError (value_str (_dxfname (self w)) +:+ " " +:+ name
                         +:+ " already exists!"))).
Proof.
  intros Hex. unfold Table_create, Table_contains. unfold_monad.
  rewrite Hex. reflexivity.
Qed.

Lemma coherent_entry_exists name w :
  coherent w ->
  (name ∈ names w /\ entry_exists name w = (w, inr true)) \/
  (no_member_named name w (members w) /\
   entry_exists name w = (w, inr false)).
Proof.
  intros Hc.
  destruct (first_named name w (members w) (coherent_resolves w Hc))
    as [Hno|(pre & h & post & e & Hm & Hno & He & Hname)].
  - right. split; [assumption|]. by apply entry_exists_false.
  - left. split.
    + apply names_elem. exists h, e. repeat split; try assumption.
      rewrite Hm. apply elem_of_app. right. left.
    + by eapply entry_exists_true.
Qed.

Lemma unissued_not_member w :
  unissued w -> handles (_drawing (self w)) ∉ members w.
Proof. intros Hu Hin. specialize (Hu _ Hin). lia. Qed.

(** Adding a record under a handle the table does not have yet. *)
Lemma appended_entry_of_old h e w w' h' :
  appended h e w w' -> h' <> h -> entry_of w' h' = entry_of w h'.
Proof.
  intros (_ & Hdb & _) Hne. apply entry_of_ext. rewrite Hdb.
  by rewrite lookup_insert_ne.
Qed.

Lemma appended_entry_of_new h e w w' e' :
  appended h e w w' -> wrap_entity (entry_tags e) = inr e' ->
  entry_of w' h = Some e'.
Proof.
  intros (_ & Hdb & _) Hw. unfold entry_of. rewrite Hdb, lookup_insert_eq.
  by rewrite Hw.
Qed.

Lemma appended_names h e w w' e' :
  appended h e w w' -> h ∉ members w ->
  wrap_entity (entry_tags e) = inr e' ->
  names w' = names w ++ [entry_name e'].
Proof.
  intros Ha Hfresh Hw. pose proof Ha as (Hm & _). unfold names. rewrite Hm.
  rewrite omap_app. simpl.
  rewrite (appended_entry_of_new _ _ _ _ _ Ha Hw). simpl. f_equal.
  apply list_omap_ext. apply Forall2_same_length_lookup_2; [reflexivity|].
  intros i x y Hx Hy. assert (x = y) as -> by congruence. f_equal.
  eapply appended_entry_of_old; [exact Ha|].
  intros ->. apply Hfresh. by eapply list_elem_of_lookup_2.
Qed.

Lemma appended_coherent h e w w' e' :
  appended h e w w' -> h ∉ members w ->
  wrap_entity (entry_tags e) = inr e' -> entry_handle e' = h ->
  coherent w -> coherent w'.
Proof.
  intros Ha Hfresh Hw Hh [Hnd Hc]. pose proof Ha as (Hm & _). split.
  - rewrite Hm. apply NoDup_app. split; [assumption|]. split.
    + intros x Hx Hx'. apply list_elem_of_singleton in Hx' as ->. auto.
    + apply NoDup_singleton.
  - intros x Hin. rewrite Hm in Hin. apply elem_of_app in Hin as [Hin|Hin].
    + destruct (Hc x Hin) as (ex & Hex & Hhx). exists ex. split; [|assumption].
      rewrite <- Hex. eapply appended_entry_of_old; [exact Ha|].
      intros ->. auto.
    + apply list_elem_of_singleton in Hin as ->. exists e'. split; [|assumption].
      by eapply appended_entry_of_new.
Qed.

Lemma appended_no_member name h e w w' hs :
  appended h e w w' -> h ∉ hs ->
  no_member_named name w hs -> no_member_named name w' hs.
Proof.
  intros (_ & Hdb & _) Hfresh. apply no_member_named_ext.
  intros x Hin. rewrite Hdb. rewrite lookup_insert_ne; [reflexivity|].
  intros ->. auto.
Qed.

Lemma appended_live h e w w' : appended h e w w' -> live w -> live w'.
Proof.
  intros (Hm & Hdb & _) Hl x Hin. rewrite Hm in Hin. rewrite Hdb.
  destruct (decide (h = x)) as [->|Hne].
  - rewrite lookup_insert_eq. eauto.
  - rewrite lookup_insert_ne by assumption. apply Hl.
    apply elem_of_app in Hin as [Hin|Hin]; [assumption|].
    apply list_elem_of_singleton in Hin. congruence.
Qed.

End Create.

Section Decide.

Context {F : EntityFactory}.

Lemma unissued_decide w :
  bool_decide (Forall (fun h => (h < handles (_drawing (self w)))%N)
                 (members w)) = true ->
  unissued w.
Proof.
  intros Hd. apply bool_decide_eq_true in Hd.
  intros h Hin. by eapply Forall_forall in Hd.
Qed.

Lemma coherent_names_length w :
  coherent w -> length (names w) = length (members w).
Proof.
  intros Hc. pose proof (coherent_resolves w Hc) as Hres.
  unfold names. induction (members w) as [|h hs IH]; [reflexivity|].
  simpl. destruct (Hres h) as (e & He); [left|]. rewrite He. simpl.
  f_equal. apply IH. intros h' Hin. apply Hres. by right.
Qed.

Lemma create_attribs_name name attribs w :
  create_attribs name attribs w !! "name" = Some (VStr name).
Proof. unfold create_attribs. apply lookup_insert_eq. Qed.

(** One call of [create], whatever its outcome, keeps a sound table with
    unique names sound and its names unique. *)
Lemma create_preserves {L : FactoryLaws F} name attribs w :
  coherent w -> unissued w -> NoDup (names w) ->
  let w' := fst (Table_create name attribs w) in
  coherent w' /\ unissued w' /\ NoDup (names w').
Proof.
  intros Hc Hu Hn.
  destruct (coherent_entry_exists name w Hc) as [[_ Hex]|[Hno Hex]].
  - rewrite (create_duplicate _ attribs _ Hex). simpl. auto.
  - destruct (create_delegates name attribs w)
      as (r & w0 & _ & Hrun & Hs & Hh & _ & Ha & _).
    rewrite (Hrun Hex).
    destruct (new_entry_run r w0) as (w' & Hnew & Hh' & _).
    pose proof Hs as (Hm0 & _).
    assert (Hu0 : forall h, h ∈ members w0 ->
                            (h < handles (_drawing (self w0)))%N).
    { intros h Hin. rewrite Hm0 in Hin. rewrite Hh. by apply Hu. }
    destruct (new_entity (_dxfname (self w0)) (handles (_drawing (self w0)))
                (default ∅ (dicts w0 !! r))) as [x|e] eqn:Hne.
    + destruct Hnew as [-> Hs']. simpl.
      pose proof (same_table_trans _ _ _ Hs Hs') as Hs2. split; [|split].
      * by eapply same_table_coherent.
      * intros h Hin. destruct Hs' as (Hm' & _). rewrite Hm' in Hin.
        rewrite Hh'. specialize (Hu0 h Hin). lia.
      * by rewrite (same_table_names _ _ Hs2).
    + destruct Hnew as [-> Happ]. simpl.
      pose proof (new_entity_handle _ _ _ _ Hne) as Hhe.
      destruct (new_entity_wrap _ _ _ _ Hne) as (e' & Hw & Hhe' & Hname).
      rewrite Hhe in Happ.
      assert (Hfresh : handles (_drawing (self w0)) ∉ members w0).
      { intros Hin. specialize (Hu0 _ Hin). lia. }
      assert (entry_name e' = name) as Hn'.
      { apply Hname. rewrite Ha. apply create_attribs_name. }
      split; [|split].
      * eapply appended_coherent; eauto. by eapply same_table_coherent.
      * intros h Hin. destruct Happ as (Hm' & _). rewrite Hm' in Hin.
        rewrite Hh'. apply elem_of_app in Hin as [Hin|Hin].
        -- specialize (Hu0 h Hin). lia.
        -- apply list_elem_of_singleton in Hin as ->. lia.
      * rewrite (appended_names _ _ _ _ _ Happ Hfresh Hw), Hn'.
        rewrite (same_table_names _ _ Hs).
        apply NoDup_app. split; [assumption|]. split.
        -- intros x Hx Hx'. apply list_elem_of_singleton in Hx' as ->.
           by apply (no_member_named_names _ _ Hno).
        -- apply NoDup_singleton.
Qed.

End Decide.

(** C1. On a standard table [create] keeps the names unique.  Take a table
    whose members resolve to entries under their own, distinct handles.
    Then a [create] with the name of a member fails with the ValueError of
    the duplicate check, and the state (members, entity database, header,
    dictionaries) is the one before the call.  If moreover the names of
    the members are distinct, the generator has not issued their handles
    and the factory makes what it is asked for, then after any sequence of
    [create] calls every member still has a name and no two members share
    one. *)
Theorem create_keeps_names_unique {F : EntityFactory} {L : FactoryLaws F}
    (w : World) :
  coherent w ->
  (forall name attribs,
     name ∈ names w ->
     Table_create name attribs w =
       (w, inl (ValueError (value_str (_dxfname (self w)) +:+ " " +:+ name
                            +:+ " already exists!")))) /\
  (unissued w -> NoDup (names w) ->
   forall calls,
     let w' := run_creates calls w in
     length (names w') = length (members w') /\ NoDup (names w')).
Proof.
  intros Hc. split.
  - intros name attribs Hin.
    destruct (coherent_entry_exists name w Hc) as [[_ Hex]|[Hno _]].
    + by apply create_duplicate.
    + by apply no_member_named_names in Hno.
  - intros Hu Hn calls.
    assert (Hall : coherent (run_creates calls w) /\
                   unissued (run_creates calls w) /\
                   NoDup (names (run_creates calls w))).
    { revert w Hc Hu Hn. induction calls as [|[name attribs] calls IH];
        intros w Hc Hu Hn; simpl; [auto|].
      destruct (create_preserves name attribs w Hc Hu Hn) as (? & ? & ?).
      by apply IH. }
    destruct Hall as (Hc' & _ & Hn'). split; [|assumption].
    by apply coherent_names_length.
Qed.

Lemma create_keeps_names_unique_witness :
  Table_create "0" None Sample.world2 =
    (Sample.world2, inl (ValueError "LAYER 0 already exists!")) /\
  NoDup (names (run_creates [("0", None); ("2", Some 1%positive); ("2", None)]
                  Sample.world2)).
Proof.
  assert (Hc : coherent Sample.world2).
  { apply coherentb_correct; vm_compute; reflexivity. }
  assert (Hu : unissued Sample.world2).
  { apply unissued_decide. vm_compute. reflexivity. }
  assert (Hn : NoDup (names Sample.world2)).
  { apply (bool_decide_unpack _). vm_compute. exact I. }
  destruct (create_keeps_names_unique Sample.world2 Hc) as [Hdup Hseq].
  split.
  - apply (Hdup "0" None). apply (bool_decide_unpack _). vm_compute. exact I.
  - apply (Hseq Hu Hn [("0", None); ("2", Some 1%positive); ("2", None)]).
Defined.

(** C6. On a viewport table [create] does not look at the names: the
    call returns just what the factory returns for the attributes with the
    name set, whether or not a member of that name exists.  So it succeeds
    whenever the factory accepts the attributes, and each successful call
    makes [count()] grow by exactly one. *)
Theorem viewport_create_succeeds {F : EntityFactory} (w : World)
    (name : string) (attribs : option Ref) :
  let outcome :=
    new_entity (_dxfname (self w)) (handles (_drawing (self w)))
               (create_attribs name attribs w) in
  exists w',
    ViewportTable_create name attribs w = (w', outcome) /\
    forall e, outcome = inr e ->
              snd (Table_len w') = inr (S (length (members w))).
Proof.
  intros outcome.
  destruct (create_delegates name attribs w)
    as (r & w0 & Hrun & _ & Hs & Hh & _ & Ha & _).
  destruct (new_entry_run r w0) as (w' & Hnew & _).
  destruct Hs as (Hm & _ & Hk & _).
  rewrite Hk, Hh, Ha in Hnew. fold outcome in Hnew.
  exists w'. destruct outcome as [x|e0].
  - destruct Hnew as [Hnew _]. split; [by rewrite Hrun|]. discriminate.
  - destruct Hnew as [Hnew Happ]. split; [by rewrite Hrun|].
    intros e _. destruct Happ as (Hm' & _). unfold Table_len, gets. simpl.
    rewrite Hm', length_app, Hm. simpl. f_equal. lia.
Qed.

Lemma viewport_create_succeeds_witness :
  "*ACTIVE" ∈ names Sample.world_vports /\
  exists w',
    ViewportTable_create "*ACTIVE" None Sample.world_vports
      = (w', inr (Sample.record "VPORT" 3 "*ACTIVE" : @Entry Sample.factory)) /\
    snd (Table_len w') = inr 3%nat.
Proof.
  split.
  - apply (bool_decide_unpack _). vm_compute. exact I.
  - destruct (viewport_create_succeeds Sample.world_vports "*ACTIVE" None)
      as (w' & Hrun & Hlen).
    exists w'. split; [exact Hrun|].
    apply (Hlen (Sample.record "VPORT" 3 "*ACTIVE")). vm_compute. reflexivity.
Defined.

(** C10. [create] writes into the dictionary of the caller.  When the
    caller passes the dictionary [r], both [ViewportTable.create] and,
    once the duplicate check has passed, [Table.create] store the name
    under the key "name" in that very dictionary and then run [new_entry]
    on it; [new_entry] leaves the dictionaries alone, so the caller finds
    the name in its dictionary after the call. *)
Theorem create_mutates_attribs {F : EntityFactory} (w : World)
    (name : string) (r : Ref) (d : Attribs) :
  dicts w !! r = Some d ->
  let w0 := with_name r name w in
  dicts w0 !! r = Some (<["name" := VStr name]> d) /\
  ViewportTable_create name (Some r) w = new_entry r w0 /\
  (entry_exists name w = (w, inr false) ->
   Table_create name (Some r) w = new_entry r w0) /\
  dicts (fst (new_entry r w0)) !! r = Some (<["name" := VStr name]> d).
Proof.
  intros Hd w0.
  assert (Hd0 : dicts w0 !! r = Some (<["name" := VStr name]> d)).
  { unfold w0, with_name. simpl. by rewrite lookup_insert_eq, Hd. }
  destruct (create_delegates name (Some r) w)
    as (r' & w0' & Hv & Ht & _ & _ & _ & _ & Hr).
  destruct (Hr r eq_refl) as [-> ->].
  split; [assumption|]. split; [assumption|]. split; [assumption|].
  destruct (new_entry_run r w0) as (w' & Hnew & _ & Hdicts & _).
  destruct (new_entity _ _ _); destruct Hnew as [-> _]; simpl;
    by rewrite Hdicts.
Qed.

Lemma create_mutates_attribs_witness :
  dicts (fst (Table_create "2" (@Some Ref 1%positive) Sample.world2))
    !! 1%positive = Some (<["name" := VStr "2"]> ∅) /\
  dicts (fst (ViewportTable_create "0" (@Some Ref 1%positive) Sample.world2))
    !! 1%positive = Some (<["name" := VStr "0"]> ∅).
Proof.
  destruct (create_mutates_attribs Sample.world2 "2" 1%positive ∅)
    as (_ & _ & Ht & Hd); [vm_compute; reflexivity|].
  destruct (create_mutates_attribs Sample.world2 "0" 1%positive ∅)
    as (_ & Hv & _ & Hd'); [vm_compute; reflexivity|].
  split.
  - rewrite Ht; [exact Hd|]. vm_compute. reflexivity.
  - rewrite Hv. exact Hd'.
Defined.

(* ================================================================= *)
(** ** Removing entries *)

Section Remove.

Context {F : EntityFactory}.

Lemma list_remove_first_split x l l' :
  list_remove_first x l = Some l' ->
  exists pre post, l = pre ++ x :: post /\ l' = pre ++ post /\ x ∉ pre.
Proof.
  revert l'. induction l as [|y l IH]; intros l' Hr; simpl in Hr.
  - discriminate.
  - destruct (decide (y = x)) as [->|Hne].
    + injection Hr as <-. exists [], l. repeat split. apply not_elem_of_nil.
    + destruct (list_remove_first x l) as [r|]; [|discriminate].
      injection Hr as <-.
      destruct (IH r eq_refl) as (pre & post & -> & -> & Hnot).
      exists (y :: pre), post. repeat split.
      intros Hin. apply elem_of_cons in Hin as [->|Hin]; auto.
Qed.

Lemma list_remove_first_app x pre post :
  x ∉ pre -> list_remove_first x (pre ++ x :: post) = Some (pre ++ post).
Proof.
  induction pre as [|y pre IH]; intros Hnot; simpl.
  - by rewrite decide_True.
  - rewrite decide_False.
    + rewrite IH; [reflexivity|]. intros Hin. apply Hnot. by right.
    + intros ->. apply Hnot. left.
Qed.

Lemma list_remove_first_None x l :
  list_remove_first x l = None -> x ∉ l.
Proof.
  induction l as [|y l IH]; simpl; intros Hr.
  - apply not_elem_of_nil.
  - destruct (decide (y = x)) as [->|Hne]; [discriminate|].
    destruct (list_remove_first x l); [discriminate|].
    intros Hin. apply elem_of_cons in Hin as [->|Hin]; [done|]. by apply IH.
Qed.

(** [remove_entry], step by step. *)
Lemma remove_entry_not_found name w x :
  get_entry name w = (w, inl x) -> remove_entry name w = (w, inl x).
Proof. intros Hg. unfold remove_entry. unfold_monad. by rewrite Hg. Qed.

Lemma remove_entry_found name w e :
  get_entry name w = (w, inr e) ->
  remove_entry name w =
    match list_remove_first (entry_handle e) (members w) with
    | None => (w, inl (ValueError "list.remove(x): x not in list"))
    | Some l' =>
        match db_of w !! entry_handle e with
        | None => (set_table_entries l' w,
                   inl (KeyError (pretty (entry_handle e))))
        | Some _ =>
            (set_entitydb (delete (entry_handle e) (db_of w))
               (set_table_entries l' w), inr tt)
        end
    end.
Proof.
  intros Hg. unfold remove_entry. unfold_monad. rewrite Hg.
  destruct (list_remove_first (entry_handle e) (members w)) as [l'|];
    [|reflexivity].
  simpl. change (db_of (set_table_entries l' w)) with (db_of w).
  destruct (db_of w !! entry_handle e); reflexivity.
Qed.

Lemma get_entry_frame name w : exists r, get_entry name w = (w, r).
Proof.
  rewrite get_entry_unfold.
  pose proof (get_entry_loop_frame name (members w) w) as Hf.
  destruct (get_entry_loop name (members w) w) as [w1 r]. simpl in Hf.
  subst. eauto.
Qed.

(** Whatever [remove_entry] does, a table with distinct handles stays
    live. *)
Lemma remove_entry_live name w :
  live w -> distinct_handles w -> live (fst (remove_entry name w)).
Proof.
  intros Hl Hnd. destruct (get_entry_frame name w) as [[x|e] Hg].
  - by rewrite (remove_entry_not_found _ _ _ Hg).
  - rewrite (remove_entry_found _ _ _ Hg).
    destruct (list_remove_first (entry_handle e) (members w)) as [l'|] eqn:Hr;
      [|assumption].
    apply list_remove_first_split in Hr as (pre & post & Hm & -> & Hpre).
    unfold distinct_handles in Hnd. rewrite Hm in Hnd.
    apply NoDup_app in Hnd as (_ & Hdisj & Hnd).
    apply NoDup_cons in Hnd as [Hpost _].
    assert (Hsub : forall h, h ∈ pre ++ post ->
                             h ∈ members w /\ h <> entry_handle e).
    { intros h Hin. rewrite Hm. apply elem_of_app in Hin as [Hin|Hin].
      - split; [apply elem_of_app; by left|]. intros ->. auto.
      - split; [apply elem_of_app; right; by right|]. intros ->. auto. }
    destruct (db_of w !! entry_handle e); simpl.
    + intros h Hin. destruct (Hsub h Hin) as [Hin' Hne].
      change (is_Some (delete (entry_handle e) (db_of w) !! h)).
      rewrite lookup_delete_ne by congruence. by apply Hl.
    + intros h Hin. destruct (Hsub h Hin) as [Hin' _]. by apply Hl.
Qed.

End Remove.

Section RemoveFirst.

Context {F : EntityFactory}.

(** Removing by name takes out the first member of that name and nothing
    else. *)
Lemma remove_entry_first name w pre h post e :
  coherent w ->
  members w = pre ++ h :: post -> no_member_named name w pre ->
  entry_of w h = Some e -> entry_name e = name ->
  exists w',
    remove_entry name w = (w', inr tt) /\
    members w' = pre ++ post /\
    db_of w' = delete h (db_of w) /\
    forall h', h' ∈ pre ++ post ->
      h' ∈ members w' /\ entry_of w' h' = entry_of w h'.
Proof.
  intros [Hnd Hc] Hm Hno He Hname.
  assert (Hin : h ∈ members w).
  { rewrite Hm. apply elem_of_app. right. left. }
  destruct (Hc h Hin) as (e0 & He0 & Hh). rewrite He in He0.
  injection He0 as <-.
  assert (Hg : get_entry name w = (w, inr e)).
  { rewrite get_entry_unfold, Hm. by apply get_entry_loop_found. }
  rewrite Hm in Hnd. apply NoDup_app in Hnd as (_ & Hdisj & Hnd).
  apply NoDup_cons in Hnd as [Hpost _].
  assert (Hpre : h ∉ pre).
  { intros Hp. apply (Hdisj h Hp). left. }
  rewrite (remove_entry_found _ _ _ Hg), Hh, Hm.
  rewrite (list_remove_first_app _ _ _ Hpre).
  unfold entry_of in He.
  destruct (db_of w !! h) as [tags|] eqn:Hdb; [|discriminate].
  eexists. split; [reflexivity|]. split; [reflexivity|].
  split; [reflexivity|].
  intros h' Hin'. split; [exact Hin'|].
  apply entry_of_ext.
  change (delete h (db_of w) !! h' = db_of w !! h').
  apply lookup_delete_ne. intros ->.
  apply elem_of_app in Hin' as [Hin'|Hin']; auto.
Qed.

End RemoveFirst.

(** C9. Removal by name removes the first match only.  In a table whose
    members resolve under their own, distinct handles, let [h] be the
    first member called [name]: the members are [pre ++ h :: post] and
    nobody in [pre] has that name.  Then [remove(name)] succeeds, the
    members become [pre ++ post], the record of [h] leaves the entity
    database, [count()] drops by one, and every other member, those of
    the same name further down included, is still a member with the
    entry it had. *)
Theorem remove_first_match_only {F : EntityFactory} (w : World)
    (name : string) (pre : list Handle) (h : Handle) (post : list Handle)
    (e : Entry) :
  coherent w ->
  members w = pre ++ h :: post -> no_member_named name w pre ->
  entry_of w h = Some e -> entry_name e = name ->
  exists w',
    Table_remove name w = (w', inr tt) /\
    members w' = pre ++ post /\
    db_of w' = delete h (db_of w) /\
    snd (Table_len w) = inr (S (length (members w'))) /\
    forall h', h' ∈ pre ++ post ->
      h' ∈ members w' /\ entry_of w' h' = entry_of w h'.
Proof.
  intros Hc Hm Hno He Hname.
  destruct (remove_entry_first name w pre h post e Hc Hm Hno He Hname)
    as (w' & Hrun & Hm' & Hdb & Hrest).
  exists w'. repeat split; try assumption.
  - unfold Table_len, gets. simpl. f_equal.
    rewrite Hm, Hm', !length_app. simpl. lia.
  - by apply Hrest.
  - by apply Hrest.
Qed.

Lemma remove_first_match_only_witness :
  names Sample.world_vports = ["*ACTIVE"; "*ACTIVE"] /\
  exists w',
    Table_remove "*ACTIVE" Sample.world_vports = (w', inr tt) /\
    members w' = [2%N] /\
    names w' = ["*ACTIVE"].
Proof.
  split; [vm_compute; reflexivity|].
  destruct (remove_first_match_only (F := Sample.factory)
              Sample.world_vports "*ACTIVE"
              [] 1%N [2%N] (Sample.record "VPORT" 1 "*ACTIVE"))
    as (w' & Hrun & Hm & Hdb & _ & Hrest).
  - apply coherentb_correct; vm_compute; reflexivity.
  - reflexivity.
  - apply no_member_namedb_correct. vm_compute. reflexivity.
  - vm_compute. reflexivity.
  - vm_compute. reflexivity.
  - exists w'. split; [exact Hrun|]. split; [exact Hm|].
    unfold names. rewrite Hm. simpl.
    destruct (Hrest 2%N) as [_ ->]; [left|]. vm_compute. reflexivity.
Defined.

Section CreateRemove.

Context {F : EntityFactory} {L : FactoryLaws F}.

(** An entry added by [new_entry] under a name nobody had is the one
    [remove_entry] takes out again. *)
Lemma new_entry_then_remove name w r w0 w1 e :
  coherent w -> unissued w -> no_member_named name w (members w) ->
  same_table w w0 ->
  handles (_drawing (self w0)) = handles (_drawing (self w)) ->
  default ∅ (dicts w0 !! r) !! "name" = Some (VStr name) ->
  new_entry r w0 = (w1, inr e) ->
  exists w2,
    remove_entry name w1 = (w2, inr tt) /\
    members w2 = members w /\
    entry_exists name w2 = (w2, inr false).
Proof.
  intros Hc Hu Hno Hs Hh Ha Hrun.
  destruct (new_entry_run r w0) as (w' & Hnew & _).
  destruct (new_entity (_dxfname (self w0)) (handles (_drawing (self w0)))
              (default ∅ (dicts w0 !! r))) as [x|e0] eqn:Hne;
    destruct Hnew as [Hnew Happ]; rewrite Hnew in Hrun;
    [discriminate|].
  injection Hrun as -> ->.
  pose proof (new_entity_handle _ _ _ _ Hne) as Hhe.
  destruct (new_entity_wrap _ _ _ _ Hne) as (e' & Hw & Hhe' & Hname).
  rewrite Hhe in Happ.
  set (g := handles (_drawing (self w0))) in *.
  pose proof Hs as (Hm0 & _).
  assert (Hfresh : g ∉ members w0).
  { intros Hin. rewrite Hm0 in Hin. specialize (Hu _ Hin).
    rewrite <- Hh in Hu. lia. }
  assert (Hn' : entry_name e' = name) by by apply Hname.
  assert (Hc1 : coherent w1).
  { eapply appended_coherent; eauto. by eapply same_table_coherent. }
  assert (Hno1 : no_member_named name w1 (members w0)).
  { eapply appended_no_member; eauto. rewrite Hm0.
    by eapply same_table_no_member. }
  pose proof Happ as (Hm1 & _).
  destruct (remove_entry_first name w1 (members w0) g [] e' Hc1 Hm1 Hno1)
    as (w2 & Hrem & Hm2 & _ & Hrest).
  { by eapply appended_entry_of_new. }
  { exact Hn'. }
  rewrite app_nil_r in Hm2, Hrest.
  exists w2. split; [exact Hrem|]. split; [by rewrite Hm2|].
  apply entry_exists_false. rewrite Hm2. intros h Hin.
  destruct (Hno1 h Hin) as (eh & Heh & Hneq). exists eh.
  split; [|assumption]. destruct (Hrest h Hin) as [_ ->]. exact Heh.
Qed.

End CreateRemove.

(** C7, the claim as it is made fails on a viewport table that already
    has a member of the name: the [create] succeeds, the [remove] takes
    out the older member, and the name is still there. *)
Lemma viewport_create_then_remove_keeps_name :
  coherent Sample.world_vports /\ unissued Sample.world_vports /\
  exists w1 e w2,
    ViewportTable_create "*ACTIVE" None Sample.world_vports = (w1, inr e) /\
    Table_remove "*ACTIVE" w1 = (w2, inr tt) /\
    snd (Table_len w2) = snd (Table_len Sample.world_vports) /\
    Table_contains "*ACTIVE" w2 = (w2, inr true) /\
    Table_contains "*ACTIVE" w2 <> (w2, inr false).
Proof.
  split; [apply coherentb_correct; vm_compute; reflexivity|].
  split; [apply unissued_decide; vm_compute; reflexivity|].
  eexists. eexists. eexists.
  split; [vm_compute; reflexivity|].
  split; [vm_compute; reflexivity|].
  split; [vm_compute; reflexivity|].
  split; [vm_compute; reflexivity|].
  vm_compute. discriminate.
Qed.

(** C7, amended.  A [create] that succeeds and the [remove] of the same
    name right after it cancel out, on a standard table and on a viewport
    table in which no member had the name before: the [remove] succeeds,
    [count()] is what it was before the [create], and [contains(name)] is
    false.  The table is one whose members resolve under their own,
    distinct handles, the generator has not issued these handles, and the
    factory makes what it is asked for. *)
Theorem create_then_remove {F : EntityFactory} {L : FactoryLaws F}
    (w w1 : World) (name : string) (attribs : option Ref) (e : Entry) :
  coherent w -> unissued w ->
  Table_create name attribs w = (w1, inr e) \/
  ((name ∉ names w) /\ ViewportTable_create name attribs w = (w1, inr e)) ->
  exists w2,
    Table_remove name w1 = (w2, inr tt) /\
    snd (Table_len w2) = snd (Table_len w) /\
    Table_contains name w2 = (w2, inr false).
Proof.
  intros Hc Hu Hcreate.
  destruct (create_delegates name attribs w)
    as (r & w0 & Hvrun & Hrun & Hs & Hh & _ & Ha & _).
  assert (Hname : default ∅ (dicts w0 !! r) !! "name" = Some (VStr name)).
  { rewrite Ha. apply create_attribs_name. }
  assert (Hnew : no_member_named name w (members w) /\
                 new_entry r w0 = (w1, inr e)).
  { destruct (coherent_entry_exists name w Hc) as [[Hin Hex]|[Hno Hex]].
    - destruct Hcreate as [Hcreate|[Hnot _]]; [|contradiction].
      rewrite (create_duplicate _ attribs _ Hex) in Hcreate. discriminate.
    - split; [exact Hno|].
      destruct Hcreate as [Hcreate|[_ Hcreate]].
      + by rewrite <- (Hrun Hex).
      + by rewrite <- Hvrun. }
  destruct Hnew as [Hno Hnew].
  destruct (new_entry_then_remove name w r w0 w1 e Hc Hu Hno Hs Hh Hname Hnew)
    as (w2 & Hrem & Hm2 & Hex2).
  exists w2. split; [exact Hrem|]. split; [|exact Hex2].
  unfold Table_len, gets. simpl. by rewrite Hm2.
Qed.

Lemma create_then_remove_witness :
  exists w1 w2,
    Table_create "2" None Sample.world2
      = (w1, inr (Sample.layer 3 "2" : @Entry Sample.factory)) /\
    Table_remove "2" w1 = (w2, inr tt) /\
    snd (Table_len w2) = inr 2%nat /\
    Table_contains "2" w2 = (w2, inr false).
Proof.
  exists (fst (Table_create "2" None Sample.world2)).
  destruct (create_then_remove (F := Sample.factory) Sample.world2
              (fst (Table_create "2" None Sample.world2)) "2" None
              (Sample.layer 3 "2"))
    as (w2 & Hrem & Hlen & Hcont).
  - apply coherentb_correct; vm_compute; reflexivity.
  - apply unissued_decide. vm_compute. reflexivity.
  - left. vm_compute. reflexivity.
  - exists w2. split; [vm_compute; reflexivity|]. split; [exact Hrem|].
    split; [exact Hlen|exact Hcont].
Defined.

(* ================================================================= *)
(** ** The members and the entity database *)

Section Live.

Context {F : EntityFactory}.

Lemma entry_exists_frame name w : exists r, entry_exists name w = (w, r).
Proof.
  unfold entry_exists. destruct (get_entry_frame name w) as [[x|e] ->].
  - destruct (is_ValueError x); eauto.
  - eauto.
Qed.

(** [Table.create] either stops at the duplicate check with the state as
    it was, or goes on as [new_entry] on a state with the same table. *)
Lemma create_cases name attribs w :
  fst (Table_create name attribs w) = w \/
  exists r w0,
    same_table w w0 /\
    handles (_drawing (self w0)) = handles (_drawing (self w)) /\
    Table_create name attribs w = new_entry r w0.
Proof.
  destruct (entry_exists_frame name w) as [[x|[|]] Hex].
  - left. unfold Table_create, Table_contains. unfold_monad.
    by rewrite Hex.
  - left. by rewrite (create_duplicate _ attribs _ Hex).
  - right. destruct (create_delegates name attribs w)
      as (r & w0 & _ & Hrun & Hs & Hh & _).
    exists r, w0. auto.
Qed.

Lemma viewport_create_cases name attribs w :
  exists r w0,
    same_table w w0 /\
    handles (_drawing (self w0)) = handles (_drawing (self w)) /\
    ViewportTable_create name attribs w = new_entry r w0.
Proof.
  destruct (create_delegates name attribs w)
    as (r & w0 & Hrun & _ & Hs & Hh & _).
  exists r, w0. auto.
Qed.

Lemma new_entry_live r w : live w -> live (fst (new_entry r w)).
Proof.
  intros Hl. destruct (new_entry_run r w) as (w' & Hnew & _).
  destruct (new_entity _ _ _); destruct Hnew as [-> Hrel]; simpl.
  - by eapply same_table_live.
  - by eapply appended_live.
Qed.

Lemma live_add w w' h tags :
  members w' = members w ++ [h] -> db_of w' = <[h := tags]> (db_of w) ->
  live w -> live w'.
Proof.
  intros Hm Hdb Hl x Hin. rewrite Hm in Hin. rewrite Hdb.
  destruct (decide (h = x)) as [->|Hne].
  - rewrite lookup_insert_eq. eauto.
  - rewrite lookup_insert_ne by assumption. apply Hl.
    apply elem_of_app in Hin as [Hin|Hin]; [assumption|].
    apply list_elem_of_singleton in Hin. congruence.
Qed.

Lemma _add_entry_live entry w : live w -> live (fst (_add_entry entry w)).
Proof.
  intros Hl. unfold _add_entry. unfold_monad. destruct entry as [tags|e].
  - simpl. destruct (gethandle tags (handles (_drawing (self w))))
      as [x|[[h tags'] g']]; simpl; [assumption|].
    eapply live_add; [| |exact Hl]; reflexivity.
  - simpl. eapply live_add; [| |exact Hl]; reflexivity.
Qed.

Lemma add_entries_live groups w : live w -> live (fst (add_entries groups w)).
Proof.
  revert w. induction groups as [|g groups IH]; intros w Hl; simpl.
  - assumption.
  - unfold_monad.
    pose proof (_add_entry_live (ArgTags (ExtendedTags_new g)) w Hl) as Hl1.
    destruct (_add_entry (ArgTags (ExtendedTags_new g)) w) as [w1 [x|u]];
      simpl in Hl1; [assumption|]. by apply IH.
Qed.

Lemma build_live tags w :
  live w -> live (fst (_build_table_entries tags w)).
Proof.
  intros Hl. unfold _build_table_entries. unfold_monad.
  destruct (getname (TagGroups tags) 0) as [x|v1]; simpl; [assumption|].
  destruct (negb (bool_decide (v1 = VStr "TABLE"))); simpl; [assumption|].
  destruct (getname (TagGroups tags) (-1)) as [x|v2]; simpl; [assumption|].
  destruct (negb (bool_decide (v2 = VStr "ENDTAB"))); simpl; [assumption|].
  apply add_entries_live. exact Hl.
Qed.

Lemma init_live tags d d' t :
  Table_init tags d = (d', inr t) -> live_table t.
Proof.
  unfold Table_init. destruct (tags !! 1%nat) as [t1|]; [|discriminate].
  set (w0 := mkWorld (mkTable (value t1) d [] None) ∅ "").
  assert (Hl0 : live w0).
  { intros h Hin. inversion Hin. }
  pose proof (build_live tags w0 Hl0) as Hl.
  destruct (_build_table_entries tags w0) as [w [x|u]]; [discriminate|].
  intros [= _ <-]. exact Hl.
Qed.

(** The members a successful construction registers. *)
Lemma _add_entry_tags_run tags w w' :
  _add_entry (ArgTags tags) w = (w', inr tt) ->
  exists r,
    gethandle tags (handles (_drawing (self w))) = inr r /\
    members w' = members w ++ [fst (fst r)] /\
    handles (_drawing (self w')) = snd r.
Proof.
  unfold _add_entry. unfold_monad. simpl.
  destruct (gethandle tags (handles (_drawing (self w)))) as [x|r];
    simpl; [discriminate|].
  intros [= <-]. exists r. repeat split.
Qed.

Lemma add_entries_members groups w w' :
  add_entries groups w = (w', inr tt) ->
  members w'
  = members w ++ group_handles groups (handles (_drawing (self w))).
Proof.
  revert w. induction groups as [|g groups IH]; intros w; simpl.
  - intros [= <-]. by rewrite app_nil_r.
  - unfold_monad.
    destruct (_add_entry (ArgTags (ExtendedTags_new g)) w) as [w1 [x|[]]] eqn:Ha;
      [discriminate|].
    intros Hrest. apply _add_entry_tags_run in Ha as (r & Hg & Hm & Hh).
    apply IH in Hrest. rewrite Hrest, Hm, Hh, Hg.
    by rewrite <- app_assoc.
Qed.

Lemma init_members tags d d' t :
  Table_init tags d = (d', inr t) ->
  _table_entries t
  = group_handles (slice_1_to_last (TagGroups tags)) (handles d).
Proof.
  unfold Table_init. destruct (tags !! 1%nat) as [t1|]; [|discriminate].
  set (w0 := mkWorld (mkTable (value t1) d [] None) ∅ "").
  destruct (_build_table_entries tags w0) as [w [x|u]] eqn:Hb; [discriminate|].
  intros [= _ <-]. revert Hb. unfold _build_table_entries. unfold_monad.
  destruct (getname (TagGroups tags) 0) as [x|v1]; simpl; [discriminate|].
  destruct (negb (bool_decide (v1 = VStr "TABLE"))); simpl; [discriminate|].
  destruct (getname (TagGroups tags) (-1)) as [x|v2]; simpl; [discriminate|].
  destruct (negb (bool_decide (v2 = VStr "ENDTAB"))); simpl; [discriminate|].
  destruct u. intros Hadd. apply add_entries_members in Hadd.
  exact Hadd.
Qed.

(** Distinct handles, and a generator ahead of them. *)
Lemma same_table_distinct w w' :
  same_table w w' -> distinct_handles w -> distinct_handles w'.
Proof. intros (Hm & _). unfold distinct_handles. by rewrite Hm. Qed.

Lemma new_entry_distinct {L : FactoryLaws F} r w :
  distinct_handles w -> unissued w ->
  distinct_handles (fst (new_entry r w)) /\ unissued (fst (new_entry r w)).
Proof.
  intros Hnd Hu. destruct (new_entry_run r w) as (w' & Hnew & Hh' & _).
  destruct (new_entity _ _ _) as [x|e] eqn:Hne;
    destruct Hnew as [-> Hrel]; simpl.
  - split; [by eapply same_table_distinct|].
    intros h Hin. destruct Hrel as (Hm & _). rewrite Hm in Hin.
    rewrite Hh'. specialize (Hu h Hin). lia.
  - rewrite (new_entity_handle _ _ _ _ Hne) in Hrel.
    destruct Hrel as (Hm & _). unfold distinct_handles, unissued.
    rewrite Hm, Hh'. split.
    + apply NoDup_app. split; [assumption|]. split; [|apply NoDup_singleton].
      intros h Hin Hin'. apply list_elem_of_singleton in Hin' as ->.
      specialize (Hu _ Hin). lia.
    + intros h Hin. apply elem_of_app in Hin as [Hin|Hin].
      * specialize (Hu h Hin). lia.
      * apply list_elem_of_singleton in Hin as ->. lia.
Qed.

Lemma same_table_unissued w w' :
  same_table w w' ->
  handles (_drawing (self w')) = handles (_drawing (self w)) ->
  unissued w -> unissued w'.
Proof.
  intros (Hm & _) Hh Hu h Hin. rewrite Hm in Hin. rewrite Hh. by apply Hu.
Qed.

(** What a successful [remove_entry] does to the members and to the
    database. *)
Lemma remove_entry_effect name w w' :
  distinct_handles w -> remove_entry name w = (w', inr tt) ->
  exists h,
    list_remove_first h (members w) = Some (members w') /\
    (h ∉ members w') /\ db_of w' = delete h (db_of w).
Proof.
  intros Hnd Hrun. destruct (get_entry_frame name w) as [[x|e] Hg].
  - rewrite (remove_entry_not_found _ _ _ Hg) in Hrun. discriminate.
  - rewrite (remove_entry_found _ _ _ Hg) in Hrun.
    destruct (list_remove_first (entry_handle e) (members w)) as [l'|] eqn:Hr;
      [|discriminate].
    destruct (db_of w !! entry_handle e); [|discriminate].
    injection Hrun as <-. exists (entry_handle e).
    split; [exact Hr|]. split; [|reflexivity]. simpl.
    apply list_remove_first_split in Hr as (pre & post & Hm & -> & Hpre).
    unfold distinct_handles in Hnd. rewrite Hm in Hnd.
    apply NoDup_app in Hnd as (_ & _ & Hnd).
    apply NoDup_cons in Hnd as [Hpost _].
    intros Hin. apply elem_of_app in Hin as [Hin|Hin]; auto.
Qed.

(** The members after [remove_entry] are members from before, in the
    same order. *)
Lemma remove_entry_members name w :
  members (fst (remove_entry name w)) = members w \/
  exists pre h post,
    members w = pre ++ h :: post /\
    members (fst (remove_entry name w)) = pre ++ post.
Proof.
  destruct (get_entry_frame name w) as [[x|e] Hg].
  - left. by rewrite (remove_entry_not_found _ _ _ Hg).
  - rewrite (remove_entry_found _ _ _ Hg).
    destruct (list_remove_first (entry_handle e) (members w)) as [l'|] eqn:Hr;
      [|by left].
    apply list_remove_first_split in Hr as (pre & post & Hm & -> & Hpre).
    right. exists pre, (entry_handle e), post. split; [assumption|].
    destruct (db_of w !! entry_handle e); reflexivity.
Qed.

Lemma remove_entry_distinct name w :
  distinct_handles w -> distinct_handles (fst (remove_entry name w)).
Proof.
  intros Hnd. unfold distinct_handles in *.
  destruct (remove_entry_members name w) as [->|(pre & h & post & Hm & ->)];
    [assumption|].
  rewrite Hm in Hnd. apply NoDup_app in Hnd as (Hp & Hdisj & Hq).
  apply NoDup_cons in Hq as [_ Hq].
  apply NoDup_app. split; [assumption|]. split; [|assumption].
  intros x Hin Hin'. apply (Hdisj x Hin). by right.
Qed.

Lemma remove_entry_handles name w :
  handles (_drawing (self (fst (remove_entry name w))))
  = handles (_drawing (self w)).
Proof.
  destruct (get_entry_frame name w) as [[x|e] Hg].
  - by rewrite (remove_entry_not_found _ _ _ Hg).
  - rewrite (remove_entry_found _ _ _ Hg).
    destruct (list_remove_first (entry_handle e) (members w)) as [l'|];
      [|reflexivity].
    destruct (db_of w !! entry_handle e); reflexivity.
Qed.

Lemma remove_entry_unissued name w :
  unissued w -> unissued (fst (remove_entry name w)).
Proof.
  intros Hu h Hin. rewrite remove_entry_handles. apply Hu.
  destruct (remove_entry_members name w) as [Hm|(pre & x & post & Hm & Hm')].
  - by rewrite Hm in Hin.
  - rewrite Hm' in Hin. rewrite Hm.
    apply elem_of_app in Hin as [Hin|Hin];
      apply elem_of_app; [by left|right; by right].
Qed.

End Live.

(** C8, as the claim states it, fails: a table built from tags in which
    two entries carry the same handle lists that handle twice over one
    record.  [remove] of the entry then deletes the record and takes one
    listing out of the members; the other listing stays and has no record
    any more. *)
Lemma repeated_handle_loses_record :
  exists d t w',
    Table_init Cases.tags_repeated_handle (mkDrawing ∅ 1%N "AC1009")
    = (d, inr t) /\
    _table_entries t = [16%N; 16%N] /\
    live_table t /\
    Table_remove "1" (mkWorld t ∅ "") = (w', inr tt) /\
    members w' = [16%N] /\
    db_of w' !! 16%N = None /\
    ~ live w'.
Proof.
  eexists. eexists. eexists.
  split; [vm_compute; reflexivity|].
  split; [reflexivity|].
  split.
  { intros h Hin. apply elem_of_cons in Hin as [->|Hin].
    - vm_compute. eauto.
    - apply elem_of_cons in Hin as [->|Hin]; [vm_compute; eauto|].
      by apply elem_of_nil in Hin. }
  split; [vm_compute; reflexivity|].
  split; [reflexivity|].
  split; [reflexivity|].
  intros Hl. destruct (Hl 16%N) as [x Hx]; [by left|].
  vm_compute in Hx. discriminate.
Qed.

(** C8, amended.  Every handle among the members has a live record in
    the entity database, and the operations of the table keep it so as
    long as the handles of the members are pairwise distinct.  A table
    built from tags has a record for every member; its members are the
    handles the tag layer reads from the entry groups, in their order,
    so they are distinct when those are.  [create] (of either class) and
    [new_entry] keep every member live, whatever their outcome.
    [remove] keeps it on a table whose handles are pairwise distinct, and
    the handle it takes out of the members is in the same call deleted
    from the database and no longer a member.  Distinct handles are
    themselves kept by [remove] and, with a generator that has not issued
    them and a factory that uses the handle it is given, by [create] and
    [new_entry]. *)
Theorem members_stay_live {F : EntityFactory} {L : FactoryLaws F} :
  (forall tags d d' t,
     Table_init tags d = (d', inr t) ->
     live_table t /\
     _table_entries t
     = group_handles (slice_1_to_last (TagGroups tags)) (handles d)) /\
  (forall w name attribs r,
     live w ->
     live (fst (Table_create name attribs w)) /\
     live (fst (ViewportTable_create name attribs w)) /\
     live (fst (new_entry r w))) /\
  (forall w name,
     live w -> distinct_handles w ->
     live (fst (Table_remove name w)) /\
     distinct_handles (fst (Table_remove name w)) /\
     forall w',
       Table_remove name w = (w', inr tt) ->
       exists h,
         list_remove_first h (members w) = Some (members w') /\
         (h ∉ members w') /\ db_of w' = delete h (db_of w) /\
         db_of w' !! h = None) /\
  (forall w name attribs r,
     distinct_handles w -> unissued w ->
     (distinct_handles (fst (Table_create name attribs w)) /\
      unissued (fst (Table_create name attribs w))) /\
     (distinct_handles (fst (ViewportTable_create name attribs w)) /\
      unissued (fst (ViewportTable_create name attribs w))) /\
     (distinct_handles (fst (new_entry r w)) /\
      unissued (fst (new_entry r w))) /\
     unissued (fst (Table_remove name w))).
Proof.
  split; [|split; [|split]].
  - intros tags d d' t Hinit. split.
    + by eapply init_live.
    + by eapply init_members.
  - intros w name attribs r Hl. split; [|split].
    + destruct (create_cases name attribs w)
        as [->|(r0 & w0 & Hs & _ & ->)]; [assumption|].
      apply new_entry_live. by eapply same_table_live.
    + destruct (viewport_create_cases name attribs w)
        as (r0 & w0 & Hs & _ & ->).
      apply new_entry_live. by eapply same_table_live.
    + by apply new_entry_live.
  - intros w name Hl Hnd. unfold Table_remove. split; [|split].
    + by apply remove_entry_live.
    + by apply remove_entry_distinct.
    + intros w' Hrun.
      destruct (remove_entry_effect name w w' Hnd Hrun) as (h & Hr & Hn & Hdb).
      exists h. repeat split; try assumption.
      rewrite Hdb. apply lookup_delete_eq.
  - intros w name attribs r Hnd Hu. split; [|split; [|split]].
    + destruct (create_cases name attribs w)
        as [->|(r0 & w0 & Hs & Hh & ->)]; [by split|].
      apply new_entry_distinct.
      * by eapply same_table_distinct.
      * by eapply same_table_unissued.
    + destruct (viewport_create_cases name attribs w)
        as (r0 & w0 & Hs & Hh & ->).
      apply new_entry_distinct.
      * by eapply same_table_distinct.
      * by eapply same_table_unissued.
    + by apply new_entry_distinct.
    + by apply remove_entry_unissued.
Qed.

Lemma coherent_live {F : EntityFactory} (w : World) : coherent w -> live w.
Proof.
  intros Hc h Hin. destruct (coherent_resolves w Hc h Hin) as (e & He).
  unfold entry_of in He. destruct (db_of w !! h); [eauto|discriminate].
Qed.

Lemma members_stay_live_witness :
  (exists d' t,
     Table_init Sample.section_tags (mkDrawing ∅ 1%N "AC1009") = (d', inr t) /\
     live_table t /\ _table_entries t = [16%N] /\
     distinct_handles (mkWorld t ∅ "")) /\
  live (fst (Table_create "2" None Sample.world2)) /\
  (exists w',
     Table_remove "0" Sample.world2 = (w', inr tt) /\
     live w' /\ members w' = [2%N] /\ db_of w' !! 1%N = None).
Proof.
  destruct (members_stay_live (F := Sample.factory))
    as (Hinit & Hcreate & Hremove & _).
  assert (Hc : coherent Sample.world2).
  { apply coherentb_correct; vm_compute; reflexivity. }
  split; [|split].
  - eexists. eexists. split; [vm_compute; reflexivity|].
    edestruct (Hinit Sample.section_tags (mkDrawing ∅ 1%N "AC1009"))
      as [Hlive Hmem]; [vm_compute; reflexivity|].
    split; [exact Hlive|]. split; [reflexivity|].
    unfold distinct_handles, members. simpl self. rewrite Hmem.
    vm_compute. apply NoDup_singleton.
  - apply (Hcreate Sample.world2 "2" None 1%positive). by apply coherent_live.
  - destruct (Hremove Sample.world2 "0" (coherent_live _ Hc) (proj1 Hc))
      as (Hl & _ & _).
    exists (fst (Table_remove "0" Sample.world2)).
    split; [vm_compute; reflexivity|]. split; [exact Hl|].
    split; vm_compute; reflexivity.
Defined.

(* ================================================================= *)
(** ** Building a table from tags *)

(** The table section with the one layer "0", read and used: one member,
    found by name; a second "0" is turned down; after its removal the
    table is empty. *)
Example layer_section_scenario :
  exists d t,
    Table_init Sample.section_tags (mkDrawing ∅ 1%N "AC1009") = (d, inr t) /\
    let w := mkWorld t ∅ "" in
    snd (Table_len w) = inr 1%nat /\
    snd (Table_contains "0" w) = inr true /\
    (exists e, snd (Table_get "0" w) = inr e /\ entry_name e = "0") /\
    snd (Table_create "0" None w) = inl (ValueError "LAYER 0 already exists!") /\
    snd (Table_len (fst (Table_remove "0" w))) = inr 0%nat.
Proof.
  eexists. eexists. split; [vm_compute; reflexivity|].
  split; [vm_compute; reflexivity|]. split; [vm_compute; reflexivity|].
  split; [eexists; split; vm_compute; reflexivity|].
  split; vm_compute; reflexivity.
Qed.

(** A sequence of a single tag has no second tag to read the kind of the
    table from. *)
Example single_tag_sequence :
  Table_init [mkTag 0 (VStr "TABLE")] (mkDrawing ∅ 1%N "AC1009")
  = (mkDrawing ∅ 1%N "AC1009", inl IndexError).
Proof. reflexivity. Qed.

(** C4. A tag sequence whose first group is not named TABLE or whose last
    group is not named ENDTAB is turned down: the constructor raises, no
    table comes back and the drawing is as it was.  The exception is the
    AssertionError of the marker checks whenever the sequence has the two
    tags the constructor reads the kind of the table from, and the
    IndexError of that read otherwise. *)
Theorem init_rejects_bad_markers {F : EntityFactory} (tags : Tags)
    (d : Drawing) (first last : TagValue) :
  getname (TagGroups tags) 0 = inr first ->
  getname (TagGroups tags) (-1) = inr last ->
  first <> VStr "TABLE" \/ last <> VStr "ENDTAB" ->
  exists e,
    Table_init tags d = (d, inl e) /\
    StructureError e /\
    ((2 <= length tags)%nat -> e = AssertionError) /\
    ((length tags < 2)%nat -> e = IndexError).
Proof.
  intros Hfirst Hlast Hbad. unfold Table_init.
  destruct (tags !! 1%nat) as [t1|] eqn:Ht1.
  - exists AssertionError.
    assert (Hlen : (1 < length tags)%nat) by by eapply lookup_lt_Some.
    split; [|split; [by left|split; [reflexivity|lia]]].
    unfold _build_table_entries. unfold_monad. rewrite Hfirst. simpl.
    destruct (bool_decide (first = VStr "TABLE")) eqn:Hb1; simpl;
      [|reflexivity].
    rewrite Hlast. simpl.
    destruct (bool_decide (last = VStr "ENDTAB")) eqn:Hb2; simpl;
      [|reflexivity].
    apply bool_decide_eq_true in Hb1, Hb2. destruct Hbad; contradiction.
  - exists IndexError.
    assert (Hlen : (length tags <= 1)%nat) by by apply lookup_ge_None.
    split; [reflexivity|]. split; [by right|]. split; [lia|reflexivity].
Qed.

Lemma init_rejects_bad_markers_witness :
  Table_init [mkTag 0 (VStr "TABLE"); mkTag 2 (VStr "LAYER");
              mkTag 0 (VStr "LAYER"); mkTag 5 (VInt 16); mkTag 2 (VStr "0");
              mkTag 0 (VStr "EOF")]
             (mkDrawing ∅ 1%N "AC1009")
    = (mkDrawing ∅ 1%N "AC1009", inl AssertionError) /\
  Table_init [mkTag 0 (VStr "SECTION"); mkTag 2 (VStr "LAYER");
              mkTag 0 (VStr "ENDTAB")]
             (mkDrawing ∅ 1%N "AC1009")
    = (mkDrawing ∅ 1%N "AC1009", inl AssertionError).
Proof.
  split.
  - destruct (init_rejects_bad_markers (F := Sample.factory)
                [mkTag 0 (VStr "TABLE"); mkTag 2 (VStr "LAYER");
                 mkTag 0 (VStr "LAYER"); mkTag 5 (VInt 16);
                 mkTag 2 (VStr "0"); mkTag 0 (VStr "EOF")]
                (mkDrawing ∅ 1%N "AC1009") (VStr "TABLE") (VStr "EOF"))
      as (e & Hrun & _ & He & _).
    + vm_compute. reflexivity.
    + vm_compute. reflexivity.
    + right. discriminate.
    + rewrite Hrun, He; [reflexivity|]. simpl. lia.
  - destruct (init_rejects_bad_markers (F := Sample.factory)
                [mkTag 0 (VStr "SECTION"); mkTag 2 (VStr "LAYER");
                 mkTag 0 (VStr "ENDTAB")]
                (mkDrawing ∅ 1%N "AC1009") (VStr "SECTION") (VStr "ENDTAB"))
      as (e & Hrun & _ & He & _).
    + vm_compute. reflexivity.
    + vm_compute. reflexivity.
    + left. discriminate.
    + rewrite Hrun, He; [reflexivity|]. simpl. lia.
Defined.

(* ================================================================= *)
(** ** Writing a table *)

Lemma string_app_nil_r (s : string) : s +:+ "" = s.
Proof.
  induction s as [|a s IH]; [reflexivity|].
  change (String a (s +:+ "") = String a s). by rewrite IH.
Qed.

Lemma string_app_assoc (s1 s2 s3 : string) :
  (s1 +:+ s2) +:+ s3 = s1 +:+ (s2 +:+ s3).
Proof.
  induction s1 as [|a s1 IH]; [reflexivity|].
  change (String a ((s1 +:+ s2) +:+ s3) = String a (s1 +:+ (s2 +:+ s3))).
  by rewrite IH.
Qed.

Lemma Tags_update_ok c v ts :
  is_Some (Tags_getvalue c ts) ->
  exists ts', Tags_update c v ts = inr ts' /\ Tags_getvalue c ts' = Some v.
Proof.
  induction ts as [|t ts IH]; simpl; intros [old Hold].
  - discriminate.
  - destruct (code t =? c) eqn:Hc.
    + eexists. split; [reflexivity|]. simpl. by rewrite Z.eqb_refl.
    + destruct IH as (ts' & -> & Hget); [eauto|].
      eexists. split; [reflexivity|]. simpl. by rewrite Hc.
Qed.

Lemma subclass_update_ok name c v subs ts :
  subclass_lookup name subs = Some ts ->
  is_Some (Tags_getvalue c ts) ->
  exists subs' ts',
    subclass_update name c v subs = inr subs' /\
    subclass_lookup name subs' = Some ts' /\
    Tags_getvalue c ts' = Some v.
Proof.
  induction subs as [|[n old] subs IH]; simpl; intros Hl Hget.
  - discriminate.
  - destruct (String.eqb n name) eqn:Hn.
    + injection Hl as ->.
      destruct (Tags_update_ok c v ts Hget) as (ts' & -> & Hget').
      eexists _, ts'. split; [reflexivity|]. simpl. by rewrite Hn.
    + destruct (IH Hl Hget) as (subs' & ts' & -> & Hl' & Hget').
      eexists _, ts'. split; [reflexivity|]. simpl. by rewrite Hn.
Qed.

Section Write.

Context {F : EntityFactory}.

(** [_update_meta_data] on a header that has the count field. *)
Lemma update_meta_data_run w hdr :
  _table_header (self w) = Some hdr ->
  is_Some (count_field (dxfversion (_drawing (self w))) hdr) ->
  let version := dxfversion (_drawing (self w)) in
  let n := VInt (Z.of_nat (length (members w))) in
  exists hdr',
    _update_meta_data w = (set_table_header (Some hdr') w, inr tt) /\
    count_field version hdr' = Some n /\
    (if String.ltb "AC1009" version
     then common hdr' = common hdr /\
          subclass_update "AcDbSymbolTable" 70 n (subclasses hdr)
            = inr (subclasses hdr')
     else subclasses hdr' = subclasses hdr /\
          Tags_update 70 n (common hdr) = inr (common hdr')).
Proof.
  intros Hhdr Hfield version n.
  unfold _update_meta_data, Table_len. unfold_monad. simpl.
  rewrite Hhdr. fold version. fold n.
  unfold count_field in *. fold version in Hfield.
  destruct (String.ltb "AC1009" version) eqn:Hv.
  - destruct (subclass_lookup "AcDbSymbolTable" (subclasses hdr))
      as [ts|] eqn:Hl; [|by destruct Hfield].
    destruct (subclass_update_ok "AcDbSymbolTable" 70 n _ ts Hl Hfield)
      as (subs' & ts' & Hup & Hl' & Hget).
    exists (mkExt (common hdr) subs').
    unfold ExtendedTags_update_subclass. rewrite Hup. simpl.
    rewrite Hl'. repeat split; assumption.
  - destruct (Tags_update_ok 70 n (common hdr) Hfield) as (ts' & Hup & Hget).
    exists (mkExt ts' (subclasses hdr)).
    unfold ExtendedTags_update. rewrite Hup. simpl.
    repeat split; assumption.
Qed.

(** The loop over the members only appends to the stream. *)
Lemma write_content_frame hs w :
  exists w' r rest,
    write_content hs w = (w', r) /\
    self w' = self w /\ dicts w' = dicts w /\
    stream w' = stream w +:+ rest.
Proof.
  revert w. induction hs as [|h hs IH]; intros w; simpl.
  - exists w, (inr tt), "". by rewrite string_app_nil_r.
  - unfold stream_write. unfold_monad. simpl.
    destruct (db_of w !! h) as [tags|].
    + destruct (IH (set_stream (stream w +:+ ExtendedTags_text tags) w))
        as (w' & r & rest & -> & Hs & Hd & Hst).
      exists w', r, (ExtendedTags_text tags +:+ rest).
      repeat split; try assumption.
      rewrite Hst. simpl. apply string_app_assoc.
    + exists w, (inl (KeyError (pretty h))), "".
      by rewrite string_app_nil_r.
Qed.

(** When every member has a record, the loop writes the records in the
    order of the members. *)
Lemma write_content_run hs w recs :
  Forall2 (fun h tags => db_of w !! h = Some tags) hs recs ->
  exists w',
    write_content hs w = (w', inr tt) /\
    self w' = self w /\ dicts w' = dicts w /\
    stream w' = stream w +:+ concat_text (ExtendedTags_text <$> recs).
Proof.
  intros Hall. revert w recs Hall.
  induction hs as [|h hs IH]; intros w recs Hall; simpl.
  - apply Forall2_nil_inv_l in Hall as ->.
    exists w. by rewrite string_app_nil_r.
  - apply Forall2_cons_inv_l in Hall as (tags & recs' & Hh & Hall & ->).
    unfold stream_write. unfold_monad. simpl. rewrite Hh.
    destruct (IH (set_stream (stream w +:+ ExtendedTags_text tags) w)
                recs' Hall) as (w' & -> & Hs & Hd & Hst).
    exists w'. repeat split; try assumption.
    rewrite Hst. simpl. apply string_app_assoc.
Qed.

(** [Table.write] up to the loop: the marker, the patched header. *)
Lemma write_prologue w hdr :
  _table_header (self w) = Some hdr ->
  is_Some (count_field (dxfversion (_drawing (self w))) hdr) ->
  let version := dxfversion (_drawing (self w)) in
  let n := VInt (Z.of_nat (length (members w))) in
  exists hdr',
    _update_meta_data w = (set_table_header (Some hdr') w, inr tt) /\
    count_field version hdr' = Some n /\
    (if String.ltb "AC1009" version
     then common hdr' = common hdr /\
          subclass_update "AcDbSymbolTable" 70 n (subclasses hdr)
            = inr (subclasses hdr')
     else subclasses hdr' = subclasses hdr /\
          Tags_update 70 n (common hdr) = inr (common hdr')) /\
    Table_write w =
      bind (write_content (members w))
           (fun _ => stream_write ("  0" +:+ nl +:+ "ENDTAB" +:+ nl))
           (set_stream ((stream w +:+ "  0" +:+ nl +:+ "TABLE" +:+ nl)
                        +:+ ExtendedTags_text hdr')
              (set_table_header (Some hdr') w)).
Proof.
  intros Hhdr Hfield version n.
  destruct (update_meta_data_run w hdr Hhdr Hfield)
    as (hdr' & Hup & Hcount & Hloc).
  exists hdr'. split; [exact Hup|]. split; [exact Hcount|].
  split; [exact Hloc|].
  destruct (update_meta_data_run
              (set_stream (stream w +:+ "  0" +:+ nl +:+ "TABLE" +:+ nl) w)
              hdr Hhdr Hfield) as (hdr2 & Hup2 & _).
  assert (hdr2 = hdr') as ->.
  { revert Hup Hup2. unfold _update_meta_data, Table_len. unfold_monad.
    simpl. rewrite Hhdr.
    destruct (if String.ltb "AC1009" (dxfversion (_drawing (self w)))
              then _ else _) as [x|h]; simpl; [discriminate|].
    intros [= H1] [= H2]. congruence. }
  unfold Table_write, stream_write. unfold_monad. simpl.
  simpl in Hup2. rewrite Hup2. reflexivity.
Qed.

Lemma dxfstr_TABLE :
  dxfstr (mkTag 0 (VStr "TABLE")) = "  0" +:+ nl +:+ "TABLE" +:+ nl.
Proof. reflexivity. Qed.

Lemma dxfstr_ENDTAB :
  dxfstr (mkTag 0 (VStr "ENDTAB")) = "  0" +:+ nl +:+ "ENDTAB" +:+ nl.
Proof. reflexivity. Qed.

End Write.

(** C2. [write] patches the entry-count field of the header, the field
    with group code 70, to the number of members at the time of writing,
    whatever value [old] it held.  The field is the one at the top level
    of the header when the version is not greater than AC1009 and the one
    inside the subclass AcDbSymbolTable otherwise; the rest of the header
    is untouched.  The patched header is what the stream receives after
    the opening marker, whether or not the records of the members can be
    written after it. *)
Theorem write_patches_count {F : EntityFactory} (w : World)
    (hdr : ExtendedTags) (old : TagValue) :
  _table_header (self w) = Some hdr ->
  count_field (dxfversion (_drawing (self w))) hdr = Some old ->
  let version := dxfversion (_drawing (self w)) in
  let n := VInt (Z.of_nat (length (members w))) in
  exists w' r hdr' rest,
    Table_write w = (w', r) /\
    _table_header (self w') = Some hdr' /\
    count_field version hdr' = Some n /\
    (if String.ltb "AC1009" version
     then common hdr' = common hdr /\
          subclass_update "AcDbSymbolTable" 70 n (subclasses hdr)
            = inr (subclasses hdr')
     else subclasses hdr' = subclasses hdr /\
          Tags_update 70 n (common hdr) = inr (common hdr')) /\
    stream w' = stream w +:+ dxfstr (mkTag 0 (VStr "TABLE"))
                +:+ ExtendedTags_text hdr' +:+ rest.
Proof.
  intros Hhdr Hold version n.
  destruct (write_prologue w hdr Hhdr) as (hdr' & _ & Hcount & Hloc & Hrun).
  { rewrite Hold. eauto. }
  set (wb := set_stream ((stream w +:+ "  0" +:+ nl +:+ "TABLE" +:+ nl)
                         +:+ ExtendedTags_text hdr')
               (set_table_header (Some hdr') w)) in *.
  destruct (write_content_frame (members w) wb)
    as (w1 & r1 & rest & Hloop & Hself & _ & Hst).
  rewrite dxfstr_TABLE.
  destruct r1 as [x|[]].
  - exists w1, (inl x), hdr', rest. split.
    { rewrite Hrun. unfold bind. by rewrite Hloop. }
    split; [by rewrite Hself|]. split; [exact Hcount|].
    split; [exact Hloc|].
    rewrite Hst. unfold wb. simpl. by rewrite !string_app_assoc.
  - exists (set_stream (stream w1 +:+ "  0" +:+ nl +:+ "ENDTAB" +:+ nl) w1),
           (inr tt), hdr', (rest +:+ "  0" +:+ nl +:+ "ENDTAB" +:+ nl).
    split.
    { rewrite Hrun. unfold bind. by rewrite Hloop. }
    split; [simpl; by rewrite Hself|]. split; [exact Hcount|].
    split; [exact Hloc|].
    simpl. rewrite Hst. unfold wb. simpl. by rewrite !string_app_assoc.
Qed.

Lemma write_patches_count_witness :
  (exists w' r hdr',
     Table_write
       (run_creates [("A", None); ("B", None); ("C", None)] Sample.world0)
       = (w', r) /\
     _table_header (self w') = Some hdr' /\
     Tags_getvalue 70 (common hdr') = Some (VInt 3)) /\
  (exists w' r hdr' ts,
     Table_write Sample.world2_modern = (w', r) /\
     _table_header (self w') = Some hdr' /\
     subclass_lookup "AcDbSymbolTable" (subclasses hdr') = Some ts /\
     Tags_getvalue 70 ts = Some (VInt 2)).
Proof.
  split.
  - destruct (write_patches_count
                (run_creates [("A", None); ("B", None); ("C", None)]
                   Sample.world0)
                (Sample.header_legacy 7) (VInt 7))
      as (w' & r & hdr' & rest & Hrun & Hhdr & Hcount & _).
    + vm_compute. reflexivity.
    + vm_compute. reflexivity.
    + exists w', r, hdr'. split; [exact Hrun|]. split; [exact Hhdr|].
      exact Hcount.
  - destruct (write_patches_count Sample.world2_modern
                (Sample.header_modern 7) (VInt 7) eq_refl eq_refl)
      as (w' & r & hdr' & rest & Hrun & Hhdr & Hcount & _).
    unfold count_field in Hcount. simpl in Hcount.
    destruct (subclass_lookup "AcDbSymbolTable" (subclasses hdr'))
      as [ts|] eqn:Hl; [|discriminate].
    exists w', r, hdr', ts. split; [exact Hrun|]. split; [exact Hhdr|].
    split; [exact Hl|exact Hcount].
Defined.

(** The text of a sequence of tags, tag by tag. *)
Lemma Tags_text_app (a b : Tags) :
  Tags_text (a ++ b) = Tags_text a +:+ Tags_text b.
Proof.
  induction a as [|t a IH]; [reflexivity|].
  change (dxfstr t +:+ Tags_text (a ++ b)
          = (dxfstr t +:+ Tags_text a) +:+ Tags_text b).
  by rewrite IH, string_app_assoc.
Qed.

Lemma Tags_text_lines (ts : Tags) :
  Tags_text ts
  = concat_text
      ((fun t => pad3 (pretty (code t)) +:+ nl
                 +:+ value_str (value t) +:+ nl) <$> ts).
Proof.
  induction ts as [|t ts IH]; [reflexivity|].
  change (dxfstr t +:+ Tags_text ts
          = (pad3 (pretty (code t)) +:+ nl +:+ value_str (value t) +:+ nl)
            +:+ concat_text
                  ((fun t => pad3 (pretty (code t)) +:+ nl
                             +:+ value_str (value t) +:+ nl) <$> ts)).
  by rewrite IH.
Qed.

Lemma records_text (recs : list ExtendedTags) :
  concat_text (ExtendedTags_text <$> recs)
  = Tags_text (concat (ExtendedTags_tags <$> recs)).
Proof.
  induction recs as [|x recs IH]; [reflexivity|].
  change (ExtendedTags_text x +:+ concat_text (ExtendedTags_text <$> recs)
          = Tags_text (ExtendedTags_tags x
                       ++ concat (ExtendedTags_tags <$> recs))).
  by rewrite IH, Tags_text_app.
Qed.

(** C3. [write] emits, and emits only: the opening marker tag (code 0,
    value TABLE), the tags of the header record (with the count patched),
    the stored record of every member in the order of the members, and
    the closing marker tag (code 0, value ENDTAB).  Each tag is two
    lines: the group code, right-justified in three columns, and the
    value.  So the text that reaches the stream is the line-by-line text
    of this one sequence of tags, and it opens with the literal of the
    opening marker and ends with the literal of the closing marker.  This
    is for a table whose header has the count field and whose members all
    have a record; the members and the entity database are not changed by
    writing. *)
Theorem write_emits {F : EntityFactory} (w : World) (hdr : ExtendedTags)
    (recs : list ExtendedTags) :
  _table_header (self w) = Some hdr ->
  is_Some (count_field (dxfversion (_drawing (self w))) hdr) ->
  Forall2 (fun h tags => db_of w !! h = Some tags) (members w) recs ->
  let two_lines (t : DXFTag) :=
    pad3 (pretty (code t)) +:+ nl +:+ value_str (value t) +:+ nl in
  exists w' hdr',
    Table_write w = (w', inr tt) /\
    _update_meta_data w = (set_table_header (Some hdr') w, inr tt) /\
    _table_header (self w') = Some hdr' /\
    members w' = members w /\ db_of w' = db_of w /\
    stream w'
    = stream w
      +:+ concat_text
            (two_lines <$>
               ([mkTag 0 (VStr "TABLE")]
                ++ ExtendedTags_tags hdr'
                ++ concat (ExtendedTags_tags <$> recs)
                ++ [mkTag 0 (VStr "ENDTAB")])) /\
    stream w'
    = stream w
      +:+ ("  0" +:+ nl +:+ "TABLE" +:+ nl)
      +:+ concat_text
            (two_lines <$>
               (ExtendedTags_tags hdr'
                ++ concat (ExtendedTags_tags <$> recs)))
      +:+ ("  0" +:+ nl +:+ "ENDTAB" +:+ nl).
Proof.
  intros Hhdr Hfield Hall two_lines.
  destruct (write_prologue w hdr Hhdr Hfield) as (hdr' & Hup & _ & _ & Hrun).
  set (wb := set_stream ((stream w +:+ "  0" +:+ nl +:+ "TABLE" +:+ nl)
                         +:+ ExtendedTags_text hdr')
               (set_table_header (Some hdr') w)) in *.
  destruct (write_content_run (members w) wb recs Hall)
    as (w1 & Hloop & Hself & _ & Hst).
  exists (set_stream (stream w1 +:+ "  0" +:+ nl +:+ "ENDTAB" +:+ nl) w1),
         hdr'.
  split.
  { rewrite Hrun. unfold bind. by rewrite Hloop. }
  split; [exact Hup|].
  split; [simpl; by rewrite Hself|].
  split; [unfold members; simpl; by rewrite Hself|].
  split; [unfold db_of; simpl; by rewrite Hself|].
  assert (Hout :
    stream (set_stream (stream w1 +:+ "  0" +:+ nl +:+ "ENDTAB" +:+ nl) w1)
    = stream w
      +:+ Tags_text ([mkTag 0 (VStr "TABLE")]
                     ++ ExtendedTags_tags hdr'
                     ++ concat (ExtendedTags_tags <$> recs)
                     ++ [mkTag 0 (VStr "ENDTAB")])).
  { rewrite !Tags_text_app, <- records_text.
    change (Tags_text [mkTag 0 (VStr "TABLE")])
      with ("  0" +:+ nl +:+ "TABLE" +:+ nl).
    change (Tags_text [mkTag 0 (VStr "ENDTAB")])
      with ("  0" +:+ nl +:+ "ENDTAB" +:+ nl).
    simpl. rewrite Hst. unfold wb. simpl. unfold ExtendedTags_text.
    by rewrite !string_app_assoc. }
  split.
  - rewrite Hout. by rewrite Tags_text_lines.
  - rewrite Hout. rewrite <- Tags_text_lines.
    rewrite !Tags_text_app.
    change (Tags_text [mkTag 0 (VStr "TABLE")])
      with ("  0" +:+ nl +:+ "TABLE" +:+ nl).
    change (Tags_text [mkTag 0 (VStr "ENDTAB")])
      with ("  0" +:+ nl +:+ "ENDTAB" +:+ nl).
    by rewrite !string_app_assoc.
Qed.

Lemma write_emits_witness :
  (exists w',
     Table_write Sample.world2 = (w', inr tt) /\
     stream w' =
       "  0" +:+ nl +:+ "TABLE" +:+ nl +:+
       "  2" +:+ nl +:+ "LAYER" +:+ nl +:+
       " 70" +:+ nl +:+ "2" +:+ nl +:+
       "  0" +:+ nl +:+ "LAYER" +:+ nl +:+
       "  5" +:+ nl +:+ "1" +:+ nl +:+
       "  2" +:+ nl +:+ "0" +:+ nl +:+
       "  0" +:+ nl +:+ "LAYER" +:+ nl +:+
       "  5" +:+ nl +:+ "2" +:+ nl +:+
       "  2" +:+ nl +:+ "1" +:+ nl +:+
       "  0" +:+ nl +:+ "ENDTAB" +:+ nl) /\
  (exists w',
     Table_write Sample.world2_modern = (w', inr tt) /\
     stream w' =
       "  0" +:+ nl +:+ "TABLE" +:+ nl +:+
       "  2" +:+ nl +:+ "LAYER" +:+ nl +:+
       "  5" +:+ nl +:+ "2" +:+ nl +:+
       "100" +:+ nl +:+ "AcDbSymbolTable" +:+ nl +:+
       " 70" +:+ nl +:+ "2" +:+ nl +:+
       "  0" +:+ nl +:+ "LAYER" +:+ nl +:+
       "  5" +:+ nl +:+ "1" +:+ nl +:+
       "  2" +:+ nl +:+ "0" +:+ nl +:+
       "  0" +:+ nl +:+ "LAYER" +:+ nl +:+
       "  5" +:+ nl +:+ "2" +:+ nl +:+
       "  2" +:+ nl +:+ "1" +:+ nl +:+
       "  0" +:+ nl +:+ "ENDTAB" +:+ nl).
Proof.
  split.
  - destruct (write_emits Sample.world2 (Sample.header_legacy 7)
                [Sample.layer 1 "0"; Sample.layer 2 "1"])
      as (w' & hdr' & Hrun & Hup & _ & _ & _ & Hst & _).
    + reflexivity.
    + vm_compute. eauto.
    + repeat constructor.
    + exists w'. split; [exact Hrun|]. rewrite Hst.
      vm_compute in Hup. injection Hup as <-. vm_compute. reflexivity.
  - destruct (write_emits Sample.world2_modern (Sample.header_modern 7)
                [Sample.layer 1 "0"; Sample.layer 2 "1"])
      as (w' & hdr' & Hrun & Hup & _ & _ & _ & Hst & _).
    + reflexivity.
    + vm_compute. eauto.
    + repeat constructor.
    + exists w'. split; [exact Hrun|]. rewrite Hst.
      vm_compute in Hup. injection Hup as <-. vm_compute. reflexivity.
Defined.

(* ================================================================= *)
(** ** More on the table: names *)

Lemma lower_char_idem c : lower_char (lower_char c) = lower_char c.
Proof. destruct c as [[] [] [] [] [] [] [] []]; reflexivity. Qed.

Lemma lower_char_ascii c :
  is_ascii_char c = true -> is_ascii_char (lower_char c) = true.
Proof. destruct c as [[] [] [] [] [] [] [] []]; intros H; exact H || reflexivity. Qed.

Lemma ascii_lower_idem s : ascii_lower (ascii_lower s) = ascii_lower s.
Proof.
  induction s as [|c s IH]; [reflexivity|].
  simpl. by rewrite lower_char_idem, IH.
Qed.

Lemma ascii_lower_app a b :
  ascii_lower (a +:+ b) = ascii_lower a +:+ ascii_lower b.
Proof.
  induction a as [|c a IH]; [reflexivity|].
  change (String (lower_char c) (ascii_lower (a +:+ b))
          = String (lower_char c) (ascii_lower a +:+ ascii_lower b)).
  by rewrite IH.
Qed.

Lemma ascii_lower_is_ascii s :
  is_ascii s = true -> is_ascii (ascii_lower s) = true.
Proof.
  induction s as [|c s IH]; [reflexivity|].
  simpl. intros H. apply andb_true_iff in H as [Hc Hs].
  apply andb_true_iff. split; [by apply lower_char_ascii|by apply IH].
Qed.

Lemma is_ascii_app a b :
  is_ascii a = true -> is_ascii b = true -> is_ascii (a +:+ b) = true.
Proof.
  induction a as [|c a IH]; intros Ha Hb; [exact Hb|].
  change (is_ascii_char c && is_ascii (a +:+ b) = true).
  simpl in Ha. apply andb_true_iff in Ha as [Hc Ha].
  apply andb_true_iff. split; [exact Hc|by apply IH].
Qed.

Lemma app_s_not_empty a : a +:+ "s" <> "".
Proof. destruct a; discriminate. Qed.

Lemma TABLENAMES_values k v :
  TABLENAMES !! k = Some v ->
  v <> "" /\ is_ascii v = true /\ ascii_lower v = v.
Proof.
  unfold TABLENAMES. intros H. apply elem_of_list_to_map_2 in H.
  repeat (apply elem_of_cons in H as [H|H];
          [injection H as -> ->;
           split; [discriminate|split; reflexivity]|]).
  by apply elem_of_nil in H.
Qed.

(** X1. [tablename] and the case of letters.  A kind that is not a
    string has no name: the call raises AttributeError.  For every
    string the name is not empty, and two kinds that [lower] makes equal
    have the same name.  For a kind written in ASCII the name is ASCII
    in lower case, and every ASCII kind that differs from it only in the
    case of the letters A to Z has the same name.  Nothing is said of
    what [lower] does to other characters. *)
Theorem tablename_lower_case {P : StrLower} (s : string) :
  (forall n, tablename (VInt n) = inl AttributeError) /\
  (exists r,
     tablename (VStr s) = inr r /\ r <> "" /\
     forall s', lower s' = lower s -> tablename (VStr s') = inr r) /\
  (is_ascii s = true ->
   exists r,
     tablename (VStr s) = inr r /\
     is_ascii r = true /\ ascii_lower r = r /\ lower r = r /\
     forall s',
       is_ascii s' = true -> ascii_lower s' = ascii_lower s ->
       tablename (VStr s') = inr r).
Proof.
  split; [reflexivity|]. split.
  - exists (default (lower s +:+ "s") (TABLENAMES !! lower s)).
    split; [reflexivity|]. split.
    + destruct (TABLENAMES !! lower s) as [v|] eqn:Hv; simpl.
      * by destruct (TABLENAMES_values _ _ Hv).
      * apply app_s_not_empty.
    + intros s' Hs'. unfold tablename. by rewrite Hs'.
  - intros Hs.
    exists (default (lower s +:+ "s") (TABLENAMES !! lower s)).
    split; [reflexivity|].
    assert (Hr : is_ascii (default (lower s +:+ "s") (TABLENAMES !! lower s))
                 = true /\
                 ascii_lower (default (lower s +:+ "s")
                                (TABLENAMES !! lower s))
                 = default (lower s +:+ "s") (TABLENAMES !! lower s)).
    { destruct (TABLENAMES !! lower s) as [v|] eqn:Hv; simpl.
      - by destruct (TABLENAMES_values _ _ Hv) as (_ & ? & ?).
      - rewrite (lower_ascii s Hs). split.
        + apply is_ascii_app; [by apply ascii_lower_is_ascii|reflexivity].
        + by rewrite ascii_lower_app, ascii_lower_idem. }
    destruct Hr as [Hr1 Hr2].
    split; [exact Hr1|]. split; [exact Hr2|].
    split; [by rewrite (lower_ascii _ Hr1)|].
    intros s' Hs' Heq. unfold tablename.
    by rewrite (lower_ascii s' Hs'), (lower_ascii s Hs), Heq.
Qed.

Lemma tablename_lower_case_witness :
  tablename (P := Cases.ascii_text) (VStr "Layer") = inr "layers" /\
  tablename (P := Cases.ascii_text) (VStr "xYZ") = inr "xyzs".
Proof.
  split.
  - destruct (tablename_lower_case (P := Cases.ascii_text) "LAYER")
      as (_ & _ & Hascii).
    destruct (Hascii eq_refl) as (r & Hr & _ & _ & _ & Hcase).
    rewrite (Hcase "Layer" eq_refl eq_refl). rewrite <- Hr. reflexivity.
  - destruct (tablename_lower_case (P := Cases.ascii_text) "Xyz")
      as (_ & _ & Hascii).
    destruct (Hascii eq_refl) as (r & Hr & _ & _ & _ & Hcase).
    rewrite (Hcase "xYZ" eq_refl eq_refl). rewrite <- Hr. reflexivity.
Defined.

Section Kind.

Context {F : EntityFactory}.

(** What an operation leaves of the table and its drawing when it only
    works on members, records, generator, dictionaries and stream. *)
Lemma _add_entry_kind entry w :
  _dxfname (self (fst (_add_entry entry w))) = _dxfname (self w) /\
  dxfversion (_drawing (self (fst (_add_entry entry w))))
  = dxfversion (_drawing (self w)).
Proof.
  unfold _add_entry. unfold_monad. destruct entry as [tags|e]; simpl.
  - destruct (gethandle tags (handles (_drawing (self w))))
      as [x|[[h tags'] g']]; simpl; split; reflexivity.
  - split; reflexivity.
Qed.

Lemma add_entries_kind groups w :
  _dxfname (self (fst (add_entries groups w))) = _dxfname (self w) /\
  dxfversion (_drawing (self (fst (add_entries groups w))))
  = dxfversion (_drawing (self w)).
Proof.
  revert w. induction groups as [|g groups IH]; intros w; simpl.
  - split; reflexivity.
  - unfold_monad.
    pose proof (_add_entry_kind (ArgTags (ExtendedTags_new g)) w) as Hk.
    destruct (_add_entry (ArgTags (ExtendedTags_new g)) w) as [w1 [x|u]];
      simpl in Hk; [exact Hk|].
    destruct (IH w1) as [H1 H2]. destruct Hk as [H3 H4].
    split; congruence.
Qed.

Lemma build_kind tags w :
  _dxfname (self (fst (_build_table_entries tags w))) = _dxfname (self w).
Proof.
  unfold _build_table_entries. unfold_monad.
  destruct (getname (TagGroups tags) 0) as [x|v1]; simpl; [reflexivity|].
  destruct (negb (bool_decide (v1 = VStr "TABLE"))); simpl; [reflexivity|].
  destruct (getname (TagGroups tags) (-1)) as [x|v2]; simpl; [reflexivity|].
  destruct (negb (bool_decide (v2 = VStr "ENDTAB"))); simpl; [reflexivity|].
  apply (add_entries_kind (slice_1_to_last (TagGroups tags))
           (set_table_header
              (Some (ExtendedTags_new
                       (slice_from_1 (default [] (TagGroups tags !! 0%nat)))))
              w)).
Qed.

Lemma update_meta_data_cases w :
  (exists e, _update_meta_data w = (w, inl e)) \/
  (exists h', _update_meta_data w = (set_table_header (Some h') w, inr tt)).
Proof.
  unfold _update_meta_data, Table_len. unfold_monad. simpl.
  destruct (_table_header (self w)) as [h|]; [|left; eauto].
  destruct (if String.ltb "AC1009" (dxfversion (_drawing (self w)))
            then _ else _) as [x|h']; simpl; [left|right]; eauto.
Qed.

(** [Table.write] changes the header and the stream and nothing else. *)
Lemma write_frame w :
  let w' := fst (Table_write w) in
  members w' = members w /\ db_of w' = db_of w /\
  _dxfname (self w') = _dxfname (self w) /\
  _drawing (self w') = _drawing (self w) /\
  dicts w' = dicts w.
Proof.
  unfold Table_write, stream_write. unfold_monad. simpl.
  set (wa := set_stream (stream w +:+ "  0" +:+ nl +:+ "TABLE" +:+ nl) w).
  destruct (update_meta_data_cases wa) as [[e ->]|[h' ->]]; simpl.
  - repeat split.
  - match goal with
    | |- context [write_content ?l ?x] =>
        destruct (write_content_frame l x)
          as (w1 & r & rest & Hloop & Hself & Hd & _);
        rewrite Hloop
    end.
    unfold members, db_of.
    destruct r as [x|[]]; simpl; rewrite Hself, Hd; repeat split.
Qed.

Lemma remove_entry_kind name w :
  _dxfname (self (fst (remove_entry name w))) = _dxfname (self w) /\
  dxfversion (_drawing (self (fst (remove_entry name w))))
  = dxfversion (_drawing (self w)).
Proof.
  destruct (get_entry_frame name w) as [[x|e] Hg].
  - by rewrite (remove_entry_not_found _ _ _ Hg).
  - rewrite (remove_entry_found _ _ _ Hg).
    destruct (list_remove_first (entry_handle e) (members w)) as [l'|];
      [|by split].
    destruct (db_of w !! entry_handle e); split; reflexivity.
Qed.

Lemma new_entry_kind r w :
  _dxfname (self (fst (new_entry r w))) = _dxfname (self w) /\
  dxfversion (_drawing (self (fst (new_entry r w))))
  = dxfversion (_drawing (self w)).
Proof.
  destruct (new_entry_run r w) as (w' & Hnew & _).
  destruct (new_entity _ _ _); destruct Hnew as [-> Hrel]; simpl.
  - destruct Hrel as (_ & _ & H1 & _ & H2). by split.
  - destruct Hrel as (_ & _ & H1 & _ & H2). by split.
Qed.

End Kind.

(** X2. A table has the name of the chunk it was built from: [Table.name]
    of a table built from tags is [GenericTable.name] of the same tags. *)
Theorem table_name_of_tags {F : EntityFactory} {P : StrLower} (tags : Tags)
    (d d' : Drawing) (t : Table) :
  Table_init tags d = (d', inr t) ->
  snd (Table_name (mkWorld t ∅ "")) = GenericTable_name tags.
Proof.
  unfold Table_init, GenericTable_name, Table_name.
  destruct (tags !! 1%nat) as [t1|]; [|discriminate].
  pose proof (build_kind tags
                (mkWorld (mkTable (value t1) d [] None) ∅ "")) as Hk.
  destruct (_build_table_entries tags _) as [w [x|u]]; [discriminate|].
  intros [= _ <-]. simpl in *. by rewrite Hk.
Qed.

Lemma table_name_of_tags_witness :
  exists d' t,
    Table_init Sample.section_tags (mkDrawing ∅ 1%N "AC1009") = (d', inr t) /\
    snd (Table_name (P := Cases.ascii_text) (mkWorld t ∅ "")) = inr "layers".
Proof.
  eexists. eexists. split; [vm_compute; reflexivity|].
  etransitivity.
  - eapply (table_name_of_tags (P := Cases.ascii_text) Sample.section_tags
              (mkDrawing ∅ 1%N "AC1009")).
    vm_compute. reflexivity.
  - vm_compute. reflexivity.
Defined.

(** X3. No operation changes the kind of the table or the version of the
    drawing: after [create] (of either class), [new_entry], [remove] and
    [write], whatever their outcome, [Table.name] answers as before. *)
Theorem table_name_is_stable {F : EntityFactory} {P : StrLower} (w : World)
    (name : string) (attribs : option Ref) (r : Ref) :
  let same w' :=
    snd (Table_name w') = snd (Table_name w) /\
    dxfversion (_drawing (self w')) = dxfversion (_drawing (self w)) in
  same (fst (Table_create name attribs w)) /\
  same (fst (ViewportTable_create name attribs w)) /\
  same (fst (new_entry r w)) /\
  same (fst (Table_remove name w)) /\
  same (fst (Table_write w)).
Proof.
  intros same. unfold same, Table_name. simpl.
  split; [|split; [|split; [|split]]].
  - destruct (create_cases name attribs w)
      as [->|(r0 & w0 & Hs & _ & ->)]; [by split|].
    destruct (new_entry_kind r0 w0) as [H1 H2].
    destruct Hs as (_ & _ & H3 & _ & H4). split; congruence.
  - destruct (viewport_create_cases name attribs w)
      as (r0 & w0 & Hs & _ & ->).
    destruct (new_entry_kind r0 w0) as [H1 H2].
    destruct Hs as (_ & _ & H3 & _ & H4). split; congruence.
  - destruct (new_entry_kind r w) as [H1 H2]. split; congruence.
  - destruct (remove_entry_kind name w) as [H1 H2].
    unfold Table_remove. split; congruence.
  - destruct (write_frame w) as (_ & _ & H1 & H2 & _).
    split; congruence.
Qed.

(* ================================================================= *)
(** ** More on the table: failures *)

Section Failures.

Context {F : EntityFactory}.

Lemma get_entry_loop_dangling name pre h post w :
  no_member_named name w pre -> db_of w !! h = None ->
  get_entry_loop name (pre ++ h :: post) w = (w, inl (KeyError (pretty h))).
Proof.
  induction pre as [|p pre IH]; intros Hno Hdb; simpl.
  - unfold_monad. unfold get_table_entry_wrapper. by rewrite Hdb.
  - destruct (Hno p) as (e' & He' & Hne); [left|].
    unfold_monad. rewrite (wrapper_of_entry _ _ _ He').
    apply String.eqb_neq in Hne. rewrite Hne.
    apply IH; [|assumption].
    intros h' Hin. apply Hno. by right.
Qed.

End Failures.

(** X4. [remove(name)] of a name that no member has raises
    ValueError(name) and leaves the members, the entity database and all
    the rest as they were. *)
Theorem remove_absent_name {F : EntityFactory} (w : World) (name : string) :
  no_member_named name w (members w) ->
  Table_remove name w = (w, inl (ValueError name)).
Proof.
  intros Hno. unfold Table_remove. apply remove_entry_not_found.
  rewrite get_entry_unfold. by apply get_entry_loop_missing.
Qed.

Lemma remove_absent_name_witness :
  Table_remove "9" Sample.world2 = (Sample.world2, inl (ValueError "9")).
Proof.
  apply (remove_absent_name Sample.world2 "9").
  apply no_member_namedb_correct. vm_compute. reflexivity.
Defined.

(** X5. A member without a record in the entity database is not skipped.
    When the scan for [name] comes to such a handle [h] before it finds
    the name, [get], [contains], [create] and [remove] all raise
    KeyError(h) - [contains] catches nothing but ValueError - and leave
    the state as it was. *)
Theorem dangling_handle_raises {F : EntityFactory} (w : World)
    (name : string) (pre : list Handle) (h : Handle) (post : list Handle)
    (attribs : option Ref) :
  members w = pre ++ h :: post ->
  no_member_named name w pre ->
  db_of w !! h = None ->
  Table_get name w = (w, inl (KeyError (pretty h))) /\
  Table_contains name w = (w, inl (KeyError (pretty h))) /\
  Table_create name attribs w = (w, inl (KeyError (pretty h))) /\
  Table_remove name w = (w, inl (KeyError (pretty h))).
Proof.
  intros Hm Hno Hdb.
  assert (Hg : get_entry name w = (w, inl (KeyError (pretty h)))).
  { rewrite get_entry_unfold, Hm. by apply get_entry_loop_dangling. }
  assert (Hex : entry_exists name w = (w, inl (KeyError (pretty h)))).
  { unfold entry_exists. by rewrite Hg. }
  split; [exact Hg|]. split; [exact Hex|]. split.
  - unfold Table_create, Table_contains. unfold_monad. by rewrite Hex.
  - by apply remove_entry_not_found.
Qed.

Lemma dangling_handle_raises_witness :
  Table_contains "1" Cases.world_dangling
    = (Cases.world_dangling, inl (KeyError "2")) /\
  Table_create "1" None Cases.world_dangling
    = (Cases.world_dangling, inl (KeyError "2")).
Proof.
  destruct (dangling_handle_raises Cases.world_dangling "1" [1%N] 2%N []
              None) as (_ & Hc & Hcr & _).
  - reflexivity.
  - apply no_member_namedb_correct. vm_compute. reflexivity.
  - vm_compute. reflexivity.
  - split; [exact Hc|exact Hcr].
Defined.

(** X6. A [create] that gets as far as the factory and is turned down
    there is not undone: the members and the entity database are as they
    were, but the handle drawn for the entry is spent and the dictionary
    of the caller already carries the name. *)
Theorem create_factory_failure {F : EntityFactory} (w : World)
    (name : string) (attribs : option Ref) (x : exn) :
  new_entity (_dxfname (self w)) (handles (_drawing (self w)))
             (create_attribs name attribs w) = inl x ->
  exists w',
    ViewportTable_create name attribs w = (w', inl x) /\
    (Table_contains name w = (w, inr false) ->
     Table_create name attribs w = (w', inl x)) /\
    same_table w w' /\
    handles (_drawing (self w')) = N.succ (handles (_drawing (self w))) /\
    forall r d,
      attribs = Some r -> dicts w !! r = Some d ->
      dicts w' !! r = Some (<["name" := VStr name]> d).
Proof.
  intros Hne.
  destruct (create_delegates name attribs w)
    as (r & w0 & Hvrun & Hrun & Hs & Hh & _ & Ha & Hr).
  destruct (new_entry_run r w0) as (w' & Hnew & Hh' & Hd & _).
  pose proof Hs as (_ & _ & Hk & _).
  rewrite Hk, Hh, Ha, Hne in Hnew. destruct Hnew as [Hnew Hs'].
  exists w'. split; [by rewrite Hvrun|]. split.
  { intros Hex. by rewrite (Hrun Hex). }
  split; [by eapply same_table_trans|]. split; [by rewrite Hh', Hh|].
  intros r' d Hattr Hdict. destruct (Hr r' Hattr) as [-> ->].
  rewrite Hd. unfold with_name. simpl. by rewrite lookup_insert_eq, Hdict.
Qed.

Lemma create_factory_failure_witness :
  exists w',
    Table_create (F := Cases.picky) "" (@Some Ref 1%positive)
      Cases.world_bad_attribs = (w', inl (FactoryError "empty name")) /\
    members w' = [1%N; 2%N] /\
    handles (_drawing (self w')) = 4%N /\
    dicts w' !! 1%positive
      = Some (<["name" := VStr ""]> (<["color" := VInt 7]> ∅)).
Proof.
  destruct (create_factory_failure (F := Cases.picky) Cases.world_bad_attribs
              "" (@Some Ref 1%positive) (FactoryError "empty name"))
    as (w' & _ & Hrun & Hs & Hh & Hd).
  - vm_compute. reflexivity.
  - exists w'. split; [apply Hrun; vm_compute; reflexivity|].
    split; [by destruct Hs as (-> & _)|]. split; [exact Hh|].
    apply (Hd 1%positive); [reflexivity|vm_compute; reflexivity].
Defined.

(* ================================================================= *)
(** ** More on the table: how the operations compose *)

Section Compose.

Context {F : EntityFactory}.

(** A lookup that succeeds goes on succeeding, with the same entry, when
    members are only added at the end and the records of the old members
    stay. *)
Lemma get_entry_extend n w w' e0 tail :
  members w' = members w ++ tail ->
  (forall x, x ∈ members w -> db_of w' !! x = db_of w !! x) ->
  get_entry n w = (w, inr e0) ->
  get_entry n w' = (w', inr e0).
Proof.
  intros Hm Hdb Hg. rewrite get_entry_unfold in Hg.
  apply get_entry_loop_inv in Hg
    as [_ (pre & h & post & Hsplit & Hno & He & Hname)].
  rewrite get_entry_unfold, Hm, Hsplit, <- app_assoc. simpl.
  assert (Hin : forall x, x ∈ pre ++ [h] -> x ∈ members w).
  { intros x Hx. rewrite Hsplit. apply elem_of_app in Hx as [Hx|Hx].
    - apply elem_of_app. by left.
    - apply list_elem_of_singleton in Hx as ->.
      apply elem_of_app. right. left. }
  apply get_entry_loop_found; [| |assumption].
  - eapply no_member_named_ext; [|exact Hno].
    intros x Hx. symmetry. apply Hdb, Hin, elem_of_app. by left.
  - rewrite <- He. apply entry_of_ext. apply Hdb, Hin, elem_of_app.
    right. left.
Qed.

Lemma contains_is_membership w name :
  coherent w ->
  entry_exists name w = (w, inr (bool_decide (name ∈ names w))).
Proof.
  intros Hc. destruct (coherent_entry_exists name w Hc) as [[Hin ->]|[Hno ->]].
  - by rewrite bool_decide_eq_true_2.
  - rewrite bool_decide_eq_false_2; [reflexivity|].
    by apply no_member_named_names.
Qed.

End Compose.

(** X7. What [create] puts into a standard table, [get] finds: after a
    successful [create(name)] the lookup of [name] returns the wrapper of
    the tags of the new entry, it carries the name and the handle the
    generator held before the call, and that handle is the last member. *)
Theorem create_then_get {F : EntityFactory} {L : FactoryLaws F}
    (w w1 : World) (name : string) (attribs : option Ref) (e : Entry) :
  coherent w -> unissued w ->
  Table_create name attribs w = (w1, inr e) ->
  exists e',
    Table_get name w1 = (w1, inr e') /\
    wrap_entity (entry_tags e) = inr e' /\
    entry_name e' = name /\
    entry_handle e' = handles (_drawing (self w)) /\
    members w1 = members w ++ [handles (_drawing (self w))].
Proof.
  intros Hc Hu Hcreate.
  destruct (coherent_entry_exists name w Hc) as [[_ Hex]|[Hno Hex]].
  { rewrite (create_duplicate _ attribs _ Hex) in Hcreate. discriminate. }
  destruct (create_delegates name attribs w)
    as (r & w0 & _ & Hrun & Hs & Hh & _ & Ha & _).
  rewrite (Hrun Hex) in Hcreate.
  destruct (new_entry_run r w0) as (w' & Hnew & _).
  destruct (new_entity (_dxfname (self w0)) (handles (_drawing (self w0)))
              (default ∅ (dicts w0 !! r))) as [x|e0] eqn:Hne;
    destruct Hnew as [Hnew Happ]; rewrite Hnew in Hcreate;
    [discriminate|].
  injection Hcreate as -> ->.
  pose proof (new_entity_handle _ _ _ _ Hne) as Hhe.
  destruct (new_entity_wrap _ _ _ _ Hne) as (e' & Hw & Hhe' & Hname).
  rewrite Hhe in Happ. rewrite Hh in Happ, Hhe'.
  pose proof Hs as (Hm0 & _).
  assert (Hfresh : handles (_drawing (self w)) ∉ members w0).
  { intros Hin. rewrite Hm0 in Hin. specialize (Hu _ Hin). lia. }
  assert (Hn' : entry_name e' = name).
  { apply Hname. rewrite Ha. apply create_attribs_name. }
  pose proof Happ as (Hm1 & _).
  exists e'. split; [|split; [exact Hw|split; [exact Hn'|split]]].
  - unfold Table_get. rewrite get_entry_unfold, Hm1.
    apply get_entry_loop_found; [| |exact Hn'].
    + eapply appended_no_member; eauto. rewrite Hm0.
      by eapply same_table_no_member.
    + by eapply appended_entry_of_new.
  - exact Hhe'.
  - by rewrite Hm1, Hm0.
Qed.

Lemma create_then_get_witness :
  exists w1 e',
    Table_create "2" None Sample.world2
      = (w1, inr (Sample.layer 3 "2" : @Entry Sample.factory)) /\
    Table_get "2" w1 = (w1, inr e') /\
    entry_name e' = "2" /\ entry_handle e' = 3%N.
Proof.
  exists (fst (Table_create "2" None Sample.world2)).
  destruct (create_then_get (F := Sample.factory) Sample.world2
              (fst (Table_create "2" None Sample.world2)) "2" None
              (Sample.layer 3 "2"))
    as (e' & Hget & _ & Hn & Hh & _).
  - apply coherentb_correct; vm_compute; reflexivity.
  - apply unissued_decide. vm_compute. reflexivity.
  - vm_compute. reflexivity.
  - exists e'. split; [vm_compute; reflexivity|].
    split; [exact Hget|]. split; [exact Hn|exact Hh].
Defined.

(** X8. Creating an entry never changes what a name already resolves to.
    If [get(n)] returns [e0], it still returns [e0] after [create] (of
    either class) and after [new_entry], whatever their outcome.  On a
    viewport table this holds for the created name too: a second entry of
    a name is shadowed by the first.  The generator must not have issued
    a handle of the table, and the factory must use the handle it is
    given. *)
Theorem create_keeps_lookups {F : EntityFactory} {L : FactoryLaws F}
    (w : World) (n : string) (e0 : Entry) (name : string)
    (attribs : option Ref) (r : Ref) :
  unissued w ->
  Table_get n w = (w, inr e0) ->
  let kept w' := Table_get n w' = (w', inr e0) in
  kept (fst (Table_create name attribs w)) /\
  kept (fst (ViewportTable_create name attribs w)) /\
  kept (fst (new_entry r w)).
Proof.
  intros Hu Hg kept. unfold kept, Table_get in *.
  assert (Hnew : forall r0 w0,
             same_table w w0 ->
             handles (_drawing (self w0)) = handles (_drawing (self w)) ->
             get_entry n (fst (new_entry r0 w0))
             = (fst (new_entry r0 w0), inr e0)).
  { intros r0 w0 Hs Hh. pose proof Hs as (Hm0 & Hdb0 & _).
    destruct (new_entry_run r0 w0) as (w' & Hrun & _).
    destruct (new_entity (_dxfname (self w0)) (handles (_drawing (self w0)))
                (default ∅ (dicts w0 !! r0))) as [x|e] eqn:Hne;
      destruct Hrun as [-> Hrel]; simpl.
    - destruct Hrel as (Hm' & Hdb' & _).
      apply (get_entry_extend n w w' e0 []); [|  |exact Hg].
      + by rewrite app_nil_r, Hm', Hm0.
      + intros y _. by rewrite Hdb', Hdb0.
    - rewrite (new_entity_handle _ _ _ _ Hne), Hh in Hrel.
      destruct Hrel as (Hm' & Hdb' & _).
      apply (get_entry_extend n w w' e0 [handles (_drawing (self w))]);
        [| |exact Hg].
      + by rewrite Hm', Hm0.
      + intros y Hin. rewrite Hdb', Hdb0. apply lookup_insert_ne.
        intros Heq. subst y. specialize (Hu _ Hin). lia. }
  split; [|split].
  - destruct (create_cases name attribs w)
      as [->|(r0 & w0 & Hs & Hh & ->)]; [exact Hg|].
    by apply Hnew.
  - destruct (viewport_create_cases name attribs w)
      as (r0 & w0 & Hs & Hh & ->).
    by apply Hnew.
  - apply Hnew; [apply same_table_refl|reflexivity].
Qed.

Lemma create_keeps_lookups_witness :
  let w' := fst (ViewportTable_create "*ACTIVE" None Sample.world_vports) in
  members w' = [1%N; 2%N; 3%N] /\
  Table_get "*ACTIVE" w'
    = (w', inr (Sample.record "VPORT" 1 "*ACTIVE" : @Entry Sample.factory)).
Proof.
  intros w'. split; [vm_compute; reflexivity|].
  apply (create_keeps_lookups (F := Sample.factory) Sample.world_vports
           "*ACTIVE" (Sample.record "VPORT" 1 "*ACTIVE") "*ACTIVE" None
           1%positive).
  - apply unissued_decide. vm_compute. reflexivity.
  - vm_compute. reflexivity.
Defined.

(** X9. On a table whose members resolve under their own, distinct
    handles, [contains(name)] answers whether [name] is in the list of
    the members' names, and [remove(name)] takes the first occurrence of
    the name out of that list, keeps the other names in their order and
    leaves the table as sound as it was; [contains(name)] is true
    afterwards exactly when the name occurred a second time. *)
Theorem remove_first_name {F : EntityFactory} (w : World) (name : string) :
  coherent w ->
  Table_contains name w = (w, inr (bool_decide (name ∈ names w))) /\
  (name ∈ names w ->
   exists w' n1 n2,
     Table_remove name w = (w', inr tt) /\
     names w = n1 ++ name :: n2 /\ (name ∉ n1) /\
     names w' = n1 ++ n2 /\
     coherent w' /\
     Table_contains name w' = (w', inr (bool_decide (name ∈ n2)))).
Proof.
  intros Hc. split; [by apply contains_is_membership|].
  intros Hin.
  destruct (first_named name w (members w) (coherent_resolves w Hc))
    as [Hno|(pre & h & post & e & Hm & Hno & He & Hname)].
  { by apply no_member_named_names in Hno. }
  destruct (remove_entry_first name w pre h post e Hc Hm Hno He Hname)
    as (w' & Hrun & Hm' & Hdb & Hrest).
  set (f := fun x => entry_name <$> entry_of w x).
  assert (Hn1 : name ∉ omap f pre).
  { intros Hx. apply list_elem_of_omap in Hx as (x & Hx & Hfx).
    destruct (Hno x Hx) as (ex & Hex & Hne). unfold f in Hfx.
    rewrite Hex in Hfx. simpl in Hfx. congruence. }
  assert (Hnames : names w = omap f pre ++ name :: omap f post).
  { unfold names. rewrite Hm, omap_app. simpl. fold f.
    unfold f at 2. rewrite He. simpl. by rewrite Hname. }
  assert (Hnames' : names w' = omap f pre ++ omap f post).
  { unfold names. rewrite Hm', <- omap_app. apply list_omap_ext.
    apply Forall2_same_length_lookup_2; [reflexivity|].
    intros i x y Hx Hy. assert (x = y) as -> by congruence.
    unfold f. f_equal. apply Hrest. by eapply list_elem_of_lookup_2. }
  assert (Hc' : coherent w').
  { destruct Hc as [Hnd Hres]. split.
    - rewrite Hm'. rewrite Hm in Hnd.
      apply NoDup_app in Hnd as (Hp & Hdisj & Hq).
      apply NoDup_cons in Hq as [_ Hq].
      apply NoDup_app. split; [assumption|]. split; [|assumption].
      intros x Hx Hx'. apply (Hdisj x Hx). by right.
    - intros x Hx. rewrite Hm' in Hx. destruct (Hrest x Hx) as [_ ->].
      apply Hres. rewrite Hm. apply elem_of_app in Hx as [Hx|Hx];
        apply elem_of_app; [by left|right; by right]. }
  exists w', (omap f pre), (omap f post).
  split; [exact Hrun|]. split; [exact Hnames|]. split; [exact Hn1|].
  split; [exact Hnames'|]. split; [exact Hc'|].
  unfold Table_contains. rewrite (contains_is_membership w' name Hc'), Hnames'.
  do 2 f_equal. apply bool_decide_ext. rewrite elem_of_app. tauto.
Qed.

Lemma remove_first_name_witness :
  exists w',
    Table_remove "0" Sample.world2 = (w', inr tt) /\
    names w' = ["1"] /\
    Table_contains "0" w' = (w', inr false).
Proof.
  destruct (remove_first_name Sample.world2 "0") as [_ Hrem].
  - apply coherentb_correct; vm_compute; reflexivity.
  - destruct Hrem as (w' & n1 & n2 & Hrun & Hn & Hn1 & Hn' & _ & Hc).
    + apply (bool_decide_unpack _). vm_compute. exact I.
    + assert (Hsplit : n1 = [] /\ n2 = ["1"]).
      { change (names Sample.world2) with ["0"; "1"] in Hn.
        destruct n1 as [|a n1].
        - injection Hn as <-. by split.
        - injection Hn as <- Hn. exfalso. apply Hn1. left. }
      destruct Hsplit as [-> ->].
      exists w'. split; [exact Hrun|]. split; [exact Hn'|exact Hc].
Defined.

(** X10. [new_entry] does not check the name.  Handed a dictionary whose
    name a member already has, and a factory that accepts it, it adds a
    second member of that name also on a standard table: the names are no
    longer unique. *)
Theorem new_entry_allows_duplicates {F : EntityFactory} {L : FactoryLaws F}
    (w : World) (r : Ref) (name : string) (e : Entry) :
  coherent w -> unissued w ->
  name ∈ names w ->
  default ∅ (dicts w !! r) !! "name" = Some (VStr name) ->
  new_entity (_dxfname (self w)) (handles (_drawing (self w)))
             (default ∅ (dicts w !! r)) = inr e ->
  exists w',
    new_entry r w = (w', inr e) /\
    names w' = names w ++ [name] /\
    ~ NoDup (names w').
Proof.
  intros Hc Hu Hin Ha Hne.
  destruct (new_entry_run r w) as (w' & Hnew & _).
  rewrite Hne in Hnew. destruct Hnew as [Hnew Happ].
  pose proof (new_entity_handle _ _ _ _ Hne) as Hhe.
  destruct (new_entity_wrap _ _ _ _ Hne) as (e' & Hw & _ & Hname).
  rewrite Hhe in Happ.
  assert (Hfresh : handles (_drawing (self w)) ∉ members w).
  { intros Hx. specialize (Hu _ Hx). lia. }
  assert (Hnames : names w' = names w ++ [name]).
  { rewrite (appended_names _ _ _ _ _ Happ Hfresh Hw). by rewrite (Hname _ Ha). }
  exists w'. split; [exact Hnew|]. split; [exact Hnames|].
  rewrite Hnames. intros Hnd. apply NoDup_app in Hnd as (_ & Hdisj & _).
  apply (Hdisj name Hin). left.
Qed.

Lemma new_entry_allows_duplicates_witness :
  exists w',
    new_entry 2%positive
      (set_dicts (<[2%positive := <["name" := VStr "0"]> ∅]> ∅) Sample.world2)
      = (w', inr (Sample.layer 3 "0" : @Entry Sample.factory)) /\
    names w' = ["0"; "1"; "0"].
Proof.
  destruct (new_entry_allows_duplicates (F := Sample.factory)
              (set_dicts (<[2%positive := <["name" := VStr "0"]> ∅]> ∅)
                 Sample.world2)
              2%positive "0" (Sample.layer 3 "0"))
    as (w' & Hrun & Hn & _).
  - apply coherentb_correct; vm_compute; reflexivity.
  - apply unissued_decide. vm_compute. reflexivity.
  - apply (bool_decide_unpack _). vm_compute. exact I.
  - vm_compute. reflexivity.
  - vm_compute. reflexivity.
  - exists w'. split; [exact Hrun|]. rewrite Hn. vm_compute. reflexivity.
Defined.

(* ================================================================= *)
(** ** More on the table: construction and the entity database *)

Section Build.

Context {F : EntityFactory}.

Lemma _add_entry_success entry w w' :
  _add_entry entry w = (w', inr tt) ->
  length (members w') = S (length (members w)) /\
  _table_header (self w') = _table_header (self w).
Proof.
  unfold _add_entry. unfold_monad. destruct entry as [tags|e]; simpl.
  - destruct (gethandle tags (handles (_drawing (self w))))
      as [x|[[h tags'] g']]; simpl; [discriminate|].
    intros [= <-]. unfold members. simpl. rewrite length_app. simpl.
    split; [lia|reflexivity].
  - intros [= <-]. unfold members. simpl. rewrite length_app. simpl.
    split; [lia|reflexivity].
Qed.

Lemma add_entries_success groups w w' :
  add_entries groups w = (w', inr tt) ->
  length (members w') = (length (members w) + length groups)%nat /\
  _table_header (self w') = _table_header (self w).
Proof.
  revert w. induction groups as [|g groups IH]; intros w; simpl.
  - intros [= <-]. split; [lia|reflexivity].
  - unfold_monad.
    destruct (_add_entry (ArgTags (ExtendedTags_new g)) w) as [w1 [x|[]]] eqn:Ha;
      [discriminate|].
    intros Hrest. apply _add_entry_success in Ha as [Hl Hh].
    apply IH in Hrest as [Hl' Hh']. split; [lia|congruence].
Qed.

Lemma _add_entry_keeps_records entry w h :
  is_Some (db_of w !! h) -> is_Some (db_of (fst (_add_entry entry w)) !! h).
Proof.
  intros Hh. unfold _add_entry. unfold_monad. destruct entry as [tags|e]; simpl.
  - destruct (gethandle tags (handles (_drawing (self w))))
      as [x|[[h0 tags'] g']]; simpl; [assumption|].
    change (is_Some (<[h0 := tags']> (db_of w) !! h)).
    rewrite lookup_insert. case_decide; eauto.
  - change (is_Some (<[entry_handle e := entry_tags e]> (db_of w) !! h)).
    rewrite lookup_insert. case_decide; eauto.
Qed.

Lemma add_entries_keeps_records groups w h :
  is_Some (db_of w !! h) -> is_Some (db_of (fst (add_entries groups w)) !! h).
Proof.
  revert w. induction groups as [|g groups IH]; intros w Hh; simpl.
  - assumption.
  - unfold_monad.
    pose proof (_add_entry_keeps_records (ArgTags (ExtendedTags_new g)) w h Hh)
      as H1.
    destruct (_add_entry (ArgTags (ExtendedTags_new g)) w) as [w1 [x|u]];
      simpl in H1; [assumption|]. by apply IH.
Qed.

Lemma build_keeps_records tags w h :
  is_Some (db_of w !! h) ->
  is_Some (db_of (fst (_build_table_entries tags w)) !! h).
Proof.
  intros Hh. unfold _build_table_entries. unfold_monad.
  destruct (getname (TagGroups tags) 0) as [x|v1]; simpl; [assumption|].
  destruct (negb (bool_decide (v1 = VStr "TABLE"))); simpl; [assumption|].
  destruct (getname (TagGroups tags) (-1)) as [x|v2]; simpl; [assumption|].
  destruct (negb (bool_decide (v2 = VStr "ENDTAB"))); simpl; [assumption|].
  apply (add_entries_keeps_records (slice_1_to_last (TagGroups tags))
           (set_table_header
              (Some (ExtendedTags_new
                       (slice_from_1 (default [] (TagGroups tags !! 0%nat)))))
              w)).
  exact Hh.
Qed.

Lemma slice_1_to_last_length {A : Type} (l : list A) :
  length (slice_1_to_last l) = (length l - 2)%nat.
Proof. unfold slice_1_to_last. rewrite length_drop, length_take. lia. Qed.

End Build.

(** X11. A table comes out of the constructor only when the first group
    of the tags is named TABLE and the last ENDTAB.  It then has one
    member for every group in between, its header is made of the first
    group without the marker, its kind is the value of the second tag,
    and the drawing returned is the one the table points to. *)
Theorem init_success {F : EntityFactory} (tags : Tags) (d d' : Drawing)
    (t : Table) :
  Table_init tags d = (d', inr t) ->
  getname (TagGroups tags) 0 = inr (VStr "TABLE") /\
  getname (TagGroups tags) (-1) = inr (VStr "ENDTAB") /\
  length (_table_entries t) = (length (TagGroups tags) - 2)%nat /\
  _table_header t
  = Some (ExtendedTags_new
            (slice_from_1 (default [] (TagGroups tags !! 0%nat)))) /\
  (value <$> tags !! 1%nat) = Some (_dxfname t) /\
  d' = _drawing t.
Proof.
  unfold Table_init. destruct (tags !! 1%nat) as [t1|]; [|discriminate].
  set (w0 := mkWorld (mkTable (value t1) d [] None) ∅ "").
  pose proof (build_kind tags w0) as Hk.
  destruct (_build_table_entries tags w0) as [w [x|[]]] eqn:Hb;
    [discriminate|].
  intros [= <- <-]. simpl in Hk.
  unfold _build_table_entries in Hb. unfold_monad.
  destruct (getname (TagGroups tags) 0) as [x|v1]; simpl in Hb;
    [discriminate|].
  destruct (bool_decide (v1 = VStr "TABLE")) eqn:H1; simpl in Hb;
    [|discriminate].
  destruct (getname (TagGroups tags) (-1)) as [x|v2]; simpl in Hb;
    [discriminate|].
  destruct (bool_decide (v2 = VStr "ENDTAB")) eqn:H2; simpl in Hb;
    [|discriminate].
  apply bool_decide_eq_true in H1, H2. subst v1 v2.
  apply add_entries_success in Hb as [Hl Hh].
  split; [reflexivity|]. split; [reflexivity|]. split.
  { unfold members in Hl. simpl in Hl. rewrite Hl.
    apply slice_1_to_last_length. }
  split; [exact Hh|]. split; [simpl; by rewrite Hk|reflexivity].
Qed.

Lemma init_success_witness :
  exists d' t,
    Table_init Sample.section_tags (mkDrawing ∅ 1%N "AC1009") = (d', inr t) /\
    length (_table_entries t) = 1%nat /\
    _dxfname t = VStr "LAYER".
Proof.
  eexists. eexists. split; [vm_compute; reflexivity|].
  edestruct (init_success (F := Sample.factory) Sample.section_tags
               (mkDrawing ∅ 1%N "AC1009"))
    as (_ & _ & Hl & _ & Hk & _).
  - vm_compute. reflexivity.
  - split; [exact Hl|]. apply (inj Some).
    etransitivity; [symmetry; exact Hk|reflexivity].
Defined.

(** X12. Building a table and creating entries never take a record out of
    the entity database, whatever their outcome.  A record present before
    the constructor ran is present after it; [create] (of either class)
    and [new_entry] leave every record as it is except the one under the
    handle the generator hands out, provided the factory uses the handle
    it is given. *)
Theorem records_are_kept {F : EntityFactory} {L : FactoryLaws F} :
  (forall tags d h,
     is_Some (entitydb d !! h) ->
     is_Some (entitydb (fst (Table_init tags d)) !! h)) /\
  (forall w name attribs r h,
     h <> handles (_drawing (self w)) ->
     db_of (fst (Table_create name attribs w)) !! h = db_of w !! h /\
     db_of (fst (ViewportTable_create name attribs w)) !! h = db_of w !! h /\
     db_of (fst (new_entry r w)) !! h = db_of w !! h).
Proof.
  split.
  - intros tags d h Hh. unfold Table_init.
    destruct (tags !! 1%nat) as [t1|]; [|exact Hh].
    pose proof (build_keeps_records tags
                  (mkWorld (mkTable (value t1) d [] None) ∅ "") h Hh) as Hb.
    destruct (_build_table_entries tags _) as [w [x|u]]; exact Hb.
  - intros w name attribs r h Hne.
    assert (Hnew : forall r0 w0,
               same_table w w0 ->
               handles (_drawing (self w0)) = handles (_drawing (self w)) ->
               db_of (fst (new_entry r0 w0)) !! h = db_of w !! h).
    { intros r0 w0 Hs Hh. pose proof Hs as (_ & Hdb0 & _).
      destruct (new_entry_run r0 w0) as (w' & Hrun & _).
      destruct (new_entity (_dxfname (self w0)) (handles (_drawing (self w0)))
                  (default ∅ (dicts w0 !! r0))) as [x|e] eqn:Hent;
        destruct Hrun as [-> Hrel]; simpl.
      - destruct Hrel as (_ & -> & _). by rewrite Hdb0.
      - rewrite (new_entity_handle _ _ _ _ Hent), Hh in Hrel.
        destruct Hrel as (_ & -> & _). rewrite Hdb0.
        by apply lookup_insert_ne. }
    split; [|split].
    + destruct (create_cases name attribs w)
        as [->|(r0 & w0 & Hs & Hh & ->)]; [reflexivity|]. by apply Hnew.
    + destruct (viewport_create_cases name attribs w)
        as (r0 & w0 & Hs & Hh & ->). by apply Hnew.
    + apply Hnew; [apply same_table_refl|reflexivity].
Qed.

Lemma records_are_kept_witness :
  is_Some (entitydb
             (fst (Table_init Sample.section_tags (Sample.drawing2 "AC1009")))
           !! 1%N) /\
  db_of (fst (Table_create "2" None Sample.world2)) !! 1%N
  = Some (Sample.layer 1 "0").
Proof.
  destruct (records_are_kept (F := Sample.factory)) as [Hinit Hcreate].
  split.
  - apply Hinit. vm_compute. eauto.
  - destruct (Hcreate Sample.world2 "2" None 1%positive 1%N) as [Heq _].
    + vm_compute. discriminate.
    + etransitivity; [exact Heq|]. vm_compute. reflexivity.
Defined.

(* ================================================================= *)
(** ** More on the table: writing *)

Lemma Tags_update_same c v ts :
  Tags_getvalue c ts = Some v -> Tags_update c v ts = inr ts.
Proof.
  induction ts as [|t ts IH]; simpl; [discriminate|].
  destruct (code t =? c) eqn:Hc.
  - intros [= <-]. apply Z.eqb_eq in Hc as <-. by destruct t.
  - intros Hget. by rewrite (IH Hget).
Qed.

Lemma subclass_update_same name c v subs ts :
  subclass_lookup name subs = Some ts -> Tags_getvalue c ts = Some v ->
  subclass_update name c v subs = inr subs.
Proof.
  induction subs as [|[n old] subs IH]; simpl; [discriminate|].
  destruct (String.eqb n name).
  - intros [= ->] Hget. by rewrite (Tags_update_same _ _ _ Hget).
  - intros Hl Hget. by rewrite (IH Hl Hget).
Qed.

Section WriteMore.

Context {F : EntityFactory}.

(** The header patch does not look at the stream. *)
Lemma update_meta_data_stream s w :
  _update_meta_data (set_stream s w)
  = (set_stream s (fst (_update_meta_data w)), snd (_update_meta_data w)).
Proof.
  unfold _update_meta_data, Table_len. unfold_monad. simpl.
  destruct (_table_header (self w)) as [h|]; [|reflexivity].
  destruct (if String.ltb "AC1009" (dxfversion (_drawing (self w)))
            then _ else _) as [x|h']; reflexivity.
Qed.

(** A header whose count is right already is patched to itself. *)
Lemma update_meta_data_fixed w hdr :
  _table_header (self w) = Some hdr ->
  count_field (dxfversion (_drawing (self w))) hdr
  = Some (VInt (Z.of_nat (length (members w)))) ->
  _update_meta_data w = (set_table_header (Some hdr) w, inr tt).
Proof.
  intros Hhdr Hcount. unfold _update_meta_data, Table_len. unfold_monad.
  simpl. rewrite Hhdr. unfold count_field in Hcount.
  destruct (String.ltb "AC1009" (dxfversion (_drawing (self w)))).
  - destruct (subclass_lookup "AcDbSymbolTable" (subclasses hdr))
      as [ts|] eqn:Hl; [|discriminate].
    unfold ExtendedTags_update_subclass.
    rewrite (subclass_update_same _ _ _ _ _ Hl Hcount). simpl.
    by destruct hdr.
  - unfold ExtendedTags_update. rewrite (Tags_update_same _ _ _ Hcount).
    simpl. by destruct hdr.
Qed.

(** A successful [write], by its parts. *)
Lemma write_run w hdr recs :
  _table_header (self w) = Some hdr ->
  is_Some (count_field (dxfversion (_drawing (self w))) hdr) ->
  Forall2 (fun h tags => db_of w !! h = Some tags) (members w) recs ->
  exists w' hdr',
    Table_write w = (w', inr tt) /\
    _update_meta_data w = (set_table_header (Some hdr') w, inr tt) /\
    self w' = self (set_table_header (Some hdr') w) /\
    count_field (dxfversion (_drawing (self w))) hdr'
    = Some (VInt (Z.of_nat (length (members w)))) /\
    stream w' = stream w
                +:+ dxfstr (mkTag 0 (VStr "TABLE"))
                +:+ ExtendedTags_text hdr'
                +:+ concat_text (ExtendedTags_text <$> recs)
                +:+ dxfstr (mkTag 0 (VStr "ENDTAB")).
Proof.
  intros Hhdr Hfield Hall.
  destruct (write_prologue w hdr Hhdr Hfield)
    as (hdr' & Hup & Hcount & _ & Hrun).
  set (wb := set_stream ((stream w +:+ "  0" +:+ nl +:+ "TABLE" +:+ nl)
                         +:+ ExtendedTags_text hdr')
               (set_table_header (Some hdr') w)) in *.
  destruct (write_content_run (members w) wb recs Hall)
    as (w1 & Hloop & Hself & _ & Hst).
  exists (set_stream (stream w1 +:+ "  0" +:+ nl +:+ "ENDTAB" +:+ nl) w1),
         hdr'.
  split.
  { rewrite Hrun. unfold bind. by rewrite Hloop. }
  split; [exact Hup|].
  split; [simpl; by rewrite Hself|]. split; [exact Hcount|].
  rewrite dxfstr_TABLE, dxfstr_ENDTAB.
  simpl. rewrite Hst. unfold wb. simpl. by rewrite !string_app_assoc.
Qed.

(** The loop over the members stops at the first handle without a
    record. *)
Lemma write_content_missing pre h post w recs :
  Forall2 (fun x tags => db_of w !! x = Some tags) pre recs ->
  db_of w !! h = None ->
  exists w',
    write_content (pre ++ h :: post) w = (w', inl (KeyError (pretty h))) /\
    self w' = self w /\
    stream w' = stream w +:+ concat_text (ExtendedTags_text <$> recs).
Proof.
  intros Hall. revert w recs Hall.
  induction pre as [|p pre IH]; intros w recs Hall Hdb; simpl.
  - apply Forall2_nil_inv_l in Hall as ->. unfold_monad. simpl.
    rewrite Hdb. exists w. by rewrite string_app_nil_r.
  - apply Forall2_cons_inv_l in Hall as (tags & recs' & Hp & Hall & ->).
    unfold stream_write. unfold_monad. simpl. rewrite Hp.
    destruct (IH (set_stream (stream w +:+ ExtendedTags_text tags) w)
                recs' Hall Hdb) as (w' & -> & Hs & Hst).
    exists w'. repeat split; try assumption.
    rewrite Hst. simpl. apply string_app_assoc.
Qed.

End WriteMore.

(** X13. Writing does not wear the table out.  After a [write] that
    succeeded, a second [write] succeeds as well, leaves the header as
    the first one left it, and sends the very same text to the stream
    again. *)
Theorem write_twice {F : EntityFactory} (w : World) (hdr : ExtendedTags)
    (recs : list ExtendedTags) :
  _table_header (self w) = Some hdr ->
  is_Some (count_field (dxfversion (_drawing (self w))) hdr) ->
  Forall2 (fun h tags => db_of w !! h = Some tags) (members w) recs ->
  exists w1 w2 hdr' out,
    Table_write w = (w1, inr tt) /\
    Table_write w1 = (w2, inr tt) /\
    _table_header (self w1) = Some hdr' /\
    _table_header (self w2) = Some hdr' /\
    stream w1 = stream w +:+ out /\
    stream w2 = stream w +:+ out +:+ out.
Proof.
  intros Hhdr Hfield Hall.
  destruct (write_run w hdr recs Hhdr Hfield Hall)
    as (w1 & hdr' & Hrun1 & _ & Hself1 & Hcount1 & Hst1).
  assert (Hh1 : _table_header (self w1) = Some hdr') by by rewrite Hself1.
  assert (Hm1 : members w1 = members w) by (unfold members; by rewrite Hself1).
  assert (Hdb1 : db_of w1 = db_of w) by (unfold db_of; by rewrite Hself1).
  assert (Hv1 : dxfversion (_drawing (self w1))
                = dxfversion (_drawing (self w))) by by rewrite Hself1.
  assert (Hcount : count_field (dxfversion (_drawing (self w1))) hdr'
                   = Some (VInt (Z.of_nat (length (members w1))))).
  { by rewrite Hv1, Hm1. }
  destruct (write_run w1 hdr' recs Hh1)
    as (w2 & hdr2 & Hrun2 & Hup2 & Hself2 & _ & Hst2).
  { rewrite Hcount. eauto. }
  { by rewrite Hm1, Hdb1. }
  assert (hdr2 = hdr') as ->.
  { rewrite (update_meta_data_fixed w1 hdr' Hh1 Hcount) in Hup2.
    injection Hup2. congruence. }
  exists w1, w2, hdr',
    (dxfstr (mkTag 0 (VStr "TABLE")) +:+ ExtendedTags_text hdr'
     +:+ concat_text (ExtendedTags_text <$> recs)
     +:+ dxfstr (mkTag 0 (VStr "ENDTAB"))).
  split; [exact Hrun1|]. split; [exact Hrun2|]. split; [exact Hh1|].
  split; [by rewrite Hself2|]. split; [exact Hst1|].
  rewrite Hst2, Hst1. by rewrite !string_app_assoc.
Qed.

Lemma write_twice_witness :
  exists w1 w2 out,
    Table_write Sample.world2 = (w1, inr tt) /\
    Table_write w1 = (w2, inr tt) /\
    _table_header (self w2) = _table_header (self w1) /\
    stream w2 = out +:+ out.
Proof.
  destruct (write_twice Sample.world2 (Sample.header_legacy 7)
              [Sample.layer 1 "0"; Sample.layer 2 "1"])
    as (w1 & w2 & hdr' & out & Hr1 & Hr2 & Hh1 & Hh2 & _ & Hst).
  - reflexivity.
  - vm_compute. eauto.
  - repeat constructor.
  - exists w1, w2, out. split; [exact Hr1|]. split; [exact Hr2|].
    split; [by rewrite Hh1, Hh2|exact Hst].
Defined.

(** X14. The opening marker is on the stream before the header is
    patched.  When the patch fails - the header has no count field where
    the version wants it - [write] ends with that exception, the table is
    as it was, and the stream has received the marker TABLE and nothing
    after it. *)
Theorem write_header_failure {F : EntityFactory} (w w1 : World) (e : exn) :
  _update_meta_data w = (w1, inl e) ->
  Table_write w
  = (set_stream (stream w +:+ dxfstr (mkTag 0 (VStr "TABLE"))) w, inl e).
Proof.
  intros Hup.
  assert (w1 = w) as ->.
  { destruct (update_meta_data_cases w) as [[e' He]|[h' He]];
      rewrite He in Hup; [by injection Hup|discriminate]. }
  unfold Table_write, stream_write. unfold_monad. simpl.
  rewrite update_meta_data_stream, Hup. reflexivity.
Qed.

Lemma write_header_failure_witness :
  Table_write Cases.world_no_count
  = (set_stream ("  0" +:+ nl +:+ "TABLE" +:+ nl) Cases.world_no_count,
     inl (FieldNotFound 70)).
Proof.
  apply (write_header_failure Cases.world_no_count Cases.world_no_count).
  vm_compute. reflexivity.
Defined.

(** X15. A member without a record stops [write] half way.  The marker,
    the patched header and the records of the members before that handle
    are on the stream, then KeyError is raised: nothing of the later
    members and no closing marker ENDTAB is written. *)
Theorem write_missing_record {F : EntityFactory} (w : World)
    (hdr : ExtendedTags) (pre : list Handle) (h : Handle)
    (post : list Handle) (recs : list ExtendedTags) :
  _table_header (self w) = Some hdr ->
  is_Some (count_field (dxfversion (_drawing (self w))) hdr) ->
  members w = pre ++ h :: post ->
  Forall2 (fun x tags => db_of w !! x = Some tags) pre recs ->
  db_of w !! h = None ->
  exists w' hdr',
    Table_write w = (w', inl (KeyError (pretty h))) /\
    _table_header (self w') = Some hdr' /\
    stream w' = stream w
                +:+ dxfstr (mkTag 0 (VStr "TABLE"))
                +:+ ExtendedTags_text hdr'
                +:+ concat_text (ExtendedTags_text <$> recs).
Proof.
  intros Hhdr Hfield Hm Hall Hdb.
  destruct (write_prologue w hdr Hhdr Hfield) as (hdr' & _ & _ & _ & Hrun).
  set (wb := set_stream ((stream w +:+ "  0" +:+ nl +:+ "TABLE" +:+ nl)
                         +:+ ExtendedTags_text hdr')
               (set_table_header (Some hdr') w)) in *.
  destruct (write_content_missing pre h post wb recs Hall Hdb)
    as (w' & Hloop & Hself & Hst).
  exists w', hdr'. split.
  { rewrite Hrun, Hm. unfold bind. by rewrite Hloop. }
  split; [by rewrite Hself|].
  rewrite dxfstr_TABLE, Hst. unfold wb. simpl.
  by rewrite !string_app_assoc.
Qed.

Lemma write_missing_record_witness :
  exists w',
    Table_write Cases.world_dangling = (w', inl (KeyError "2")) /\
    stream w' =
      dxfstr (mkTag 0 (VStr "TABLE")) +:+
      Tags_text [mkTag 2 (VStr "LAYER"); mkTag 70 (VInt 2)] +:+
      Tags_text [mkTag 0 (VStr "LAYER"); mkTag 5 (VInt 1); mkTag 2 (VStr "0")].
Proof.
  destruct (write_missing_record Cases.world_dangling
              (Sample.header_legacy 2) [1%N] 2%N [] [Sample.layer 1 "0"])
    as (w' & hdr' & Hrun & Hh & Hst).
  - reflexivity.
  - vm_compute. eauto.
  - reflexivity.
  - repeat constructor.
  - vm_compute. reflexivity.
  - exists w'. split; [exact Hrun|]. rewrite Hst.
    assert (hdr' = Sample.header_legacy 2) as ->.
    { revert Hrun Hh. vm_compute. intros [= <-]. simpl. congruence. }
    vm_compute. reflexivity.
Defined.

(* ================================================================= *)
(** ** More on the table: the dictionaries of the caller *)

Section Dicts.

Context {F : EntityFactory}.

Lemma create_delegates_dicts name attribs w :
  exists r w0,
    ViewportTable_create name attribs w = new_entry r w0 /\
    (entry_exists name w = (w, inr false) ->
     Table_create name attribs w = new_entry r w0) /\
    forall r', attribs <> Some r' -> is_Some (dicts w !! r') ->
               dicts w0 !! r' = dicts w !! r'.
Proof.
  destruct attribs as [r|].
  - exists r, (with_name r name w). split; [reflexivity|]. split.
    { unfold Table_create, Table_contains. unfold_monad.
      intros ->. reflexivity. }
    intros r' Hne _. unfold with_name. simpl.
    apply lookup_insert_ne. congruence.
  - set (r := fresh (dom (dicts w))).
    exists r, (with_name r name (set_dicts (<[r := ∅]> (dicts w)) w)).
    split; [reflexivity|]. split.
    { unfold Table_create, Table_contains. unfold_monad.
      intros ->. reflexivity. }
    intros r' _ Hin. unfold with_name. simpl.
    assert (r <> r').
    { intros <-. apply (is_fresh (dom (dicts w))). by apply elem_of_dom. }
    by rewrite !lookup_insert_ne.
Qed.

End Dicts.

(** X16. [create] writes into one dictionary only: the one the caller
    passed, or the new one it makes when the caller passed none.  Every
    other dictionary that exists before the call has the same contents
    after it, whatever the outcome of the call. *)
Theorem create_touches_one_dict {F : EntityFactory} (w : World)
    (name : string) (attribs : option Ref) (r' : Ref) :
  attribs <> Some r' -> is_Some (dicts w !! r') ->
  dicts (fst (Table_create name attribs w)) !! r' = dicts w !! r' /\
  dicts (fst (ViewportTable_create name attribs w)) !! r' = dicts w !! r'.
Proof.
  intros Hne Hin.
  destruct (create_delegates_dicts name attribs w)
    as (r & w0 & Hv & Ht & Hd).
  assert (Hnew : dicts (fst (new_entry r w0)) !! r' = dicts w !! r').
  { destruct (new_entry_run r w0) as (w' & Hrun & _ & Hdicts & _).
    destruct (new_entity _ _ _); destruct Hrun as [-> _]; simpl;
      rewrite Hdicts; by apply Hd. }
  split.
  - destruct (entry_exists_frame name w) as [[x|[|]] Hex].
    + unfold Table_create, Table_contains. unfold_monad. by rewrite Hex.
    + by rewrite (create_duplicate _ attribs _ Hex).
    + by rewrite (Ht Hex).
  - by rewrite Hv.
Qed.

Lemma create_touches_one_dict_witness :
  dicts (fst (Table_create "2" None Cases.world_bad_attribs)) !! 1%positive
  = Some (<["color" := VInt 7]> ∅) /\
  dicts (fst (ViewportTable_create "2" (@Some Ref 2%positive)
                Cases.world_bad_attribs)) !! 1%positive
  = Some (<["color" := VInt 7]> ∅).
Proof.
  split.
  - destruct (create_touches_one_dict Cases.world_bad_attribs "2" None
                1%positive) as [Heq _].
    + discriminate.
    + vm_compute. eauto.
    + etransitivity; [exact Heq|]. vm_compute. reflexivity.
  - destruct (create_touches_one_dict Cases.world_bad_attribs "2"
                (@Some Ref 2%positive) 1%positive) as [_ Heq].
    + discriminate.
    + vm_compute. eauto.
    + etransitivity; [exact Heq|]. vm_compute. reflexivity.
Defined.

(* ================================================================= *)
(** ** Text tools *)

Lemma replace_non_printable_app a b r :
  replace_non_printable_characters (a ++ b) r
  = replace_non_printable_characters a r
    ++ replace_non_printable_characters b r.
Proof. unfold replace_non_printable_characters. apply flat_map_app. Qed.

Lemma replace_non_printable_id t r :
  Forall (fun c => is_non_printable_char c = false) t ->
  replace_non_printable_characters t r = t.
Proof.
  induction 1 as [|c t Hc _ IH]; [reflexivity|].
  unfold replace_non_printable_characters in *. simpl.
  by rewrite Hc, IH.
Qed.

(** X17. [replace_non_printable_characters] cleans a text.  A text
    without control characters (the tab counts as printable) comes back
    unchanged.  With a replacement that has no control characters
    itself, the result has none, and replacing once more changes
    nothing. *)
Theorem replace_non_printable_cleans (t replacement : text) :
  (Forall (fun c => is_non_printable_char c = false) t ->
   replace_non_printable_characters t replacement = t) /\
  (Forall (fun c => is_non_printable_char c = false) replacement ->
   Forall (fun c => is_non_printable_char c = false)
     (replace_non_printable_characters t replacement) /\
   replace_non_printable_characters
     (replace_non_printable_characters t replacement) replacement
   = replace_non_printable_characters t replacement).
Proof.
  split; [apply replace_non_printable_id|].
  intros Hr.
  assert (Hclean : Forall (fun c => is_non_printable_char c = false)
                     (replace_non_printable_characters t replacement)).
  { induction t as [|c t IH]; [constructor|].
    change (replace_non_printable_characters (c :: t) replacement)
      with ((if is_non_printable_char c then replacement else [c])
            ++ replace_non_printable_characters t replacement).
    apply Forall_app. split; [|exact IH].
    destruct (is_non_printable_char c) eqn:Hc; [exact Hr|].
    by constructor. }
  split; [exact Hclean|]. by apply replace_non_printable_id.
Qed.

Lemma replace_non_printable_cleans_witness :
  replace_non_printable_characters [65; 9; 66] [9647] = [65; 9; 66] /\
  Forall (fun c => is_non_printable_char c = false)
    (replace_non_printable_characters [65; 10; 0; 66] [9647]).
Proof.
  split.
  - apply (replace_non_printable_cleans [65; 9; 66] [9647]).
    repeat constructor.
  - apply (replace_non_printable_cleans [65; 10; 0; 66] [9647]).
    repeat constructor.
Defined.

Lemma replace_char_app old new a b :
  replace_char old new (a ++ b)
  = replace_char old new a ++ replace_char old new b.
Proof. unfold replace_char. apply flat_map_app. Qed.

Lemma replace_char_absent old new t :
  old ∉ t -> replace_char old new t = t.
Proof.
  induction t as [|c t IH]; intros Hnot; [reflexivity|].
  unfold replace_char in *. simpl.
  destruct (c =? old) eqn:Hc.
  - apply Z.eqb_eq in Hc as ->. exfalso. apply Hnot. left.
  - rewrite IH; [reflexivity|]. intros Hin. apply Hnot. by right.
Qed.

Lemma replace_char_gone old new t :
  old ∉ new -> old ∉ replace_char old new t.
Proof.
  intros Hnew. induction t as [|c t IH]; [apply not_elem_of_nil|].
  change (replace_char old new (c :: t))
    with ((if c =? old then new else [c]) ++ replace_char old new t).
  intros Hin. apply elem_of_app in Hin as [Hin|Hin]; [|by apply IH].
  destruct (c =? old) eqn:Hc; [by apply Hnew|].
  apply list_elem_of_singleton in Hin as ->. by rewrite Z.eqb_refl in Hc.
Qed.

Lemma replace_char_keeps_out x old new t :
  x ∉ t -> x ∉ new -> x ∉ replace_char old new t.
Proof.
  intros Ht Hnew. induction t as [|c t IH]; [apply not_elem_of_nil|].
  change (replace_char old new (c :: t))
    with ((if c =? old then new else [c]) ++ replace_char old new t).
  intros Hin. apply elem_of_app in Hin as [Hin|Hin].
  - destruct (c =? old); [by apply Hnew|].
    apply list_elem_of_singleton in Hin as ->. apply Ht. left.
  - apply IH; [|exact Hin]. intros Hx. apply Ht. by right.
Qed.

Lemma escape_app a b :
  escape_dxf_line_endings (a ++ b)
  = escape_dxf_line_endings a ++ escape_dxf_line_endings b.
Proof.
  unfold escape_dxf_line_endings. by rewrite !replace_char_app.
Qed.

(** X18. [escape_dxf_line_endings] leaves no line ending behind: the
    result has neither a carriage return nor a line feed.  It works
    piece by piece, a line feed becomes backslash P whether or not a
    carriage return stands before it, and a text without line endings is
    returned as it is. *)
Theorem escape_dxf_line_endings_safe :
  (forall t, (13 ∉ escape_dxf_line_endings t) /\
             (10 ∉ escape_dxf_line_endings t)) /\
  (forall a b,
     escape_dxf_line_endings (a ++ b)
     = escape_dxf_line_endings a ++ escape_dxf_line_endings b) /\
  (forall a b,
     escape_dxf_line_endings (a ++ [13; 10] ++ b)
     = escape_dxf_line_endings a ++ [92; 80] ++ escape_dxf_line_endings b /\
     escape_dxf_line_endings (a ++ [10] ++ b)
     = escape_dxf_line_endings a ++ [92; 80] ++ escape_dxf_line_endings b) /\
  (forall t, (13 ∉ t) -> (10 ∉ t) -> escape_dxf_line_endings t = t).
Proof.
  split; [|split; [|split]].
  - intros t. unfold escape_dxf_line_endings. split.
    + apply replace_char_keeps_out.
      * apply replace_char_gone. apply not_elem_of_nil.
      * intros Hin. repeat (apply elem_of_cons in Hin as [Hin|Hin];
                            [discriminate|]).
        by apply elem_of_nil in Hin.
    + apply replace_char_gone.
      intros Hin. repeat (apply elem_of_cons in Hin as [Hin|Hin];
                          [discriminate|]).
      by apply elem_of_nil in Hin.
  - apply escape_app.
  - intros a b. by rewrite !escape_app.
  - intros t H13 H10. unfold escape_dxf_line_endings.
    rewrite (replace_char_absent 13 [] t H13).
    by apply replace_char_absent.
Qed.

Lemma escape_dxf_line_endings_safe_witness :
  escape_dxf_line_endings [65; 92; 80; 66] = [65; 92; 80; 66] /\
  escape_dxf_line_endings [65; 13; 10; 66] = [65; 92; 80; 66].
Proof.
  destruct escape_dxf_line_endings_safe as (_ & _ & Hcrlf & Hid).
  split.
  - apply Hid; intros Hin;
      repeat (apply elem_of_cons in Hin as [Hin|Hin]; [discriminate|]);
      by apply elem_of_nil in Hin.
  - apply (Hcrlf [65] [66]).
Defined.

Lemma caret_decode_cons c rest :
  caret_decode (c :: rest)
  = if c =? 94
    then match rest with
         | [] => [c]
         | d :: rest' =>
             if d =? 10 then c :: caret_decode rest
             else ((d - 64) mod 126) :: caret_decode rest'
         end
    else c :: caret_decode rest.
Proof. reflexivity. Qed.

Lemma caret_decode_length t : (length (caret_decode t) <= length t)%nat.
Proof.
  remember (length t) as n eqn:Hn. revert t Hn.
  induction n as [n IH] using lt_wf_ind. intros t ->.
  destruct t as [|c rest]; [reflexivity|]. rewrite caret_decode_cons.
  assert (Hrest : (length (caret_decode rest) <= length rest)%nat).
  { apply (IH (length rest)); [simpl; lia|reflexivity]. }
  destruct (c =? 94); [|simpl; lia].
  destruct rest as [|d rest']; [reflexivity|].
  destruct (d =? 10); [cbn [length] in *; lia|].
  pose proof (IH (length rest') ltac:(simpl; lia) rest' eq_refl).
  cbn [length]. lia.
Qed.

Lemma caret_decode_no_caret t : 94 ∉ t -> caret_decode t = t.
Proof.
  induction t as [|c t IH]; intros Hnot; [reflexivity|]. simpl.
  destruct (c =? 94) eqn:Hc.
  - apply Z.eqb_eq in Hc as ->. exfalso. apply Hnot. left.
  - rewrite IH; [reflexivity|]. intros Hin. apply Hnot. by right.
Qed.

(** X19. [caret_decode] undoes the caret notation.  A caret and a
    character from "@" (64) on stand for the character 64 places below,
    so "^I" is a tab and "^J" a line feed, and a caret and a space stand
    for the caret itself.  A caret before a line feed or at the end of
    the text stays.  A text without a caret is returned as it is, and
    the result is never longer than the text. *)
Theorem caret_decode_notation :
  (forall c rest,
     64 <= c < 190 ->
     caret_decode (94 :: c :: rest) = (c - 64) :: caret_decode rest) /\
  (forall rest, caret_decode (94 :: 32 :: rest) = 94 :: caret_decode rest) /\
  (forall rest,
     caret_decode (94 :: 10 :: rest) = 94 :: 10 :: caret_decode rest) /\
  caret_decode [94] = [94] /\
  (forall t, 94 ∉ t -> caret_decode t = t) /\
  (forall t, (length (caret_decode t) <= length t)%nat).
Proof.
  split; [|split; [|split; [|split; [|split]]]].
  - intros c rest Hc. simpl.
    destruct (c =? 10) eqn:H10; [apply Z.eqb_eq in H10; lia|].
    f_equal. apply Z.mod_small. lia.
  - reflexivity.
  - intros rest. simpl. reflexivity.
  - reflexivity.
  - apply caret_decode_no_caret.
  - apply caret_decode_length.
Qed.

Lemma caret_decode_notation_witness :
  caret_decode [65; 94; 74; 66; 94; 73] = [65; 10; 66; 9] /\
  caret_decode [65; 66] = [65; 66].
Proof.
  destruct caret_decode_notation as (Hpair & _ & _ & _ & Hid & _).
  split.
  - change (caret_decode [65; 94; 74; 66; 94; 73])
      with (65 :: caret_decode (94 :: 74 :: 66 :: 94 :: 73 :: [])).
    rewrite (Hpair 74) by lia.
    change (caret_decode [66; 94; 73])
      with (66 :: caret_decode (94 :: 73 :: [])).
    rewrite (Hpair 73) by lia. reflexivity.
  - apply Hid. intros Hin.
    repeat (apply elem_of_cons in Hin as [Hin|Hin]; [discriminate|]).
    by apply elem_of_nil in Hin.
Defined.

(* ----------------------------------------------------------------- *)
(** *** Splitting a long text *)

Lemma take_all_when_short {A : Type} (n : nat) (l : list A) :
  (length (take n l) < n)%nat -> take n l = l.
Proof.
  intros Hlt. rewrite length_take in Hlt. apply take_ge. lia.
Qed.

(** The loop from position [pos]: with enough fuel it returns, and what
    it adds to the chunks is the rest of the text cut into pieces. *)
Lemma split_mtext_loop_run fuel s size pos acc :
  (2 <= size)%nat -> (pos <= length s)%nat -> (length s - pos < fuel)%nat ->
  exists cs,
    split_mtext_loop fuel s size pos acc = Some (acc ++ cs) /\
    concat cs = drop pos s /\
    Forall (fun c => (0 < length c <= size)%nat /\
                     (length c = size -> last c <> Some 94)) cs.
Proof.
  intros Hsize. revert pos acc.
  induction fuel as [|fuel IH]; intros pos acc Hpos Hfuel; [lia|].
  simpl. set (chunk := take size (drop pos s)).
  assert (Hlen : length chunk = Nat.min size (length s - pos)).
  { unfold chunk. by rewrite length_take, length_drop. }
  destruct (0 <? length chunk)%nat eqn:H0.
  - apply Nat.ltb_lt in H0.
    destruct (length chunk <? size)%nat eqn:H1.
    + apply Nat.ltb_lt in H1. exists [chunk]. split; [reflexivity|].
      split.
      * simpl. rewrite app_nil_r. unfold chunk.
        apply take_all_when_short. exact H1.
      * constructor; [|constructor]. split; [lia|lia].
    + apply Nat.ltb_ge in H1.
      assert (Hfull : length chunk = size) by lia.
      assert (Hrem : (size <= length s - pos)%nat) by lia.
      destruct (bool_decide (last chunk = Some 94)) eqn:Hlast.
      * destruct (IH (pos + size - 1)%nat
                    (acc ++ [take (length chunk - 1) chunk]))
          as (cs & -> & Hcat & Hall); [lia|lia|].
        exists (take (length chunk - 1) chunk :: cs).
        split; [by rewrite <- app_assoc|]. split.
        -- simpl. rewrite Hcat, Hfull. unfold chunk.
           rewrite take_take.
           replace (Nat.min (size - 1) size) with (size - 1)%nat by lia.
           replace (pos + size - 1)%nat with (pos + (size - 1))%nat by lia.
           rewrite <- drop_drop. apply take_drop.
        -- constructor; [|exact Hall].
           rewrite length_take, Hfull. split; [lia|lia].
      * apply bool_decide_eq_false in Hlast.
        destruct (IH (pos + size)%nat (acc ++ [chunk]))
          as (cs & -> & Hcat & Hall); [lia|lia|].
        exists (chunk :: cs).
        split; [by rewrite <- app_assoc|]. split.
        -- simpl. rewrite Hcat. unfold chunk.
           rewrite <- drop_drop. apply take_drop.
        -- constructor; [|exact Hall]. split; [lia|]. intros _. exact Hlast.
  - apply Nat.ltb_ge in H0. exists []. split; [by rewrite app_nil_r|].
    split; [|constructor].
    simpl. symmetry. apply nil_length_inv. rewrite length_drop. lia.
Qed.

(** More fuel does not change what the loop returns. *)
Lemma split_mtext_loop_more_fuel fuel s size pos acc r :
  split_mtext_loop fuel s size pos acc = Some r ->
  split_mtext_loop (S fuel) s size pos acc = Some r.
Proof.
  revert pos acc. induction fuel as [|fuel IH]; intros pos acc; [discriminate|].
  intros Hrun. simpl in Hrun. cbn [split_mtext_loop].
  destruct (0 <? length (take size (drop pos s)))%nat; [|exact Hrun].
  destruct (length (take size (drop pos s)) <? size)%nat; [exact Hrun|].
  destruct (bool_decide (last (take size (drop pos s)) = Some 94));
    by apply IH.
Qed.

(** X20. [split_mtext_string] cuts a text into chunks that put together
    give the text again.  For a size of two or more the loop returns
    once it has fuel for every character; each chunk has at least one
    and at most [size] characters, and a chunk of the full size does not
    end in a caret.  More fuel gives the same chunks. *)
Theorem split_mtext_string_joins (s : text) (size : nat) :
  (2 <= size)%nat ->
  exists chunks,
    split_mtext_string (S (length s)) s size = Some chunks /\
    concat chunks = s /\
    Forall (fun c => (0 < length c <= size)%nat /\
                     (length c = size -> last c <> Some 94)) chunks /\
    forall fuel, (length s < fuel)%nat ->
                 split_mtext_string fuel s size = Some chunks.
Proof.
  intros Hsize. unfold split_mtext_string.
  destruct (split_mtext_loop_run (S (length s)) s size 0 [] Hsize)
    as (cs & Hrun & Hcat & Hall); [lia|lia|].
  exists cs. split; [exact Hrun|]. split; [exact Hcat|].
  split; [exact Hall|].
  intros fuel Hfuel.
  replace fuel with ((fuel - S (length s)) + S (length s))%nat by lia.
  induction (fuel - S (length s))%nat as [|k IH]; [exact Hrun|].
  change (S k + S (length s))%nat with (S (k + S (length s))).
  by apply split_mtext_loop_more_fuel.
Qed.

Lemma split_mtext_string_joins_witness :
  split_mtext_string 6 [65; 66; 94; 74; 67] 3
  = Some [[65; 66]; [94; 74; 67]].
Proof.
  destruct (split_mtext_string_joins [65; 66; 94; 74; 67] 3)
    as (chunks & Hrun & _ & _ & Hfuel); [lia|].
  rewrite (Hfuel 6%nat) by (simpl; lia).
  vm_compute in Hrun. by rewrite Hrun.
Defined.

(** The loop of size one never gets past a caret. *)
Lemma split_mtext_loop_stuck fuel s pos acc :
  94 ∈ drop pos s -> split_mtext_loop fuel s 1 pos acc = None.
Proof.
  revert pos acc. induction fuel as [|fuel IH]; intros pos acc Hin;
    [reflexivity|].
  simpl. destruct (drop pos s) as [|c rest] eqn:Hd.
  { by apply elem_of_nil in Hin. }
  change (take 1 (c :: rest)) with [c]. simpl.
  destruct (bool_decide (Some c = Some 94)) eqn:Hc.
  - replace (pos + 1 - 1)%nat with pos by lia.
    apply IH. by rewrite Hd.
  - apply IH. apply bool_decide_eq_false in Hc.
    replace (pos + 1)%nat with (pos + 1)%nat by lia.
    rewrite <- drop_drop, Hd. simpl. rewrite drop_0.
    apply elem_of_cons in Hin as [Heq|Hin]; [congruence|exact Hin].
Qed.

(** X21. The sizes below two.  With size zero [split_mtext_string]
    returns no chunk at all, whatever the text.  With size one it never
    returns on a text with a caret in it: the chunk that is the caret is
    emptied and the position does not move, for any amount of fuel. *)
Theorem split_mtext_string_small_sizes (s : text) :
  (forall fuel, split_mtext_string (S fuel) s 0 = Some []) /\
  (94 ∈ s -> forall fuel, split_mtext_string fuel s 1 = None).
Proof.
  split.
  - intros fuel. reflexivity.
  - intros Hin fuel. apply split_mtext_loop_stuck. by rewrite drop_0.
Qed.

Lemma split_mtext_string_small_sizes_witness :
  split_mtext_string 1000 [65; 94; 74] 1 = None.
Proof.
  apply (split_mtext_string_small_sizes [65; 94; 74]).
  apply elem_of_cons. right. left.
Defined.

(* ----------------------------------------------------------------- *)
(** *** Alignments *)

(** X22. [unified_alignment] on a TEXT, ATTRIB or ATTDEF entity.  A
    horizontal alignment up to 2 is passed on together with the vertical
    one.  Every alignment above 2 - ALIGNED 3, MIDDLE 4 and FIT 5 - gives
    (CENTER, BASELINE): the horizontal alignment has been set to CENTER
    before it is compared with 4, so the vertical alignment MIDDLE is
    never chosen for it. *)
Theorem unified_alignment_of_text (entity : TextEntity) :
  dxftype entity ∈ ["TEXT"; "ATTRIB"; "ATTDEF"] ->
  (dxf_halign entity <= 2 ->
   unified_alignment entity = inr (dxf_halign entity, dxf_valign entity)) /\
  (2 < dxf_halign entity ->
   unified_alignment entity = inr (CENTER, BASELINE)).
Proof.
  intros Ht. unfold unified_alignment.
  rewrite bool_decide_eq_true_2 by exact Ht. split; intros Hh.
  - assert ((2 <? dxf_halign entity) = false) as -> by by apply Z.ltb_ge.
    simpl. assert ((dxf_halign entity =? 4) = false) as ->; [|reflexivity].
    apply Z.eqb_neq. lia.
  - assert ((2 <? dxf_halign entity) = true) as -> by by apply Z.ltb_lt.
    reflexivity.
Qed.

Lemma unified_alignment_of_text_witness :
  unified_alignment (mkTextEntity "TEXT" 4 3 0) = inr (CENTER, BASELINE) /\
  unified_alignment (mkTextEntity "ATTRIB" 2 3 0) = inr (RIGHT, TOP).
Proof.
  split.
  - apply (unified_alignment_of_text (mkTextEntity "TEXT" 4 3 0)).
    + apply (bool_decide_unpack _). vm_compute. exact I.
    + simpl. lia.
  - apply (unified_alignment_of_text (mkTextEntity "ATTRIB" 2 3 0)).
    + apply (bool_decide_unpack _). vm_compute. exact I.
    + simpl. lia.
Defined.

(** X23. [unified_alignment] on an MTEXT entity reads the attachment
    point as a place in a grid of three columns and three rows: for the
    points 1 to 9 the horizontal alignment is the column, counted from
    the left, and the vertical alignment goes from TOP down to BOTTOM row
    by row.  Any other attachment point gives (LEFT, TOP). *)
Theorem unified_alignment_of_mtext (entity : TextEntity) :
  dxftype entity = "MTEXT" ->
  let p := dxf_attachment_point entity in
  (1 <= p <= 9 ->
   unified_alignment entity = inr ((p - 1) mod 3, TOP - (p - 1) / 3)) /\
  (p < 1 \/ 9 < p -> unified_alignment entity = inr (LEFT, TOP)).
Proof.
  intros Ht p. unfold unified_alignment. rewrite Ht. simpl. fold p.
  split; intros Hp.
  - assert (p = 1 \/ p = 2 \/ p = 3 \/ p = 4 \/ p = 5 \/ p = 6 \/
            p = 7 \/ p = 8 \/ p = 9) as Hcases by lia.
    repeat (destruct Hcases as [->|Hcases]; [reflexivity|]).
    rewrite Hcases. reflexivity.
  - assert (MTEXT_ALIGN_FLAGS !! p = None) as ->; [|reflexivity].
    apply not_elem_of_list_to_map_1. simpl. intros Hin.
    repeat (apply elem_of_cons in Hin as [Hin|Hin]; [lia|]).
    by apply elem_of_nil in Hin.
Qed.

Lemma unified_alignment_of_mtext_witness :
  unified_alignment (mkTextEntity "MTEXT" 0 0 8) = inr (CENTER, BOTTOM) /\
  unified_alignment (mkTextEntity "MTEXT" 0 0 12) = inr (LEFT, TOP).
Proof.
  split.
  - apply (unified_alignment_of_mtext (mkTextEntity "MTEXT" 0 0 8) eq_refl).
    simpl. lia.
  - apply (unified_alignment_of_mtext (mkTextEntity "MTEXT" 0 0 12) eq_refl).
    simpl. lia.
Defined.

(* ----------------------------------------------------------------- *)
(** *** Plain text of an MTEXT *)

Lemma search_end_rest st l rest :
  snd (search_end st l) = Some rest -> (length rest < length l)%nat.
Proof.
  induction l as [|c l IH]; simpl; [discriminate|].
  destruct (c =? 59); simpl.
  - intros [= ->]. lia.
  - intros H. specialize (IH H). lia.
Qed.

Lemma search_end_no_semicolon st l :
  59 ∉ l ->
  search_end st l = (if st then l else [], None).
Proof.
  induction l as [|c l IH]; intros Hnot; simpl.
  - by destruct st.
  - destruct (c =? 59) eqn:Hc.
    { apply Z.eqb_eq in Hc as ->. exfalso. apply Hnot. left. }
    rewrite IH; [by destruct st|]. intros Hin. apply Hnot. by right.
Qed.

Section MTextFacts.

Variable special : Z -> text.

(** With fuel for every character the loop returns, and what it appends
    to the output does not depend on the fuel or on the output so far. *)
Lemma plain_mtext_loop_total n raw :
  (length raw <= n)%nat ->
  exists r, forall fuel acc,
    (n < fuel)%nat -> plain_mtext_loop special fuel raw acc = Some (acc ++ r).
Proof.
  revert raw. induction n as [|n IH]; intros raw Hlen.
  { destruct raw; [|simpl in Hlen; lia]. exists [].
    intros [|f] acc Hf; [lia|]. simpl. by rewrite app_nil_r. }
  destruct raw as [|c raw1].
  { exists []. intros [|f] acc Hf; [lia|]. simpl. by rewrite app_nil_r. }
  simpl in Hlen.
  assert (Hstep : forall rest x,
            (length rest <= n)%nat ->
            exists r, forall f acc, (n < f)%nat ->
              plain_mtext_loop special f rest (acc ++ x) = Some (acc ++ r)).
  { intros rest x Hr. destruct (IH rest Hr) as [r Hrun]. exists (x ++ r).
    intros f acc Hf. rewrite (Hrun f (acc ++ x) Hf). by rewrite <- app_assoc. }
  assert (Hskip : forall rest,
            (length rest <= n)%nat ->
            exists r, forall f acc, (n < f)%nat ->
              plain_mtext_loop special f rest acc = Some (acc ++ r)).
  { intros rest Hr. exact (IH rest Hr). }
  destruct (c =? 92) eqn:E1.
  - destruct raw1 as [|c2 raw2].
    { exists []. intros [|f] acc Hf; [lia|]. simpl. rewrite E1.
      by rewrite app_nil_r. }
    simpl in Hlen.
    destruct (bool_decide (c2 ∈ [92; 123; 125])) eqn:E2.
    { destruct (Hstep raw2 [c2]) as [r Hr]; [lia|]. exists r.
      intros [|f] acc Hf; [lia|]. simpl. rewrite E1, E2. apply Hr. lia. }
    destruct (bool_decide (c2 ∈ ONE_CHAR_COMMANDS)) eqn:E3.
    { destruct (c2 =? 80) eqn:E4.
      - destruct (Hstep raw2 [10]) as [r Hr]; [lia|]. exists r.
        intros [|f] acc Hf; [lia|]. simpl. rewrite E1, E2, E3, E4.
        apply Hr. lia.
      - destruct (Hskip raw2) as [r Hr]; [lia|]. exists r.
        intros [|f] acc Hf; [lia|]. simpl. rewrite E1, E2, E3, E4.
        apply Hr. lia. }
    destruct (c2 =? 59) eqn:E5.
    { destruct (Hskip raw2) as [r Hr]; [lia|]. exists r.
      intros [|f] acc Hf; [lia|]. simpl. rewrite E1, E2, E3, E5.
      apply Hr. lia. }
    destruct (snd (search_end (c2 =? 83) raw2)) as [rest|] eqn:E6.
    + pose proof (search_end_rest _ _ _ E6) as Hrest.
      destruct (Hstep rest (fst (search_end (c2 =? 83) raw2))) as [r Hr];
        [lia|]. exists r.
      intros [|f] acc Hf; [lia|]. simpl. rewrite E1, E2, E3, E5, E6.
      apply Hr. lia.
    + destruct (Hstep raw2 (fst (search_end (c2 =? 83) raw2) ++ [92; c2]))
        as [r Hr]; [lia|]. exists r.
      intros [|f] acc Hf; [lia|]. simpl. rewrite E1, E2, E3, E5, E6.
      apply Hr. lia.
  - destruct (bool_decide (c ∈ [123; 125])) eqn:E2.
    { destruct (Hskip raw1) as [r Hr]; [lia|]. exists r.
      intros [|f] acc Hf; [lia|]. simpl. rewrite E1, E2. apply Hr. lia. }
    destruct (c =? 37) eqn:E3.
    + destruct raw1 as [|c2 raw2].
      { destruct (Hstep [] [c]) as [r Hr]; [simpl; lia|]. exists r.
        intros [|f] acc Hf; [lia|]. simpl. rewrite E1, E2, E3.
        apply Hr. lia. }
      simpl in Hlen. destruct (c2 =? 37) eqn:E4.
      * destruct raw2 as [|sc raw3].
        { destruct (Hskip []) as [r Hr]; [simpl; lia|]. exists r.
          intros [|f] acc Hf; [lia|]. simpl. rewrite E1, E2, E3, E4.
          apply Hr. lia. }
        simpl in Hlen.
        destruct (Hstep raw3 (special sc)) as [r Hr]; [lia|]. exists r.
        intros [|f] acc Hf; [lia|]. simpl. rewrite E1, E2, E3, E4.
        apply Hr. lia.
      * destruct (Hstep (c2 :: raw2) [c]) as [r Hr]; [simpl; lia|]. exists r.
        intros [|f] acc Hf; [lia|]. simpl. rewrite E1, E2, E3, E4.
        apply Hr. lia.
    + destruct (Hstep raw1 [c]) as [r Hr]; [lia|]. exists r.
      intros [|f] acc Hf; [lia|]. simpl. rewrite E1, E2, E3.
      apply Hr. lia.
Qed.

(** Without backslash and percent sign the loop copies the text, less
    the braces. *)
Lemma plain_mtext_loop_plain raw :
  92 ∉ raw -> 37 ∉ raw ->
  forall fuel acc,
    (length raw < fuel)%nat ->
    plain_mtext_loop special fuel raw acc
    = Some (acc ++ filter (fun c => c ∉ [123; 125]) raw).
Proof.
  induction raw as [|c raw IH]; intros H92 H37 [|f] acc Hf; try (simpl in Hf; lia).
  { simpl. by rewrite app_nil_r. }
  simpl in Hf. cbn [plain_mtext_loop].
  assert ((c =? 92) = false) as ->.
  { apply Z.eqb_neq. intros ->. apply H92. left. }
  assert ((c =? 37) = false) as E37.
  { apply Z.eqb_neq. intros ->. apply H37. left. }
  assert (H92' : 92 ∉ raw) by (intros Hin; apply H92; by right).
  assert (H37' : 37 ∉ raw) by (intros Hin; apply H37; by right).
  destruct (bool_decide (c ∈ [123; 125])) eqn:E2.
  - apply bool_decide_eq_true in E2.
    rewrite (filter_cons_False (fun x => x ∉ [123; 125]) c raw)
      by (intros Hn; by apply Hn).
    apply IH; [assumption..|lia].
  - apply bool_decide_eq_false in E2. rewrite E37.
    rewrite (filter_cons_True (fun x => x ∉ [123; 125]) c raw) by exact E2.
    rewrite (IH H92' H37' f (acc ++ [c])) by lia.
    by rewrite <- app_assoc.
Qed.

End MTextFacts.

(** X24. [plain_mtext] comes to an end on every text: with fuel for each
    character the loop returns, and more fuel gives the same result.  A
    text without backslash and percent sign is returned with its braces
    taken out and nothing else changed. *)
Theorem plain_mtext_returns (special : Z -> text) (t : text) :
  (exists r, forall fuel,
      (length t < fuel)%nat -> plain_mtext special fuel t = Some r) /\
  ((92 ∉ t) -> (37 ∉ t) ->
   forall fuel,
     (length t < fuel)%nat ->
     plain_mtext special fuel t
     = Some (filter (fun c => c ∉ [123; 125]) t)).
Proof.
  split.
  - destruct (plain_mtext_loop_total special (length t) t (le_n _))
      as [r Hr].
    exists r. intros fuel Hf. unfold plain_mtext. by rewrite (Hr fuel [] Hf).
  - intros H92 H37 fuel Hf. unfold plain_mtext.
    by rewrite (plain_mtext_loop_plain special t H92 H37 fuel [] Hf).
Qed.

Lemma plain_mtext_returns_witness :
  plain_mtext (fun _ => []) 10 [123; 65; 66; 125; 67] = Some [65; 66; 67].
Proof.
  destruct (plain_mtext_returns (fun _ => []) [123; 65; 66; 125; 67])
    as [_ Hplain].
  rewrite Hplain; [reflexivity| | |simpl; lia];
    intros Hin;
    repeat (apply elem_of_cons in Hin as [Hin|Hin]; [discriminate|]);
    by apply elem_of_nil in Hin.
Defined.

Ltac not_in_list :=
  let Hin := fresh "Hin" in
  intros Hin;
  repeat (apply elem_of_cons in Hin as [Hin|Hin]; [discriminate|]);
  by apply elem_of_nil in Hin.

(** X25. A command that is not closed by a semicolon is not dropped.  For
    a backslash, a command letter [c] that is none of the one-letter
    commands, and then plain text [u] without a semicolon, [plain_mtext]
    returns the backslash, the letter and [u]; for the stacking command
    "S" the text [u] moreover comes first, so it is there twice. *)
Theorem plain_mtext_open_command (special : Z -> text) (c : Z) (u : text)
    (fuel : nat) :
  c ∉ [92; 123; 125] -> c ∉ ONE_CHAR_COMMANDS -> c <> 59 ->
  Forall (fun x => x ∉ [59; 92; 37; 123; 125]) u ->
  (length u + 2 < fuel)%nat ->
  plain_mtext special fuel (92 :: c :: u)
  = Some ((if c =? 83 then u else []) ++ [92; c] ++ u).
Proof.
  intros Hc1 Hc2 Hc3 Hu Hfuel.
  assert (Hnot : forall x, x ∈ [59; 92; 37; 123; 125] -> x ∉ u).
  { intros x Hx Hin. rewrite Forall_forall in Hu. by apply (Hu x Hin). }
  assert (H59 : 59 ∉ u) by (apply Hnot; repeat first [left | right]).
  assert (H92 : 92 ∉ u) by (apply Hnot; repeat first [left | right]).
  assert (H37 : 37 ∉ u) by (apply Hnot; repeat first [left | right]).
  assert (Hfilter : filter (fun x => x ∉ [123; 125]) u = u).
  { clear -Hu. induction Hu as [|x u Hx _ IH]; [reflexivity|].
    rewrite (filter_cons_True (fun y => y ∉ [123; 125]) x u).
    - f_equal. exact IH.
    - intros Hin. apply Hx. by do 3 right. }
  destruct fuel as [|f]; [lia|].
  unfold plain_mtext. simpl.
  rewrite (bool_decide_eq_false_2 _ Hc1), (bool_decide_eq_false_2 _ Hc2).
  assert ((c =? 59) = false) as -> by by apply Z.eqb_neq.
  rewrite (search_end_no_semicolon _ _ H59). simpl.
  rewrite (plain_mtext_loop_plain special u H92 H37) by lia.
  replace (filter _ u) with u by (symmetry; exact Hfilter).
  destruct (c =? 83); simpl; [|reflexivity].
  by rewrite <- app_assoc.
Qed.

Lemma plain_mtext_open_command_witness :
  plain_mtext (fun _ => []) 10 [92; 83; 49; 47; 50]
  = Some [49; 47; 50; 92; 83; 49; 47; 50] /\
  plain_mtext (fun _ => []) 10 [92; 72; 51; 120]
  = Some [92; 72; 51; 120].
Proof.
  split.
  - apply (plain_mtext_open_command (fun _ => []) 83 [49; 47; 50] 10).
    + not_in_list.
    + unfold ONE_CHAR_COMMANDS. not_in_list.
    + discriminate.
    + repeat (constructor; [not_in_list|]). constructor.
    + simpl. lia.
  - apply (plain_mtext_open_command (fun _ => []) 72 [51; 120] 10).
    + not_in_list.
    + unfold ONE_CHAR_COMMANDS. not_in_list.
    + discriminate.
    + repeat (constructor; [not_in_list|]). constructor.
    + simpl. lia.
Defined.

(* ================================================================= *)
(** ** More on the table: iteration *)

Section IterationFacts.

Context {F : EntityFactory}.

Lemma iter_loop_run hs w :
  (forall h, h ∈ hs -> exists e, entry_of w h = Some e /\ entry_handle e = h) ->
  exists es,
    iter_loop hs w = (w, inr es) /\
    entry_handle <$> es = hs /\
    entry_name <$> es = omap (fun h => entry_name <$> entry_of w h) hs.
Proof.
  induction hs as [|h hs IH]; intros Hres; simpl.
  - exists []. repeat split.
  - destruct (Hres h) as (e & He & Hh); [left|].
    destruct IH as (es & Hrun & Hhs & Hns).
    { intros h' Hin. apply Hres. by right. }
    exists (e :: es). unfold_monad.
    rewrite (wrapper_of_entry _ _ _ He), Hrun. split; [reflexivity|].
    split.
    + change (entry_handle e :: (entry_handle <$> es) = h :: hs).
      by rewrite Hh, Hhs.
    + change (entry_name e :: (entry_name <$> es)
              = omap (fun h => entry_name <$> entry_of w h) (h :: hs)).
      cbn [omap list_omap]. rewrite He. cbn [fmap option_fmap option_map].
      by rewrite Hns.
Qed.

End IterationFacts.

(** X26. Iterating over a table whose members resolve under their own
    handles gives one entry for every member, in the order of the
    members: the handles of the entries are the members, their names are
    the names of the table, there are [len(table)] of them, and the table
    is not changed. *)
Theorem iteration_follows_members {F : EntityFactory} (w : World) :
  coherent w ->
  exists es,
    Table_iter w = (w, inr es) /\
    entry_handle <$> es = members w /\
    entry_name <$> es = names w /\
    snd (Table_len w) = inr (length es).
Proof.
  intros [_ Hres].
  destruct (iter_loop_run (members w) w Hres) as (es & Hrun & Hhs & Hns).
  exists es. split; [exact Hrun|]. split; [exact Hhs|].
  split; [exact Hns|].
  unfold Table_len, gets. simpl. f_equal. symmetry.
  rewrite <- (length_fmap entry_handle es), Hhs. reflexivity.
Qed.

Lemma iteration_follows_members_witness :
  Table_iter Sample.world2
  = (Sample.world2,
     inr [Sample.layer 1 "0" : @Entry Sample.factory; Sample.layer 2 "1"]).
Proof.
  destruct (iteration_follows_members Sample.world2)
    as (es & Hrun & _).
  - apply coherentb_correct; vm_compute; reflexivity.
  - rewrite Hrun. revert Hrun. vm_compute. intros [= <-]. reflexivity.
Defined.
